(** * DPN + MATV: path normalization, metrics aggregation, threshold validation

    A shallow embedding of three Go packages of the repository, and the
    properties of their specification.

    The model:
    - [GoStrings], [Regex], [Float64], [MD5]: the parts of the Go library
      that the code calls ([strings], [regexp], [math], [crypto/md5]);
    - [DPN]: executors/http, [ExtractSimpleEndpoint] and the cardinality
      controller [handleCollisionsAndCardinalityWithState];
    - [Aggregator]: reporting/aggregator, [AggregateMetrics] and the merge
      kernel;
    - [Reporting]: reporting, threshold resolution and [ValidateThresholds].

    The properties: [DPNFacts], [AggregatorFacts], [ReportingFacts] and
    [CardinalityFacts], stated with the predicates of the [...Props] modules;
    [Tests] runs the tables of the repository's test suites on the model.

    Conventions.  A Go [string] is a [string] of bytes, and paths are ASCII;
    [int] and [int64] are [Z]; [float64] is the kernel's binary64 [float],
    so every arithmetic expression below rounds exactly as the Go expression
    it is copied from; a Go [map] is a [gmap]; where the source ranges over a
    map, the order of the visit is an explicit list, because Go leaves that
    order unspecified. *)

From Stdlib Require Import ZArith Floats Ascii Bool Lia.
From stdpp Require Import gmap strings list.

#[local] Open Scope Z_scope.
#[local] Set Warnings "-inexact-float".

(* ===================================================================== *)
(** ** Go's [strings] package on byte strings *)
(* ===================================================================== *)

Module GoStrings.

Definition is_upper (c : ascii) : bool :=
  (65 <=? nat_of_ascii c)%nat && (nat_of_ascii c <=? 90)%nat.
Definition is_lower (c : ascii) : bool :=
  (97 <=? nat_of_ascii c)%nat && (nat_of_ascii c <=? 122)%nat.
Definition is_digit (c : ascii) : bool :=
  (48 <=? nat_of_ascii c)%nat && (nat_of_ascii c <=? 57)%nat.
Definition in_range (lo hi c : ascii) : bool :=
  (nat_of_ascii lo <=? nat_of_ascii c)%nat && (nat_of_ascii c <=? nat_of_ascii hi)%nat.
Definition is_ascii_byte (c : ascii) : bool := (nat_of_ascii c <? 128)%nat.

Fixpoint all_bytes (p : ascii → bool) (s : string) : bool :=
  match s with
  | EmptyString => true
  | String c s' => p c && all_bytes p s'
  end.

Fixpoint map_bytes (f : ascii → ascii) (s : string) : string :=
  match s with
  | EmptyString => EmptyString
  | String c s' => String (f c) (map_bytes f s')
  end.

Definition len (s : string) : Z := Z.of_nat (String.length s).

(** [strings.ToLower] / [strings.ToUpper] on ASCII bytes; bytes from 0x80 on
    are left as they are (the paths of this development are ASCII). *)
Definition lower_byte (c : ascii) : ascii :=
  if is_upper c then ascii_of_nat (nat_of_ascii c + 32) else c.
Definition upper_byte (c : ascii) : ascii :=
  if is_lower c then ascii_of_nat (nat_of_ascii c - 32) else c.
Definition ToLower : string → string := map_bytes lower_byte.
Definition ToUpper : string → string := map_bytes upper_byte.

(** [strings.Index(s, c)] for a one-byte needle; [None] is Go's [-1]. *)
Fixpoint IndexByte (s : string) (c : ascii) : option nat :=
  match s with
  | EmptyString => None
  | String a s' => if Ascii.eqb a c then Some 0%nat else S <$> IndexByte s' c
  end.

Fixpoint LastIndexByte (s : string) (c : ascii) : option nat :=
  match s with
  | EmptyString => None
  | String a s' =>
      match LastIndexByte s' c with
      | Some i => Some (S i)
      | None => if Ascii.eqb a c then Some 0%nat else None
      end
  end.

(** [s[:n]] *)
Fixpoint slice_to (s : string) (n : nat) : string :=
  match n, s with
  | S n', String c s' => String c (slice_to s' n')
  | _, _ => EmptyString
  end.

Fixpoint HasPrefix (s prefix : string) : bool :=
  match prefix, s with
  | EmptyString, _ => true
  | String p prefix', String c s' => Ascii.eqb c p && HasPrefix s' prefix'
  | String _ _, EmptyString => false
  end.

Definition HasSuffix (s suffix : string) : bool :=
  HasPrefix (String.rev s) (String.rev suffix).

(** [strings.TrimSuffix(s, "/")]: one trailing byte [c] is removed. *)
Fixpoint TrimSuffixByte (s : string) (c : ascii) : string :=
  match s with
  | EmptyString => EmptyString
  | String a EmptyString => if Ascii.eqb a c then EmptyString else s
  | String a s' => String a (TrimSuffixByte s' c)
  end.

(** [strings.Split(s, sep)] for a one-byte separator: never the empty list. *)
Fixpoint SplitByte (s : string) (sep : ascii) : list string :=
  match s with
  | EmptyString => [EmptyString]
  | String a s' =>
      if Ascii.eqb a sep then EmptyString :: SplitByte s' sep
      else match SplitByte s' sep with
           | [] => [String a EmptyString]
           | w :: ws => String a w :: ws
           end
  end.

Fixpoint TrimLeftFunc (p : ascii → bool) (s : string) : string :=
  match s with
  | EmptyString => EmptyString
  | String a s' => if p a then TrimLeftFunc p s' else s
  end.

Fixpoint TrimRightFunc (p : ascii → bool) (s : string) : string :=
  match s with
  | EmptyString => EmptyString
  | String a s' =>
      match TrimRightFunc p s' with
      | EmptyString => if p a then EmptyString else String a EmptyString
      | t => String a t
      end
  end.

Definition TrimFunc (p : ascii → bool) (s : string) : string :=
  TrimRightFunc p (TrimLeftFunc p s).

(** [strings.TrimSpace] on ASCII: tab, newline, vertical tab, form feed,
    carriage return, space. *)
Definition TrimSpace : string → string := TrimFunc Ascii.is_space.

(** [strings.Trim(s, "_")] *)
Definition TrimByte (s : string) (c : ascii) : string := TrimFunc (Ascii.eqb c) s.

Fixpoint Join (elems : list string) (sep : string) : string :=
  match elems with
  | [] => EmptyString
  | [e] => e
  | e :: rest => e +:+ sep +:+ Join rest sep
  end.

(** [strings.ReplaceAll(s, old, new)] for a one-byte [old]. *)
Fixpoint ReplaceAllByte (s : string) (old : ascii) (new : string) : string :=
  match s with
  | EmptyString => EmptyString
  | String a s' =>
      if Ascii.eqb a old then new +:+ ReplaceAllByte s' old new
      else String a (ReplaceAllByte s' old new)
  end.

End GoStrings.

(* ===================================================================== *)
(** ** Regular expressions, matched by derivatives *)
(* ===================================================================== *)

(** Every pattern of the source is anchored ([^...$]), so
    [regexp.MatchString] is a match of the whole string. *)
Module Regex.
Import GoStrings.

Inductive regex : Type :=
| Void
| Eps
| Cls (p : ascii → bool)
| Seq (r1 r2 : regex)
| Alt (r1 r2 : regex)
| Star (r : regex).

Fixpoint nullable (r : regex) : bool :=
  match r with
  | Void => false
  | Eps => true
  | Cls _ => false
  | Seq r1 r2 => nullable r1 && nullable r2
  | Alt r1 r2 => nullable r1 || nullable r2
  | Star _ => true
  end.

Definition seq (r1 r2 : regex) : regex :=
  match r1, r2 with
  | Void, _ | _, Void => Void
  | Eps, _ => r2
  | _, Eps => r1
  | _, _ => Seq r1 r2
  end.

Definition alt (r1 r2 : regex) : regex :=
  match r1, r2 with
  | Void, _ => r2
  | _, Void => r1
  | _, _ => Alt r1 r2
  end.

Fixpoint deriv (c : ascii) (r : regex) : regex :=
  match r with
  | Void | Eps => Void
  | Cls p => if p c then Eps else Void
  | Seq r1 r2 =>
      alt (seq (deriv c r1) r2) (if nullable r1 then deriv c r2 else Void)
  | Alt r1 r2 => alt (deriv c r1) (deriv c r2)
  | Star r1 => seq (deriv c r1) (Star r1)
  end.

Fixpoint MatchString (r : regex) (s : string) : bool :=
  match s with
  | EmptyString => nullable r
  | String c s' => MatchString (deriv c r) s'
  end.

(** Pattern syntax. *)
Definition chr (c : ascii) : regex := Cls (Ascii.eqb c).
Definition range (lo hi : ascii) : regex := Cls (in_range lo hi).
Definition digit : regex := Cls is_digit.                     (* \d *)
Definition cls_or (p q : ascii → bool) : ascii → bool := λ c, p c || q c.
Definition opt (r : regex) : regex := Alt Eps r.             (* r?  *)
Definition plus (r : regex) : regex := Seq r (Star r).       (* r+  *)
Fixpoint times (n : nat) (r : regex) : regex :=              (* r{n} *)
  match n with
  | O => Eps
  | S n' => Seq r (times n' r)
  end.
Definition at_least (n : nat) (r : regex) : regex :=         (* r{n,} *)
  Seq (times n r) (Star r).
Fixpoint lit (s : string) : regex :=
  match s with
  | EmptyString => Eps
  | String c s' => Seq (chr c) (lit s')
  end.
Fixpoint alts (rs : list regex) : regex :=
  match rs with
  | [] => Void
  | [r] => r
  | r :: rs' => Alt r (alts rs')
  end.

End Regex.

(* ===================================================================== *)
(** ** binary64 helpers *)
(* ===================================================================== *)

Module Float64.

(** Go's conversion [float64(n)] of an integer: round to nearest even. *)
Definition of_Z (n : Z) : float :=
  SF2Prim (binary_normalize prec emax n 0 false).

(** [math.MaxFloat64] *)
Definition MaxFloat64 : float := 0x1.fffffffffffffp+1023%float.

(** Go's comparison operators on [float64]; each is false on NaN. *)
Definition gt (x y : float) : bool := PrimFloat.ltb y x.
Definition ge (x y : float) : bool := PrimFloat.leb y x.

(** [math.Min] and [math.Max] of the Go library, special cases included. *)
Definition Min (x y : float) : float :=
  if (is_infinity x && get_sign x) || (is_infinity y && get_sign y)
  then neg_infinity
  else if is_nan x || is_nan y then nan
  else if PrimFloat.eqb x 0 && PrimFloat.eqb x y
       then (if get_sign x then x else y)
  else if PrimFloat.ltb x y then x else y.

Definition Max (x y : float) : float :=
  if (is_infinity x && negb (get_sign x)) || (is_infinity y && negb (get_sign y))
  then infinity
  else if is_nan x || is_nan y then nan
  else if PrimFloat.eqb x 0 && PrimFloat.eqb x y
       then (if get_sign x then y else x)
  else if gt x y then x else y.

End Float64.

(* ===================================================================== *)
(** ** crypto/md5 (RFC 1321) *)
(* ===================================================================== *)

Module MD5.

Definition w32 (x : Z) : Z := x mod 2 ^ 32.
Definition rotl (x n : Z) : Z :=
  w32 (Z.lor (Z.shiftl x n) (Z.shiftr (w32 x) (32 - n))).
Definition not32 (x : Z) : Z := Z.lxor (w32 x) 0xffffffff.

Definition shifts : list Z :=
  [ 7; 12; 17; 22; 7; 12; 17; 22; 7; 12; 17; 22; 7; 12; 17; 22;
    5; 9; 14; 20; 5; 9; 14; 20; 5; 9; 14; 20; 5; 9; 14; 20;
    4; 11; 16; 23; 4; 11; 16; 23; 4; 11; 16; 23; 4; 11; 16; 23;
    6; 10; 15; 21; 6; 10; 15; 21; 6; 10; 15; 21; 6; 10; 15; 21 ].

(** [floor (2^32 * abs (sin (i + 1)))] for i = 0 .. 63. *)
Definition sines : list Z :=
[
  0xd76aa478; 0xe8c7b756; 0x242070db; 0xc1bdceee;
  0xf57c0faf; 0x4787c62a; 0xa8304613; 0xfd469501;
  0x698098d8; 0x8b44f7af; 0xffff5bb1; 0x895cd7be;
  0x6b901122; 0xfd987193; 0xa679438e; 0x49b40821;
  0xf61e2562; 0xc040b340; 0x265e5a51; 0xe9b6c7aa;
  0xd62f105d; 0x02441453; 0xd8a1e681; 0xe7d3fbc8;
  0x21e1cde6; 0xc33707d6; 0xf4d50d87; 0x455a14ed;
  0xa9e3e905; 0xfcefa3f8; 0x676f02d9; 0x8d2a4c8a;
  0xfffa3942; 0x8771f681; 0x6d9d6122; 0xfde5380c;
  0xa4beea44; 0x4bdecfa9; 0xf6bb4b60; 0xbebfbc70;
  0x289b7ec6; 0xeaa127fa; 0xd4ef3085; 0x04881d05;
  0xd9d4d039; 0xe6db99e5; 0x1fa27cf8; 0xc4ac5665;
  0xf4292244; 0x432aff97; 0xab9423a7; 0xfc93a039;
  0x655b59c3; 0x8f0ccc92; 0xffeff47d; 0x85845dd1;
  0x6fa87e4f; 0xfe2ce6e0; 0xa3014314; 0x4e0811a1;
  0xf7537e82; 0xbd3af235; 0x2ad7d2bb; 0xeb86d391 ].

Definition bytes_of (s : string) : list Z :=
  (λ c, Z.of_nat (nat_of_ascii c)) <$> String.list_ascii_of_string s.

(** A little-endian integer of [n] bytes. *)
Fixpoint le_bytes (n : nat) (x : Z) : list Z :=
  match n with
  | O => []
  | S n' => x mod 256 :: le_bytes n' (x / 256)
  end.

Fixpoint le_word (bs : list Z) : Z :=
  match bs with
  | [] => 0
  | b :: bs' => b + 256 * le_word bs'
  end.

Definition pad (msg : list Z) : list Z :=
  let n := Z.of_nat (length msg) in
  let zeros := Z.to_nat ((55 - n) mod 64) in
  msg ++ [128] ++ replicate zeros 0 ++ le_bytes 8 (8 * n).

(** The sixteen words of a block of 64 bytes. *)
Fixpoint words (k : nat) (bs : list Z) : list Z :=
  match k with
  | O => []
  | S k' => le_word (take 4 bs) :: words k' (drop 4 bs)
  end.

Definition round (M : list Z) (i : Z) (st : Z * Z * Z * Z) : Z * Z * Z * Z :=
  let '(A, B, C, D) := st in
  let '(F, g) :=
    if i <? 16 then (Z.lor (Z.land B C) (Z.land (not32 B) D), i)
    else if i <? 32 then (Z.lor (Z.land D B) (Z.land (not32 D) C), (5 * i + 1) mod 16)
    else if i <? 48 then (Z.lxor (Z.lxor B C) D, (3 * i + 5) mod 16)
    else (Z.lxor C (Z.lor B (not32 D)), (7 * i) mod 16) in
  let F := w32 (F + A + nth (Z.to_nat i) sines 0 + nth (Z.to_nat g) M 0) in
  (D, w32 (B + rotl F (nth (Z.to_nat i) shifts 0)), B, C).

Definition block (h : Z * Z * Z * Z) (bs : list Z) : Z * Z * Z * Z :=
  let M := words 16 bs in
  let '(a0, b0, c0, d0) := h in
  let '(A, B, C, D) := fold_left (λ st i, round M (Z.of_nat i) st) (List.seq 0 64) h in
  (w32 (a0 + A), w32 (b0 + B), w32 (c0 + C), w32 (d0 + D)).

Fixpoint blocks (k : nat) (h : Z * Z * Z * Z) (bs : list Z) : Z * Z * Z * Z :=
  match k with
  | O => h
  | S k' => blocks k' (block h (take 64 bs)) (drop 64 bs)
  end.

(** [md5.Sum]: the sixteen bytes of the digest. *)
Definition Sum (s : string) : list Z :=
  let bs := pad (bytes_of s) in
  let '(a, b, c, d) :=
    blocks (length bs / 64) (0x67452301, 0xefcdab89, 0x98badcfe, 0x10325476) bs in
  le_bytes 4 a ++ le_bytes 4 b ++ le_bytes 4 c ++ le_bytes 4 d.

Definition hexdigit (n : Z) : ascii :=
  if n <? 10 then ascii_of_nat (Z.to_nat (48 + n)) else ascii_of_nat (Z.to_nat (87 + n)).

(** [fmt.Sprintf("%x", digest)] *)
Fixpoint hex (bs : list Z) : string :=
  match bs with
  | [] => EmptyString
  | b :: bs' => String (hexdigit (b / 16)) (String (hexdigit (b mod 16)) (hex bs'))
  end.

Definition md5hex (s : string) : string := hex (Sum s).

End MD5.

(* ===================================================================== *)
(** ** executors/http: Dynamic Path Normalization *)
(* ===================================================================== *)

Module DPN.
Import GoStrings Regex.

(** *** Precompiled patterns *)

Definition lower_or_digit : ascii → bool := cls_or is_lower is_digit.
Definition hex : regex := Cls (cls_or is_digit (in_range "a" "f")).
Definition alnum : ascii → bool := cls_or is_digit (cls_or is_upper is_lower).

(* ^(api-)?v\d+([a-z0-9]+)?$ *)
Definition reVersion : regex :=
  Seq (opt (lit "api-"))
    (Seq (chr "v") (Seq (plus digit) (opt (plus (Cls lower_or_digit))))).
(* ^\d{4}-\d{2}-\d{2}$ *)
Definition reDateVersion : regex :=
  Seq (times 4 digit) (Seq (chr "-") (Seq (times 2 digit) (Seq (chr "-") (times 2 digit)))).
(* ^[0-9a-f]{8}-[0-9a-f]{4}-[1-5][0-9a-f]{3}-[89ab][0-9a-f]{3}-[0-9a-f]{12}$ *)
Definition reUUID : regex :=
  Seq (times 8 hex) (Seq (chr "-")
    (Seq (times 4 hex) (Seq (chr "-")
      (Seq (range "1" "5") (Seq (times 3 hex) (Seq (chr "-")
        (Seq (alts [chr "8"; chr "9"; chr "a"; chr "b"]) (Seq (times 3 hex) (Seq (chr "-")
          (times 12 hex)))))))))).
(* ^[0-9A-HJKMNP-TV-Z]{26}$ *)
Definition reULID : regex :=
  times 26 (alts [digit; range "A" "H"; chr "J"; chr "K"; chr "M"; chr "N";
                  range "P" "T"; range "V" "Z"]).
(* ^[0-9A-Za-z]{27}$ *)
Definition reKSUID : regex := times 27 (Cls alnum).
(* ^[0-9a-f]{24}$ *)
Definition reMongoID : regex := times 24 hex.
(* ^\d{6,}$ *)
Definition rePureDigits : regex := at_least 6 digit.
(* ^\d{10}(\d{3})?$ *)
Definition reTimestamp : regex := Seq (times 10 digit) (opt (times 3 digit)).
(* ^[0-9a-f]{12,}$ *)
Definition reHexyBlob : regex := at_least 12 hex.
(* ^[A-Za-z]+[-_]*\d+([A-Za-z0-9-_]+)?$ *)
Definition reResourceKey : regex :=
  Seq (plus (Cls (cls_or is_upper is_lower)))
    (Seq (Star (Alt (chr "-") (chr "_")))
      (Seq (plus digit)
        (opt (plus (Cls (cls_or alnum (cls_or (Ascii.eqb "-") (Ascii.eqb "_")))))))).
(* ^[a-z]{2}(-[A-Z]{2})?$ *)
Definition reLocale : regex :=
  Seq (times 2 (Cls is_lower)) (opt (Seq (chr "-") (times 2 (Cls is_upper)))).
(* ^{{\.(X)}}$ where X is [^}] repeated zero or more times *)
Definition reTemplateVar : regex :=
  Seq (lit "{{.") (Seq (Star (Cls (λ c, negb (Ascii.eqb c "}")))) (lit "}}")).

Definition keepList : list regex :=
  [ Seq (lit "status") (times 3 digit);                       (* ^status\d{3}$ *)
    lit "http2";                                              (* ^http2$ *)
    lit "ipv6";                                               (* ^ipv6$ *)
    alts (lit <$> [".well-known"; "openid-configuration"; "oauth2"; "healthz";
                   "readyz"; "livez"; "metrics"; "search"; "bulk"; "export"; "jwks"]);
    alts (lit <$> ["json"; "ndjson"; "csv"; "xml"]);
    reLocale ].

Definition apiPrefixes (token : string) : bool :=
  String.eqb token "api" || String.eqb token "rest" || String.eqb token "graphql".

(** *** Configuration and state *)

Record DPNConfig := mkDPNConfig { MaxEndpoints : Z; CacheSize : Z }.

Record DPNState := mkDPNState {
  cache : gmap string string;
  endpointCollisions : gmap string string;
  endpointCount : Z;
  endpointsBucketed : Z;
  config : DPNConfig
}.

(** [envMaxEndpoints] is the integer that [strconv.Atoi] reads from the
    environment variable VENOM_MAX_ENDPOINTS; [None] when the variable is
    unset, empty or not an integer. *)
Definition getMaxEndpoints (envMaxEndpoints : option Z) : Z :=
  match envMaxEndpoints with
  | Some val => if 0 <? val then val else 5000
  | None => 5000
  end.

Definition DefaultDPNConfig (env : option Z) : DPNConfig :=
  {| MaxEndpoints := getMaxEndpoints env; CacheSize := 8192 |}.

Definition NewDPNState (config : DPNConfig) : DPNState :=
  {| cache := ∅; endpointCollisions := ∅; endpointCount := 0;
     endpointsBucketed := 0; config := config |}.

(** *** Token predicates *)

Definition isHTTPMethod (token : string) : bool :=
  String.eqb token "get" || String.eqb token "post" || String.eqb token "put" ||
  String.eqb token "patch" || String.eqb token "delete" || String.eqb token "head" ||
  String.eqb token "options".

Definition isIDLike (token : string) : bool :=
  MatchString reUUID token || MatchString reULID token || MatchString reKSUID token ||
  MatchString reMongoID token || MatchString rePureDigits token ||
  MatchString reTimestamp token || MatchString reHexyBlob token ||
  MatchString reResourceKey token.

(** The loop of [looksLikeID]: (digitCount, digitRuns, inDigitRun). *)
Fixpoint countDigits (token : string) (digitCount digitRuns : Z) (inDigitRun : bool)
  : Z * Z :=
  match token with
  | EmptyString => (digitCount, digitRuns)
  | String char rest =>
      if is_digit char
      then countDigits rest (digitCount + 1)
             (if inDigitRun then digitRuns else digitRuns + 1) true
      else countDigits rest digitCount digitRuns false
  end.

Definition looksLikeID (token : string) : bool :=
  if len token <? 6 then false
  else
    let '(digitCount, digitRuns) := countDigits token 0 0 false in
    let digitRatio := (Float64.of_Z digitCount / Float64.of_Z (len token))%float in
    Float64.ge digitRatio 0.4 || (2 <=? digitRuns).

Definition trimExtIfAny (s : string) : string :=
  match LastIndexByte s "." with
  | Some i =>
      if (0 <? Z.of_nat i) && (len s - 6 <=? Z.of_nat i) then slice_to s i else s
  | None => s
  end.

Definition normalizeTemplateVariable (token : string) : string :=
  if MatchString reTemplateVar token then "" else token.

(** One round of the classification loop for the token at index [i]:
    [Some t] appends [t] to keptTokens, [None] moves on to the next token. *)
Definition classify (i : nat) (token : string) : option string :=
  let token := normalizeTemplateVariable token in
  if String.eqb token "" then None
  else if existsb (λ keepPattern, MatchString keepPattern token) keepList then Some token
  else if String.eqb token "me" || String.eqb token "self" || String.eqb token "current"
  then Some token
  else if apiPrefixes token && (i <=? 2)%nat then None
  else if MatchString reVersion token || MatchString reDateVersion token then None
  else if isHTTPMethod token then None
  else if isIDLike token then None
  else if (6 <=? len token) && looksLikeID token then None
  else Some token.

Fixpoint pruneTokens (i : nat) (tokens : list string) : list string :=
  match tokens with
  | [] => []
  | token :: rest =>
      match classify i token with
      | Some kept => kept :: pruneTokens (S i) rest
      | None => pruneTokens (S i) rest
      end
  end.

(** Lower-casing, query / fragment / matrix stripping, trailing slash. *)
Definition stripAt (path : string) (c : ascii) : string :=
  match IndexByte path c with
  | Some idx => slice_to path idx
  | None => path
  end.

Definition cleanPath (path : string) : string :=
  let path := ToLower path in
  let path := stripAt path "?" in
  let path := stripAt path "#" in
  let path := stripAt path ";" in
  TrimSuffixByte path "/".

Fixpoint nonEmptyParts (parts : list string) : list string :=
  match parts with
  | [] => []
  | part :: rest =>
      let part := TrimSpace part in
      if String.eqb part "" then nonEmptyParts rest else part :: nonEmptyParts rest
  end.

Definition tokenize (path : string) : list string :=
  nonEmptyParts (SplitByte path "/").

Definition shape (keptTokens : list string) : string :=
  if (length keptTokens <=? 3)%nat then Join keptTokens "_"
  else if (3 <=? length keptTokens)%nat
       then nth 0 keptTokens "" +:+ "_" +:+ nth 1 keptTokens "" +:+ "_" +:+
            nth (length keptTokens - 1) keptTokens ""
       else Join keptTokens "_".

(** [regexp.MustCompile(`_+`).ReplaceAllString(result, "_")] *)
Fixpoint collapseUnderscores (s : string) : string :=
  match s with
  | EmptyString => EmptyString
  | String a s' =>
      if Ascii.eqb a "_"
      then match s' with
           | String b _ => if Ascii.eqb b "_" then collapseUnderscores s'
                           else String a (collapseUnderscores s')
           | EmptyString => String a EmptyString
           end
      else String a (collapseUnderscores s')
  end.

Definition handleCollisionsAndCardinalityWithState
    (normalized original : string) (state : DPNState) : string * DPNState :=
  if MaxEndpoints (config state) <=? endpointCount state then
    ("other",
     {| cache := cache state; endpointCollisions := endpointCollisions state;
        endpointCount := endpointCount state;
        endpointsBucketed := endpointsBucketed state + 1; config := config state |})
  else
    let collides :=
      match endpointCollisions state !! normalized with
      | Some existingOriginal => negb (String.eqb existingOriginal original)
      | None => false
      end in
    if collides then
      let hash := slice_to (MD5.md5hex original) 8 in
      let normalizedWithHash := normalized +:+ "_" +:+ hash in
      (normalizedWithHash,
       {| cache := cache state;
          endpointCollisions := <[normalizedWithHash := original]> (endpointCollisions state);
          endpointCount := endpointCount state + 1;
          endpointsBucketed := endpointsBucketed state; config := config state |})
    else
      (normalized,
       {| cache := cache state;
          endpointCollisions := <[normalized := original]> (endpointCollisions state);
          endpointCount := endpointCount state + 1;
          endpointsBucketed := endpointsBucketed state; config := config state |}).

(** The template computed from the cleaned path and its kept tokens,
    before the cardinality controller sees it. *)
Definition template (path : string) (keptTokens : list string) : string :=
  let result := shape keptTokens in
  let result := if (0 <? length keptTokens)%nat then trimExtIfAny result else result in
  let result := collapseUnderscores result in
  let result := TrimByte result "_" in
  let result := if 80 <? len result then slice_to result 80 else result in
  if String.eqb result "" then TrimByte (ReplaceAllByte path "/" "_") "_" else result.

Definition storeInCache (path result : string) (state : DPNState) : DPNState :=
  let cache0 :=
    if CacheSize (config state) <=? Z.of_nat (size (cache state)) then ∅
    else cache state in
  {| cache := <[path := result]> cache0;
     endpointCollisions := endpointCollisions state;
     endpointCount := endpointCount state;
     endpointsBucketed := endpointsBucketed state; config := config state |}.

Definition ExtractSimpleEndpointWithState (path : string) (state : DPNState)
  : string * DPNState :=
  match cache state !! path with
  | Some cached => (cached, state)
  | None =>
      let path := cleanPath path in
      if String.eqb path "" || String.eqb path "/" then ("root", state)
      else
        let tokens := tokenize path in
        if (length tokens =? 0)%nat then ("root", state)
        else
          let keptTokens := pruneTokens 0 tokens in
          let result := template path keptTokens in
          let '(result, state) :=
            handleCollisionsAndCardinalityWithState result path state in
          (result, storeInCache path result state)
  end.

(** [env] is the reading of the environment by [getMaxEndpoints]. *)
Definition ExtractSimpleEndpoint (env : option Z) (path : string) : string :=
  let state := NewDPNState (DefaultDPNConfig env) in
  fst (ExtractSimpleEndpointWithState path state).

Definition ExtractSimpleEndpointWithMethodAndState (path method : string)
    (state : DPNState) : string * DPNState :=
  let method := ToUpper method in
  let method := if String.eqb method "" then "GET" else method in
  let '(endpoint, state) := ExtractSimpleEndpointWithState path state in
  (method +:+ "_" +:+ endpoint, state).

Definition ExtractSimpleEndpointWithMethod (env : option Z) (path method : string)
  : string :=
  let state := NewDPNState (DefaultDPNConfig env) in
  fst (ExtractSimpleEndpointWithMethodAndState path method state).

(** The source looks for an operation name in the body when the content
    type is JSON, and returns the same template whether it finds one or not;
    the body and the content type are therefore not arguments here. *)
Definition ExtractSimpleEndpointWithGraphQL (env : option Z) (path : string) : string :=
  if HasSuffix path "/graphql" || HasSuffix path "/gql" then "graphql"
  else ExtractSimpleEndpoint env path.

Definition NormalizeEndpoint (env : option Z) (path method : string) : string :=
  if HasSuffix path "/graphql" || HasSuffix path "/gql" then
    let method := ToUpper method in
    let method := if String.eqb method "" then "GET" else method in
    method +:+ "_graphql"
  else ExtractSimpleEndpointWithMethod env path method.

End DPN.

(* ===================================================================== *)
(** ** Dynamic values *)
(* ===================================================================== *)

Module Dyn.

(** A dynamic value of [Metric.Values] ([interface{}]): the three numeric
    types the code asserts on, and [VOther] for any other dynamic type. *)
Inductive value : Type :=
| VFloat64 (v : float)
| VInt (v : Z)
| VInt64 (v : Z)
| VOther (repr : string).

End Dyn.

(* ===================================================================== *)
(** ** reporting/aggregator: the merge kernel and [AggregateMetrics] *)
(* ===================================================================== *)

Module Aggregator.
Import GoStrings.
Export Dyn.

Record Config := mkConfig {
  MaxEndpoints : Z;
  NoBucket : bool;
  MergePercentiles : string
}.

Record Metric := mkMetric {
  Type_ : string;
  Values : gmap string value
}.

Record TestCheck := mkTestCheck {
  Name : string;
  Path : string;
  ID : string;
  Passes : Z;
  Fails : Z
}.

(** A snapshot as [AggregateMetrics] reads it: the checks of its root group
    and its metrics (both present, no entry nil).  The two maps are only
    ranged over, so each is given by its entries in the order in which the
    run visits them.  Times are instants on the integer line. *)
Record Metrics := mkMetrics {
  RootGroup_Checks : list (string * TestCheck);
  Metrics_ : list (string * Metric);
  StartTime : Z;
  EndTime : Z
}.

(** The aggregate under construction ([result] in the source, of the same
    Go type): its maps are looked up and updated by key. *)
Record Aggregate := mkAggregate {
  result_Checks : gmap string TestCheck;
  result_Metrics : gmap string Metric;
  result_StartTime : Z;
  result_EndTime : Z
}.

Definition wrap64 (n : Z) : Z := (n + 2 ^ 63) mod 2 ^ 64 - 2 ^ 63.

Definition globalMetrics : list string :=
  [ "checks"; "data_received"; "data_sent"; "http_req_duration";
    "http_req_failed"; "http_reqs"; "iterations"; "vus"; "vus_max";
    "http_req_blocked"; "http_req_connecting"; "http_req_sending";
    "http_req_waiting"; "http_req_receiving"; "http_req_tls_handshaking" ].

Definition isGlobalMetric (name : string) : bool :=
  existsb (λ global, String.eqb name global || HasPrefix name (global +:+ "_"))
    globalMetrics.

Definition normalizeEndpoint (endpoint : string) : string := endpoint.

Definition getFloat64 (values : gmap string value) (key : string)
    (defaultValue : float) : float :=
  match values !! key with
  | Some (VFloat64 v) => v
  | Some (VInt v) => Float64.of_Z v
  | Some (VInt64 v) => Float64.of_Z v
  | _ => defaultValue
  end.

Definition cloneMetric (metric : Metric) : Metric :=
  {| Type_ := Type_ metric; Values := Values metric |}.

Definition percentiles : list string := ["p(50)"; "p(90)"; "p(95)"; "p(99)"].

(** One round of the percentile loop of [mergeTrendMetric]. *)
Definition mergePercentile (sourceValues : gmap string value)
    (targetCount sourceCount totalCount : float)
    (targetValues : gmap string value) (p : string) : gmap string value :=
  match targetValues !! p, sourceValues !! p with
  | Some _, Some _ =>
      let targetP := getFloat64 targetValues p 0 in
      let sourceP := getFloat64 sourceValues p 0 in
      let weightedP := ((targetP * targetCount + sourceP * sourceCount) / totalCount)%float in
      <[p := VFloat64 weightedP]> targetValues
  | _, _ => targetValues
  end.

Definition mergeTrendMetric (target source : Metric) (mergeStrategy : string) : Metric :=
  let targetValues := Values target in
  let sourceValues := Values source in
  let targetCount := getFloat64 targetValues "count" 0 in
  let sourceCount := getFloat64 sourceValues "count" 0 in
  let totalCount := (targetCount + sourceCount)%float in
  if PrimFloat.eqb totalCount 0 then target
  else
    let targetValues := <["count" := VFloat64 totalCount]> targetValues in
    let targetValues :=
      <["min" := VFloat64 (Float64.Min (getFloat64 targetValues "min" Float64.MaxFloat64)
                                       (getFloat64 sourceValues "min" Float64.MaxFloat64))]>
        targetValues in
    let targetValues :=
      <["max" := VFloat64 (Float64.Max (getFloat64 targetValues "max" 0)
                                       (getFloat64 sourceValues "max" 0))]>
        targetValues in
    let targetAvg := getFloat64 targetValues "avg" 0 in
    let sourceAvg := getFloat64 sourceValues "avg" 0 in
    let targetSum := (targetAvg * targetCount)%float in
    let sourceSum := (sourceAvg * sourceCount)%float in
    let totalSum := (targetSum + sourceSum)%float in
    let targetValues := <["avg" := VFloat64 (totalSum / totalCount)]> targetValues in
    let targetValues :=
      fold_left (mergePercentile sourceValues targetCount sourceCount totalCount)
        percentiles targetValues in
    let targetValues :=
      if Float64.gt totalCount 0 then
        let duration := getFloat64 targetValues "duration" 1 in
        <["rate" := VFloat64 (totalCount / duration)]> targetValues
      else targetValues in
    {| Type_ := Type_ target; Values := targetValues |}.

Definition mergeCounterMetric (target source : Metric) : Metric :=
  let targetValues := Values target in
  let sourceValues := Values source in
  let targetCount := getFloat64 targetValues "count" 0 in
  let sourceCount := getFloat64 sourceValues "count" 0 in
  let targetValues := <["count" := VFloat64 (targetCount + sourceCount)]> targetValues in
  let totalCount := (targetCount + sourceCount)%float in
  let targetValues :=
    if Float64.gt totalCount 0 then
      let duration := getFloat64 targetValues "duration" 1 in
      <["rate" := VFloat64 (totalCount / duration)]> targetValues
    else targetValues in
  {| Type_ := Type_ target; Values := targetValues |}.

Definition mergeRateMetric (target source : Metric) : Metric :=
  let targetValues := Values target in
  let sourceValues := Values source in
  let targetPasses := getFloat64 targetValues "passes" 0 in
  let sourcePasses := getFloat64 sourceValues "passes" 0 in
  let targetFails := getFloat64 targetValues "fails" 0 in
  let sourceFails := getFloat64 sourceValues "fails" 0 in
  let targetValues := <["passes" := VFloat64 (targetPasses + sourcePasses)]> targetValues in
  let targetValues := <["fails" := VFloat64 (targetFails + sourceFails)]> targetValues in
  let totalPasses := (targetPasses + sourcePasses)%float in
  let totalFails := (targetFails + sourceFails)%float in
  let total := (totalPasses + totalFails)%float in
  let targetValues :=
    if Float64.gt total 0 then <["value" := VFloat64 (totalPasses / total)]> targetValues
    else targetValues in
  {| Type_ := Type_ target; Values := targetValues |}.

(** The body of the loop of [mergeGaugeMetric] at one key; the keys are
    independent of each other, so the loop is a key-wise merge. *)
Definition mergeGaugeValue (targetVal sourceVal : option value) : option value :=
  match sourceVal with
  | Some (VFloat64 sourceFloat) =>
      match targetVal with
      | Some (VFloat64 targetFloatFloat) =>
          Some (VFloat64 (Float64.Max targetFloatFloat sourceFloat))
      | Some other => Some other
      | None => Some (VFloat64 sourceFloat)
      end
  | _ => targetVal
  end.

Definition mergeGaugeMetric (target source : Metric) : Metric :=
  {| Type_ := Type_ target;
     Values := merge mergeGaugeValue (Values target) (Values source) |}.

Definition mergeMetric (target source : Metric) (mergeStrategy : string) : Metric :=
  if negb (String.eqb (Type_ target) (Type_ source)) then target
  else if String.eqb (Type_ target) "trend" then mergeTrendMetric target source mergeStrategy
  else if String.eqb (Type_ target) "counter" then mergeCounterMetric target source
  else if String.eqb (Type_ target) "rate" then mergeRateMetric target source
  else if String.eqb (Type_ target) "gauge" then mergeGaugeMetric target source
  else target.

(** [if existing, exists := m[name]; exists { mergeMetric(...) } else { m[name] = cloneMetric(metric) }] *)
Definition mergeInto (m : gmap string Metric) (name : string) (metric : Metric)
    (mergeStrategy : string) : gmap string Metric :=
  match m !! name with
  | Some existing => <[name := mergeMetric existing metric mergeStrategy]> m
  | None => <[name := cloneMetric metric]> m
  end.

(** The variables that the loops of [AggregateMetrics] update. *)
Record Loop := mkLoop {
  result : Aggregate;
  endpointMap : gmap string string;
  endpointCount : Z;
  endpointsBucketed : Z
}.

Definition setMetrics (result : Aggregate) (m : gmap string Metric) : Aggregate :=
  {| result_Checks := result_Checks result; result_Metrics := m;
     result_StartTime := result_StartTime result;
     result_EndTime := result_EndTime result |}.

(** The body of [for metricName, metric := range metrics.Metrics]. *)
Definition processMetric (config : Config) (st : Loop)
    (entry : string * Metric) : Loop :=
  let '(metricName, metric) := entry in
  if isGlobalMetric metricName then st
  else
    let normalizedName := normalizeEndpoint metricName in
    if MaxEndpoints config <=? endpointCount st then
      if NoBucket config then st
      else
        let normalizedName := "other" in
        {| result := setMetrics (result st)
             (mergeInto (result_Metrics (result st)) normalizedName metric
                (MergePercentiles config));
           endpointMap := endpointMap st;
           endpointCount := endpointCount st;
           endpointsBucketed := endpointsBucketed st + 1 |}
    else
      let normalizedName :=
        match endpointMap st !! normalizedName with
        | Some existingOriginal =>
            if negb (String.eqb existingOriginal metricName)
            then normalizedName +:+ "_" +:+ slice_to (MD5.md5hex metricName) 8
            else normalizedName
        | None => normalizedName
        end in
      {| result := setMetrics (result st)
           (mergeInto (result_Metrics (result st)) normalizedName metric
              (MergePercentiles config));
         endpointMap := <[normalizedName := metricName]> (endpointMap st);
         endpointCount := endpointCount st + 1;
         endpointsBucketed := endpointsBucketed st |}.

(** The body of [for checkName, check := range metrics.RootGroup.Checks]. *)
Definition processCheck (checks : gmap string TestCheck)
    (entry : string * TestCheck) : gmap string TestCheck :=
  let '(checkName, check) := entry in
  match checks !! checkName with
  | Some existing =>
      <[checkName := {| Name := Name existing; Path := Path existing; ID := ID existing;
                        Passes := wrap64 (Passes existing + Passes check);
                        Fails := wrap64 (Fails existing + Fails check) |}]> checks
  | None =>
      <[checkName := {| Name := Name check; Path := Path check; ID := ID check;
                        Passes := Passes check; Fails := Fails check |}]> checks
  end.

(** The body of [for i, metrics := range metricsList]. *)
Definition processSnapshot (config : Config) (i : nat) (st : Loop)
    (metrics : Metrics) : Loop :=
  let r := result st in
  let startTime :=
    if (i =? 0)%nat || (StartTime metrics <? result_StartTime r)
    then StartTime metrics else result_StartTime r in
  let endTime :=
    if result_EndTime r <? EndTime metrics then EndTime metrics else result_EndTime r in
  let checks := fold_left processCheck (RootGroup_Checks metrics) (result_Checks r) in
  let st :=
    {| result := {| result_Checks := checks; result_Metrics := result_Metrics r;
                    result_StartTime := startTime; result_EndTime := endTime |};
       endpointMap := endpointMap st;
       endpointCount := endpointCount st;
       endpointsBucketed := endpointsBucketed st |} in
  fold_left (processMetric config) (Metrics_ metrics) st.

Fixpoint processSnapshots (config : Config) (i : nat) (st : Loop)
    (metricsList : list Metrics) : Loop :=
  match metricsList with
  | [] => st
  | metrics :: rest =>
      processSnapshots config (S i) (processSnapshot config i st metrics) rest
  end.

(** The body of the first loop of [addGlobalMetrics]. *)
Definition collectGlobal (globals : gmap string Metric) (entry : string * Metric)
  : gmap string Metric :=
  let '(metricName, metric) := entry in
  if isGlobalMetric metricName then mergeInto globals metricName metric "weighted"
  else globals.

Definition addGlobalMetrics (result : Aggregate) (metricsList : list Metrics)
  : Aggregate :=
  let globals :=
    fold_left (λ g metrics, fold_left collectGlobal (Metrics_ metrics) g)
      metricsList (∅ : gmap string Metric) in
  (* for name, metric := range globalMetrics { result.Metrics[name] = metric } *)
  setMetrics result (globals ∪ result_Metrics result).

Definition initialLoop (now : Z) : Loop :=
  {| result := {| result_Checks := ∅; result_Metrics := ∅;
                  result_StartTime := now; result_EndTime := now |};
     endpointMap := ∅; endpointCount := 0; endpointsBucketed := 0 |}.

(** The state of the loop variables when the main loop ends. *)
Definition mainLoop (now : Z) (metricsList : list Metrics) (config : Config) : Loop :=
  processSnapshots config 0 (initialLoop now) metricsList.

(** [now] is the reading of [time.Now()] when the result is allocated;
    [None] is the error "no metrics to aggregate". *)
Definition AggregateMetrics (now : Z) (metricsList : list Metrics) (config : Config)
  : option Aggregate :=
  if (length metricsList =? 0)%nat then None
  else
    let st := mainLoop now metricsList config in
    Some (addGlobalMetrics (result st) metricsList).

End Aggregator.

(* ===================================================================== *)
(** ** reporting: threshold resolution and validation *)
(* ===================================================================== *)

Module Reporting.
Import GoStrings.
Export Dyn.

Module DurationThreshold.
(** [Value] is a [time.Duration]: nanoseconds. *)
Record t := mk { Value : Z; Tolerance : option float }.
End DurationThreshold.

Module RateThreshold.
Record t := mk { Value : float; Tolerance : option float }.
End RateThreshold.

Record ThresholdValues := mkThresholdValues {
  P50 : option DurationThreshold.t;
  P90 : option DurationThreshold.t;
  P95 : option DurationThreshold.t;
  P99 : option DurationThreshold.t;
  Avg : option DurationThreshold.t;
  Max : option DurationThreshold.t;
  ErrorRate : option RateThreshold.t;
  RPS : option RateThreshold.t;
  MinSamples : option Z
}.

Module ThresholdOptions.
Record t := mk { TolerancePercent : float; MinSamples : Z; SoftFail : bool }.
End ThresholdOptions.

Record ThresholdConfig := mkThresholdConfig {
  Defaults : ThresholdValues;
  Groups : gmap string ThresholdValues;
  Endpoints : gmap string ThresholdValues;
  Options : ThresholdOptions.t
}.

Module ThresholdBreach.
Record t := mk {
  Endpoint : string;
  Metric : string;
  Value : float;
  Threshold : float;
  Unit : string;
  Severity : string;
  SampleCount : Z
}.
End ThresholdBreach.

Record Metric := mkMetric {
  Type_ : string;
  Values : gmap string value
}.

Definition Millisecond : Z := 1000000.

(** [time.Duration.Milliseconds]: integer division, truncated towards zero. *)
Definition Milliseconds (d : Z) : Z := Z.quot d 1000000.

(** Go's conversion [int64(f)] of a [float64]: the fraction is discarded;
    outside the range of [int64] (and on NaN) the result is
    implementation-specific, here the value amd64 produces. *)
Definition int64_of_float (f : float) : Z :=
  match Prim2SF f with
  | S754_zero _ => 0
  | S754_finite s m e =>
      let a := if 0 <=? e then Z.pos m * 2 ^ e else Z.pos m / 2 ^ (- e) in
      let v := if s then - a else a in
      if (- 2 ^ 63 <=? v) && (v <? 2 ^ 63) then v else - 2 ^ 63
  | _ => - 2 ^ 63
  end.

Definition noThresholds : ThresholdValues :=
  {| P50 := None; P90 := None; P95 := None; P99 := None; Avg := None; Max := None;
     ErrorRate := None; RPS := None; MinSamples := None |}.

Definition duration (d : Z) : option DurationThreshold.t :=
  Some {| DurationThreshold.Value := d; DurationThreshold.Tolerance := None |}.

Definition DefaultThresholdConfig : ThresholdConfig :=
  {| Defaults :=
       {| P50 := None; P90 := None;
          P95 := duration (500 * Millisecond);
          P99 := duration (1000 * Millisecond);
          Avg := duration (200 * Millisecond);
          Max := None;
          ErrorRate := Some {| RateThreshold.Value := 0.01;
                               RateThreshold.Tolerance := None |};
          RPS := None; MinSamples := None |};
     Groups :=
       {[ "auth/*" :=
            {| P50 := None; P90 := None; P95 := duration (350 * Millisecond);
               P99 := None; Avg := None; Max := None; ErrorRate := None; RPS := None;
               MinSamples := None |};
          "catalog/*" :=
            {| P50 := None; P90 := None; P95 := duration (450 * Millisecond);
               P99 := None; Avg := None; Max := None; ErrorRate := None; RPS := None;
               MinSamples := None |} ]};
     Endpoints :=
       {[ "GET /users" :=
            {| P50 := None; P90 := None; P95 := duration (300 * Millisecond);
               P99 := None; Avg := duration (150 * Millisecond); Max := None;
               ErrorRate := None; RPS := None; MinSamples := None |};
          "POST /orders" :=
            {| P50 := None; P90 := None; P95 := duration (800 * Millisecond);
               P99 := None; Avg := duration (400 * Millisecond); Max := None;
               ErrorRate := None; RPS := None; MinSamples := None |} ]};
     Options := {| ThresholdOptions.TolerancePercent := 10.0;
                   ThresholdOptions.MinSamples := 100;
                   ThresholdOptions.SoftFail := false |} |}.

Definition override {A} (base over : option A) : option A :=
  match over with
  | Some _ => over
  | None => base
  end.

Definition mergeThresholdValues (base over : ThresholdValues) : ThresholdValues :=
  {| P50 := override (P50 base) (P50 over);
     P90 := override (P90 base) (P90 over);
     P95 := override (P95 base) (P95 over);
     P99 := override (P99 base) (P99 over);
     Avg := override (Avg base) (Avg over);
     Max := override (Max base) (Max over);
     ErrorRate := override (ErrorRate base) (ErrorRate over);
     RPS := override (RPS base) (RPS over);
     MinSamples := override (MinSamples base) (MinSamples over) |}.

Definition isEndpointMetric (metricName : string) : bool :=
  let systemMetrics :=
    [ "http_req_duration"; "http_reqs"; "http_req_failed"; "iterations";
      "checks"; "data_sent"; "data_received"; "vus"; "vus_max" ] in
  negb (existsb (λ sys, HasPrefix metricName sys) systemMetrics).

Section WithRegexp.
(** [regexp.MatchString pattern s] of the Go library: [Some matched], or
    [None] when the pattern does not compile. *)
Variable regexp_MatchString : string → string → option bool.

Definition matchesPattern (endpoint pattern : string) : bool :=
  let regexPattern := ReplaceAllByte pattern "*" ".*" in
  let regexPattern := "^" +:+ regexPattern +:+ "$" in
  match regexp_MatchString regexPattern endpoint with
  | Some matched => matched
  | None => String.eqb endpoint pattern
  end.

(** The loop over [tc.Groups] with its [break]: [visit] lists the
    entries of the map in the order in which this call ranges over them. *)
Fixpoint firstMatch (endpoint : string) (visit : list (string * ThresholdValues))
    (result : ThresholdValues) : ThresholdValues :=
  match visit with
  | [] => result
  | (pattern, groupThresholds) :: rest =>
      if matchesPattern endpoint pattern
      then mergeThresholdValues result groupThresholds
      else firstMatch endpoint rest result
  end.

Definition GetThresholdForEndpoint (tc : ThresholdConfig)
    (visit : list (string * ThresholdValues)) (endpoint : string) : ThresholdValues :=
  let result := Defaults tc in
  let result := firstMatch endpoint visit result in
  match Endpoints tc !! endpoint with
  | Some endpointThresholds => mergeThresholdValues result endpointThresholds
  | None => result
  end.

Definition effectiveTolerance (tc : ThresholdConfig) (own : option float) : float :=
  match own with
  | Some tolerance => tolerance
  | None => ThresholdOptions.TolerancePercent (Options tc)
  end.

Definition severityOf (value threshold tolerance : float) : string :=
  if PrimFloat.leb value (threshold * (1 + (tolerance / 100) * 1.5))%float
  then "warning" else "error".

(** The body of the loop of [checkDurationThresholds] for one check. *)
Definition checkDuration (tc : ThresholdConfig) (endpoint : string) (metric : Metric)
    (sampleCount : Z) (check : string * option DurationThreshold.t * string)
  : list ThresholdBreach.t :=
  let '(key, threshold, unit) := check in
  match threshold with
  | None => []
  | Some threshold =>
      match Values metric !! key with
      | Some (VFloat64 value) =>
          let thresholdMs :=
            Float64.of_Z (Milliseconds (DurationThreshold.Value threshold)) in
          let tolerance := effectiveTolerance tc (DurationThreshold.Tolerance threshold) in
          let effectiveThreshold := (thresholdMs * (1 + tolerance / 100))%float in
          if Float64.gt value effectiveThreshold then
            [ {| ThresholdBreach.Endpoint := endpoint;
                 ThresholdBreach.Metric := key;
                 ThresholdBreach.Value := value;
                 ThresholdBreach.Threshold := thresholdMs;
                 ThresholdBreach.Unit := unit;
                 ThresholdBreach.Severity := severityOf value thresholdMs tolerance;
                 ThresholdBreach.SampleCount := sampleCount |} ]
          else []
      | _ => []
      end
  end.

Definition durationChecks (thresholds : ThresholdValues)
  : list (string * option DurationThreshold.t * string) :=
  [ ("p(50)", P50 thresholds, "ms");
    ("p(90)", P90 thresholds, "ms");
    ("p(95)", P95 thresholds, "ms");
    ("p(99)", P99 thresholds, "ms");
    ("avg", Avg thresholds, "ms");
    ("max", Max thresholds, "ms") ].

Definition checkDurationThresholds (tc : ThresholdConfig) (endpoint : string)
    (metric : Metric) (thresholds : ThresholdValues) (sampleCount : Z)
  : list ThresholdBreach.t :=
  flat_map (checkDuration tc endpoint metric sampleCount) (durationChecks thresholds).

Definition checkRateThresholds (tc : ThresholdConfig) (endpoint : string)
    (metric : Metric) (thresholds : ThresholdValues) (sampleCount : Z)
  : list ThresholdBreach.t :=
  let errorBreaches :=
    match ErrorRate thresholds with
    | None => []
    | Some er =>
        let errorRate :=
          match Values metric !! "fails", Values metric !! "count" with
          | Some (VInt64 fails), Some (VInt64 total) =>
              if 0 <? total then (Float64.of_Z fails / Float64.of_Z total)%float
              else 0%float
          | _, _ => 0%float
          end in
        let threshold := RateThreshold.Value er in
        let tolerance := effectiveTolerance tc (RateThreshold.Tolerance er) in
        let effectiveThreshold := (threshold * (1 + tolerance / 100))%float in
        if Float64.gt errorRate effectiveThreshold then
          [ {| ThresholdBreach.Endpoint := endpoint;
               ThresholdBreach.Metric := "error_rate";
               ThresholdBreach.Value := (errorRate * 100)%float;
               ThresholdBreach.Threshold := (threshold * 100)%float;
               ThresholdBreach.Unit := "%";
               ThresholdBreach.Severity := severityOf errorRate threshold tolerance;
               ThresholdBreach.SampleCount := sampleCount |} ]
        else []
    end in
  let rpsBreaches :=
    match RPS thresholds with
    | None => []
    | Some rps =>
        match Values metric !! "rate" with
        | Some (VFloat64 rate) =>
            let threshold := RateThreshold.Value rps in
            let tolerance := effectiveTolerance tc (RateThreshold.Tolerance rps) in
            let effectiveThreshold := (threshold * (1 + tolerance / 100))%float in
            if Float64.gt rate effectiveThreshold then
              [ {| ThresholdBreach.Endpoint := endpoint;
                   ThresholdBreach.Metric := "rps";
                   ThresholdBreach.Value := rate;
                   ThresholdBreach.Threshold := threshold;
                   ThresholdBreach.Unit := "req/s";
                   ThresholdBreach.Severity := severityOf rate threshold tolerance;
                   ThresholdBreach.SampleCount := sampleCount |} ]
            else []
        | _ => []
        end
    end in
  errorBreaches ++ rpsBreaches.

Definition sampleCountOf (metric : Metric) : Z :=
  match Values metric !! "count" with
  | Some (VInt64 count) => count
  | Some (VFloat64 count) => int64_of_float count
  | _ => 0
  end.

Definition minSamplesOf (tc : ThresholdConfig) : Z :=
  if ThresholdOptions.MinSamples (Options tc) =? 0 then 100
  else ThresholdOptions.MinSamples (Options tc).

(** The body of [for metricName, metric := range metrics.Metrics];
    [visitGroups endpoint] is the order in which the call of
    [GetThresholdForEndpoint] for [endpoint] ranges over [tc.Groups]. *)
Definition validateMetric (tc : ThresholdConfig)
    (visitGroups : string → list (string * ThresholdValues))
    (entry : string * Metric) : list ThresholdBreach.t :=
  let '(metricName, metric) := entry in
  if negb (isEndpointMetric metricName) then []
  else
    let endpoint := metricName in
    let thresholds := GetThresholdForEndpoint tc (visitGroups endpoint) endpoint in
    let sampleCount := sampleCountOf metric in
    if sampleCount <? minSamplesOf tc then []
    else
      checkDurationThresholds tc endpoint metric thresholds sampleCount ++
      checkRateThresholds tc endpoint metric thresholds sampleCount.

(** [metrics] lists the entries of [metrics.Metrics] in the order of the
    visit. *)
Definition ValidateThresholds (tc : ThresholdConfig)
    (visitGroups : string → list (string * ThresholdValues))
    (metrics : list (string * Metric)) : list ThresholdBreach.t :=
  flat_map (validateMetric tc visitGroups) metrics.

End WithRegexp.

(** *** The thresholds of the HTML report *)

Module JSThresholdValues.
Record t := mk {
  P50 : option float;
  P90 : option float;
  P95 : option float;
  P99 : option float;
  Avg : option float;
  Max : option float;
  ErrorRate : option float;
  RPS : option float;
  MinSamples : option Z
}.
End JSThresholdValues.

(** [ms := float64(threshold.Value.Nanoseconds()) / 1e6], under
    [if threshold != nil]. *)
Definition durationForJS (threshold : option DurationThreshold.t) : option float :=
  match threshold with
  | Some threshold =>
      Some (Float64.of_Z (DurationThreshold.Value threshold) / 1e6)%float
  | None => None
  end.

Definition rateForJS (threshold : option RateThreshold.t) : option float :=
  match threshold with
  | Some threshold => Some (RateThreshold.Value threshold)
  | None => None
  end.

Definition convertThresholdValuesForJS (values : ThresholdValues) : JSThresholdValues.t :=
  {| JSThresholdValues.P50 := durationForJS (P50 values);
     JSThresholdValues.P90 := durationForJS (P90 values);
     JSThresholdValues.P95 := durationForJS (P95 values);
     JSThresholdValues.P99 := durationForJS (P99 values);
     JSThresholdValues.Avg := durationForJS (Avg values);
     JSThresholdValues.Max := durationForJS (Max values);
     JSThresholdValues.ErrorRate := rateForJS (ErrorRate values);
     JSThresholdValues.RPS := rateForJS (RPS values);
     JSThresholdValues.MinSamples := MinSamples values |}.

End Reporting.

(* ===================================================================== *)
(** ** regexp.MatchString on wildcard patterns *)
(* ===================================================================== *)

Module Wildcard.
Import GoStrings Regex.

Definition metaBytes : string := "\.+*?()|[]{}^$".

Definition metaByte (c : ascii) : bool :=
  negb (all_bytes (λ m, negb (Ascii.eqb c m)) metaBytes).

(** [.] matches any byte but a newline. *)
Definition anyByte : regex := Cls (λ c, negb (Ascii.eqb c "010")).

Definition atom (c : ascii) : option regex :=
  if Ascii.eqb c "." then Some anyByte
  else if metaByte c then None
  else Some (chr c).

(** The items of a pattern up to its closing [$]. *)
Fixpoint compileItems (s : string) : option regex :=
  match s with
  | EmptyString => None
  | String c rest =>
      if Ascii.eqb c "$" then (if String.eqb rest "" then Some Eps else None)
      else
        match atom c with
        | None => None
        | Some a =>
            match rest with
            | String c' rest' =>
                if Ascii.eqb c' "*" then Seq (Star a) <$> compileItems rest'
                else Seq a <$> compileItems rest
            | EmptyString => None
            end
        end
  end.

Definition compile (pattern : string) : option regex :=
  match pattern with
  | String c items => if Ascii.eqb c "^" then compileItems items else None
  | EmptyString => None
  end.

(** An executable [regexp.MatchString] for the anchored patterns made of
    literal bytes, [.] and [*], the ones [matchesPattern] builds from
    wildcard patterns over literal bytes.  Patterns outside this fragment are
    answered as patterns that do not compile; no statement below uses one. *)
Definition MatchString (pattern s : string) : option bool :=
  (λ r, Regex.MatchString r s) <$> compile pattern.

End Wildcard.

(* ===================================================================== *)
(** ** executors/http: the statistics of the cardinality controller *)
(* ===================================================================== *)

Module DPNStats.
Import GoStrings DPN.
Export Dyn.

(** The map of statistics ([map[string]interface{}]): the integers are
    [int] values, the ratio is a [float64]. *)
Definition GetCardinalityStatsWithState (state : DPNState) : gmap string value :=
  {[ "unique_endpoints" := VInt (endpointCount state);
     "max_endpoints" := VInt (MaxEndpoints (config state));
     "endpoints_bucketed" := VInt (endpointsBucketed state);
     "cardinality_ratio" :=
       VFloat64 (Float64.of_Z (endpointCount state) /
                 Float64.of_Z (MaxEndpoints (config state)))%float;
     "cache_size" := VInt (Z.of_nat (size (cache state)));
     "collision_map_size" := VInt (Z.of_nat (size (endpointCollisions state))) ]}.

(** [env] is the reading of the environment by [getMaxEndpoints]. *)
Definition GetCardinalityStats (env : option Z) : gmap string value :=
  let state := NewDPNState (DefaultDPNConfig env) in
  GetCardinalityStatsWithState state.

End DPNStats.

(* ===================================================================== *)
(** ** reporting/aggregator: [AggregateFiles] *)
(* ===================================================================== *)

Module AggregatorFiles.
Import GoStrings Aggregator.

Section WithFiles.
(** [ReadMetricsFile filename]: the snapshot of the file, or the message of
    the error. *)
Variable ReadMetricsFile : string → Metrics + string.

(** The loop over the channel of results.  The goroutines send in the order
    in which they finish, so [arrived] lists the input files in the order of
    arrival, some permutation of [inputFiles]; the first error ends the call. *)
Fixpoint collect (arrived : list string) (allMetrics : list Metrics)
  : list Metrics + string :=
  match arrived with
  | [] => inl allMetrics
  | file :: rest =>
      match ReadMetricsFile file with
      | inr err => inr ("error reading " +:+ file +:+ ": " +:+ err)
      | inl metrics => collect rest (allMetrics ++ [metrics])
      end
  end.

(** [config = None] is the nil pointer. *)
Definition AggregateFiles (now : Z) (arrived : list string) (config : option Config)
  : Aggregate + string :=
  let config :=
    match config with
    | Some config => config
    | None => {| MaxEndpoints := 2000; NoBucket := false; MergePercentiles := "weighted" |}
    end in
  match collect arrived [] with
  | inr err => inr err
  | inl allMetrics =>
      match AggregateMetrics now allMetrics config with
      | Some result => inl result
      | None => inr "no metrics to aggregate"
      end
  end.

End WithFiles.

End AggregatorFiles.

(* ===================================================================== *)
(** ** reporting: the summary of the breaches, the loading of a configuration *)
(* ===================================================================== *)

Module ReportingConfig.
Import GoStrings Reporting.

(** [summary[v.Severity]++]: a key that is missing reads as 0.  The counts
    are bounded by the length of the slice, far from the end of [int]. *)
Definition GetBreachSummary (tc : ThresholdConfig) (breaches : list ThresholdBreach.t)
  : gmap string Z :=
  let summary : gmap string Z :=
    {[ "total" := Z.of_nat (length breaches); "error" := 0; "warning" := 0 ]} in
  fold_left
    (λ summary v,
       <[ThresholdBreach.Severity v :=
           default 0 (summary !! ThresholdBreach.Severity v) + 1]> summary)
    breaches summary.

Section WithFiles.
(** [os.ReadFile filename]: the bytes of the file, or the message of the error. *)
Variable os_ReadFile : string → string + string.
(** [yaml.Unmarshal data] into a zero [ThresholdConfig]: the configuration
    read, or the message of the error. *)
Variable yaml_Unmarshal : string → ThresholdConfig + string.

Definition LoadThresholdConfig (filename : string) : ThresholdConfig + string :=
  match os_ReadFile filename with
  | inr err => inr ("failed to read threshold config file: " +:+ err)
  | inl data =>
      match yaml_Unmarshal data with
      | inr err => inr ("failed to parse threshold config YAML: " +:+ err)
      | inl config =>
          let options := Options config in
          let tolerancePercent :=
            if PrimFloat.eqb (ThresholdOptions.TolerancePercent options) 0 then 10.0%float
            else ThresholdOptions.TolerancePercent options in
          let minSamples :=
            if ThresholdOptions.MinSamples options =? 0 then 100
            else ThresholdOptions.MinSamples options in
          inl {| Defaults := Defaults config; Groups := Groups config;
                 Endpoints := Endpoints config;
                 Options :=
                   {| ThresholdOptions.TolerancePercent := tolerancePercent;
                      ThresholdOptions.MinSamples := minSamples;
                      ThresholdOptions.SoftFail := ThresholdOptions.SoftFail options |} |}
      end
  end.

End WithFiles.

End ReportingConfig.

(* ===================================================================== *)
(** ** Predicates and inputs of the statements *)
(* ===================================================================== *)

Module RegexProps.
Import Regex.

(** The strings of a regular expression. *)
Inductive matches : regex → string → Prop :=
| matches_eps : matches Eps ""
| matches_cls p c : p c = true → matches (Cls p) (String c "")
| matches_seq r1 r2 s1 s2 :
    matches r1 s1 → matches r2 s2 → matches (Seq r1 r2) (s1 +:+ s2)
| matches_alt_l r1 r2 s : matches r1 s → matches (Alt r1 r2) s
| matches_alt_r r1 r2 s : matches r2 s → matches (Alt r1 r2) s
| matches_star_nil r : matches (Star r) ""
| matches_star_app r s1 s2 :
    matches r s1 → matches (Star r) s2 → matches (Star r) (s1 +:+ s2).

End RegexProps.

Module DPNProps.
Import GoStrings Regex DPN.

(** *** Stable keys *)

(** The bytes of a cleaned path: no upper-case letter, none of the marks
    at which [cleanPath] cuts. *)
Definition cleanByte (c : ascii) : bool :=
  negb (is_upper c) && negb (Ascii.eqb c "?") && negb (Ascii.eqb c "#") &&
  negb (Ascii.eqb c ";").

(** The bytes of a template: those of a cleaned path, the slash apart. *)
Definition templateByte (c : ascii) : bool :=
  negb (is_upper c) && negb (Ascii.eqb c "/") && negb (Ascii.eqb c "?") &&
  negb (Ascii.eqb c "#") && negb (Ascii.eqb c ";").

(** A byte that a second normalization trims from either end. *)
Definition edgeByte (c : ascii) : bool := Ascii.eqb c "_" || Ascii.is_space c.

Definition firstByte (s : string) : option ascii :=
  match s with
  | EmptyString => None
  | String a _ => Some a
  end.

Fixpoint lastByte (s : string) : option ascii :=
  match s with
  | EmptyString => None
  | String a EmptyString => Some a
  | String _ s' => lastByte s'
  end.

(** Two consecutive bytes [c]. *)
Fixpoint doubled (c : ascii) (s : string) : bool :=
  match s with
  | EmptyString => false
  | String a s' =>
      match s' with
      | String b _ => (Ascii.eqb a c && Ascii.eqb b c) || doubled c s'
      | EmptyString => false
      end
  end.

(** No extension that [trimExtIfAny] would cut. *)
Definition untrimmable (s : string) : bool :=
  match LastIndexByte s "." with
  | Some i => negb ((0 <? Z.of_nat i) && (len s - 6 <=? Z.of_nat i))
  | None => true
  end.

(** A key that is not empty, of at most 80 bytes, that neither begins nor
    ends with an underscore or a blank, has no doubled underscore and no
    extension left to trim. *)
Definition stableKey (r : string) : bool :=
  negb (String.eqb r "") && (len r <=? 80) &&
  negb (from_option edgeByte false (firstByte r)) &&
  negb (from_option edgeByte false (lastByte r)) &&
  negb (doubled "_" r) && untrimmable r.

Definition avoids (x : ascii) (s : string) : bool :=
  all_bytes (λ a, negb (Ascii.eqb a x)) s.

Definition uuid_path : string :=
  "/api/v1/users/550e8400-e29b-41d4-a716-446655440000/profile".

(** The table of TestExtractSimpleEndpoint and of its edge cases. *)
Definition table_ExtractSimpleEndpoint : list (string * string) :=
  [ ("/", "root"); ("/health", "health"); ("/healthz", "healthz"); ("/readyz", "readyz");
    ("/status/200", "status_200"); ("/metrics", "metrics");
    ("/double//slashes///here", "double_slashes_here");
    ("/trailing/slash/", "trailing_slash"); ("/path?query=1#frag", "path");
    ("/api/v1/users", "users"); ("/rest/v3/customers/cust123", "customers");
    ("/graphql/v2/schema", "schema"); ("/api-v2/payments/charge", "payments_charge");
    ("/v2024-08-01/charges/abc123", "charges"); ("/svc/api/v1/orders/123456", "svc_orders");
    ("/get/delay/1", "delay_1"); ("/post/data", "data"); ("/put/users/123", "users_123");
    ("/users/550e8400-e29b-41d4-a716-446655440000/profile", "users_profile");
    ("/sessions/01ARZ3NDEKTSV4RRFFQ69G5FAV", "sessions");
    ("/obj/507f1f77bcf86cd799439011", "obj"); ("/events/1699999999999", "events");
    ("/tenants/12345678/billing", "tenants_billing");
    ("/users/user123/profile", "users_profile");
    ("/orders/order_456/items/item789", "orders_items"); ("/keys/ab12cd34ef56ab78", "keys");
    ("/status200/check", "status200_check"); ("/http2/support", "http2_support");
    ("/users/me/profile", "users_me_profile"); ("/accounts/self/limits", "accounts_self_limits");
    ("/profiles/current", "profiles_current"); ("/content/en/articles", "content_en_articles");
    ("/content/en-US/articles", "content_en-us_articles"); ("/export/csv", "export_csv");
    ("/feed/recent.json", "feed_recent");
    ("/.well-known/openid-configuration", ".well-known_openid-configuration");
    ("/.well-known/jwks.json", ".well-known_jwks");
    ("/billing/tenant123/invoices/invoice456/items/item789", "billing_invoices_items");
    ("/api/v2/orders/order456/items/item789", "orders_items"); ("/a/b/c/d/e", "a_b_e");
    ("/app;jsessionid=ABC123/home", "app"); ("/reports;region=us/2024/summary.pdf", "reports");
    ("/users/123?expand=roles", "users_123"); ("/oauth2/authorize", "oauth2_authorize");
    ("/livez", "livez"); ("/api/v1/bulk/upload", "bulk_upload");
    ("/search/users", "search_users"); ("/content/es/news", "content_es_news");
    ("/api/v1/data.json", "data"); ("/reports/export.csv", "reports_export");
    ("/logs/events.ndjson", "logs_events.ndjson"); ("/config/settings.xml", "config_settings");
    ("/accounts/self/settings", "accounts_self_settings");
    ("/data/{{.previousStep.value}}/view", "data_view");
    ("/data/{{.value}}/validate", "data_validate");
    ("/auth/view/{{.tenant_id}}/remove", "auth_view_remove");
    ("/config/{{.previousStep.value.vaule2}}/create", "config_create");
    ("/api/v2024-10-01/users", "users"); ("/api-v2/payments", "payments");
    ("/api/v2alpha1/config", "config"); ("/reports/2024-10-01/summary.pdf", "reports_summary");
    ("", "root"); ("///", "root"); ("/API/V1/Users", "users");
    ("/path-with-dashes/and_underscores", "path-with-dashes_and_underscores");
    ("/this/is/a/very/long/path/that/would/produce/a/name/longer/than/eighty/characters/once/normalized",
     "this_is_normalized");
    ("/123/456/789", "123_456_789"); ("/!@#$%^&*()", "!@");
    ("/users/123/orders/456/items/789", "users_123_789");
    ("/api/v1beta/users", "users"); ("/api/v2alpha1/users", "users");
    ("/api/v1.0-rc1/users", "users"); ("/api/v1/users/user-123-abc/profile", "users_profile");
    ("/api/v1/orders/order_456_def/items/item-789-ghi", "orders_items") ].

(** *** Calls into a state *)

(** A call into a DPN state. *)
Inductive call : Type :=
| Extract (path : string)
| Handle (normalized original : string).

Definition runCall (state : DPNState) (c : call) : DPNState :=
  match c with
  | Extract path => (ExtractSimpleEndpointWithState path state).2
  | Handle normalized original =>
      (handleCollisionsAndCardinalityWithState normalized original state).2
  end.

Definition runCalls (calls : list call) (state : DPNState) : DPNState :=
  fold_left runCall calls state.

(** The keys the controller has recorded, the overflow bucket apart. *)
Definition recordedKeys (state : DPNState) : gset string :=
  dom (endpointCollisions state) ∖ {["other"]}.

Definition within (cfg : DPNConfig) (state : DPNState) : Prop :=
  config state = cfg ∧
  Z.of_nat (size (dom (endpointCollisions state))) ≤ endpointCount state ∧
  endpointCount state ≤ Z.max 0 (MaxEndpoints cfg).

End DPNProps.

Module AggregatorProps.
Import GoStrings Aggregator.

(** *** Trend metrics *)

Definition spec_target : Metric :=
  {| Type_ := "trend";
     Values := {[ "count" := VFloat64 2; "avg" := VFloat64 100; "p(95)" := VFloat64 140 ]} |}.
Definition spec_source : Metric :=
  {| Type_ := "trend";
     Values := {[ "count" := VFloat64 3; "avg" := VFloat64 200; "p(95)" := VFloat64 280 ]} |}.

Definition trendKeys : list string := ["count"; "min"; "max"; "avg"; "rate"; "duration"].

(** *** Rate metrics *)

(** The invariant of the data model, read on a map of values. *)
Definition rateInvariant (values : gmap string value) : Prop :=
  let passes := getFloat64 values "passes" 0 in
  let fails := getFloat64 values "fails" 0 in
  let value := getFloat64 values "value" 0 in
  (Float64.gt (passes + fails) 0 = true → value = (passes / (passes + fails))%float) ∧
  (PrimFloat.eqb (passes + fails) 0 = true → PrimFloat.eqb value 0 = true) ∧
  (PrimFloat.leb 0 passes = true → PrimFloat.leb 0 fails = true →
   PrimFloat.leb 0 value = true ∧ PrimFloat.leb value 1 = true).

Definition idle_rate_target : Metric :=
  {| Type_ := "rate";
     Values := {[ "passes" := VFloat64 0; "fails" := VFloat64 0; "value" := VFloat64 7 ]} |}.
(** A rate metric whose value is not its quotient, in a snapshot of its own. *)
Definition stale_rate : Metric :=
  {| Type_ := "rate";
     Values := {[ "passes" := VFloat64 3; "fails" := VFloat64 1; "value" := VFloat64 0.2 ]} |}.
Definition stale_snapshot : Metrics :=
  {| RootGroup_Checks := []; Metrics_ := [("login_ok", stale_rate)];
     StartTime := 0; EndTime := 0 |}.

Definition idle_rate_source : Metric :=
  {| Type_ := "rate";
     Values := {[ "passes" := VFloat64 0; "fails" := VFloat64 0; "value" := VFloat64 0 ]} |}.

(** *** The cardinality budget *)

(** The endpoint keys of an aggregate: the keys of its metrics other than the
    overflow bucket and the global metrics. *)
Definition endpointKeys (m : gmap string Metric) : gset string :=
  filter (λ k, k ≠ "other" ∧ isGlobalMetric k = false) (dom m).

(** The occurrences of endpoint metrics in the inputs, in the order of the visit. *)
Definition occurrences (metricsList : list Metrics) : list (string * Metric) :=
  filter (λ e, isGlobalMetric e.1 = false) (concat (Metrics_ <$> metricsList)).

Definition budget (config : Config) : Z := Z.max 0 (MaxEndpoints config).

Definition sameEndpoint (n : nat) (name : string) (metric : Metric) : list Metrics :=
  replicate n {| RootGroup_Checks := []; Metrics_ := [(name, metric)];
                 StartTime := 0; EndTime := 0 |}.

(** [k] occurrences seen so far: the counters of the loop. *)
Definition counted (config : Config) (k : Z) (st : Loop) : Prop :=
  0 ≤ k ∧
  endpointCount st = Z.min (budget config) k ∧
  endpointsBucketed st = if NoBucket config then 0 else k - endpointCount st.

(** The ceiling: the endpoint keys never outnumber the admitted occurrences. *)
Definition bounded (config : Config) (st : Loop) : Prop :=
  Z.of_nat (size (endpointKeys (result_Metrics (result st)))) ≤ endpointCount st ∧
  endpointCount st ≤ budget config.

Definition one_sample : Metric :=
  {| Type_ := "trend"; Values := {[ "count" := VFloat64 1; "avg" := VFloat64 100 ]} |}.

End AggregatorProps.

Module ReportingProps.
Import GoStrings Reporting.

(** [visit] is an order in which a [range] may visit the entries of [m]. *)
Definition rangeOrder {V} (m : gmap string V) (visit : list (string * V)) : Prop :=
  NoDup visit.*1 ∧ list_to_map visit = m.

Definition p95Only (d : Z) : ThresholdValues :=
  {| P50 := None; P90 := None; P95 := duration d; P99 := None; Avg := None; Max := None;
     ErrorRate := None; RPS := None; MinSamples := None |}.

Definition defaultOptions : ThresholdOptions.t :=
  {| ThresholdOptions.TolerancePercent := 10; ThresholdOptions.MinSamples := 100;
     ThresholdOptions.SoftFail := false |}.

Definition racing_config : ThresholdConfig :=
  {| Defaults := noThresholds;
     Groups := {[ "a*" := p95Only (100 * Millisecond); "*b" := p95Only (200 * Millisecond) ]};
     Endpoints := ∅;
     Options := defaultOptions |}.

(** The group entries whose pattern matches the endpoint, in the order of the visit. *)
Definition matching (regexp_MatchString : string → string → option bool)
    (endpoint : string) (visit : list (string * ThresholdValues))
  : list (string * ThresholdValues) :=
  filter (λ e, matchesPattern regexp_MatchString endpoint e.1 = true) visit.

(** The scenario of the specification. *)
Definition spec_thresholds : ThresholdValues :=
  {| P50 := None; P90 := None;
     P95 := Some {| DurationThreshold.Value := 300 * Millisecond;
                    DurationThreshold.Tolerance := Some 10%float |};
     P99 := None; Avg := None; Max := None; ErrorRate := None; RPS := None;
     MinSamples := None |}.

Definition spec_config : ThresholdConfig :=
  {| Defaults := spec_thresholds; Groups := ∅; Endpoints := ∅;
     Options := {| ThresholdOptions.TolerancePercent := 0;
                   ThresholdOptions.MinSamples := 100;
                   ThresholdOptions.SoftFail := false |} |}.

Definition spec_metric : Metric :=
  {| Type_ := "trend";
     Values := {[ "p(95)" := VFloat64 400; "count" := VFloat64 150 ]} |}.

(** The same threshold, an observation within its tolerance: 320 is not
    greater than 300 * (1 + 10/100), though it is greater than 300, the bound
    under the tolerance of the options. *)
Definition near_metric : Metric :=
  {| Type_ := "trend";
     Values := {[ "p(95)" := VFloat64 320; "count" := VFloat64 150 ]} |}.

(** A threshold with a fraction of a millisecond: 1.5ms, tolerance 10. *)
Definition fractional_thresholds : ThresholdValues :=
  {| P50 := None; P90 := None;
     P95 := Some {| DurationThreshold.Value := 1500000;
                    DurationThreshold.Tolerance := Some 10%float |};
     P99 := None; Avg := None; Max := None; ErrorRate := None; RPS := None;
     MinSamples := None |}.

Definition fractional_config : ThresholdConfig :=
  {| Defaults := fractional_thresholds; Groups := ∅; Endpoints := ∅;
     Options := {| ThresholdOptions.TolerancePercent := 0;
                   ThresholdOptions.MinSamples := 100;
                   ThresholdOptions.SoftFail := false |} |}.

Definition fractional_metric : Metric :=
  {| Type_ := "trend";
     Values := {[ "p(95)" := VFloat64 1.2; "count" := VFloat64 150 ]} |}.

(** An endpoint that asks for 200 samples, and a metric with 150. *)
Definition gated_config : ThresholdConfig :=
  {| Defaults := p95Only (300 * Millisecond);
     Groups := ∅;
     Endpoints :=
       {[ "GET_users" :=
            {| P50 := None; P90 := None; P95 := None; P99 := None; Avg := None;
               Max := None; ErrorRate := None; RPS := None; MinSamples := Some 200 |} ]};
     Options := defaultOptions |}.

Definition gated_metric : Metric :=
  {| Type_ := "trend";
     Values := {[ "count" := VFloat64 150; "p(95)" := VFloat64 400 ]} |}.

Definition blocked_metric : Metric :=
  {| Type_ := "trend";
     Values := {[ "count" := VFloat64 150; "p(95)" := VFloat64 1000 ]} |}.

(** An order of the visit of the groups of [DefaultThresholdConfig]. *)
Definition defaultVisit : list (string * ThresholdValues) :=
  [ ("auth/*", p95Only (350 * Millisecond)); ("catalog/*", p95Only (450 * Millisecond)) ].

End ReportingProps.

Module ControllerProps.
Import GoStrings DPN DPNProps.

(** The controller holds what it held in [state0]; only the number of
    bucketed endpoints may have grown. *)
Definition saturatedAs (state0 state : DPNState) : Prop :=
  endpointCollisions state = endpointCollisions state0 ∧
  endpointCount state = endpointCount state0 ∧
  config state = config state0 ∧
  endpointsBucketed state0 ≤ endpointsBucketed state.

(** What every state reached from a fresh one satisfies, besides [within]:
    the counter of the bucket is not negative, the cache holds at most
    [CacheSize] entries (one, when that is less than 1) and its keys are
    cleaned paths. *)
Definition cacheInvariant (cfg : DPNConfig) (state : DPNState) : Prop :=
  config state = cfg ∧
  0 ≤ endpointsBucketed state ∧
  Z.of_nat (size (cache state)) ≤ Z.max 1 (CacheSize cfg) ∧
  ∀ key cached, cache state !! key = Some cached → all_bytes cleanByte key = true.

End ControllerProps.

Module ThresholdProps.
Import GoStrings Reporting.

(** The pairs of a metric key and a unit that a breach can carry. *)
Definition breachKinds : list (string * string) :=
  [ ("p(50)", "ms"); ("p(90)", "ms"); ("p(95)", "ms"); ("p(99)", "ms");
    ("avg", "ms"); ("max", "ms"); ("error_rate", "%"); ("rps", "req/s") ].

(** A breach about [endpoint], with its sample count, one of the kinds and
    one of the two severities. *)
Definition breachOf (endpoint : string) (sampleCount : Z) (b : ThresholdBreach.t) : Prop :=
  ThresholdBreach.Endpoint b = endpoint ∧
  ThresholdBreach.SampleCount b = sampleCount ∧
  (ThresholdBreach.Metric b, ThresholdBreach.Unit b) ∈ breachKinds ∧
  (ThresholdBreach.Severity b = "warning" ∨ ThresholdBreach.Severity b = "error").

(** One field of a layering: the overlay's value when the overlay sets the
    field, the value of the base otherwise. *)
Definition layer {A} (base over result : option A) : Prop :=
  match over with
  | Some v => result = Some v
  | None => result = base
  end.

(** [result] is [base] overlaid by [over], field by field. *)
Definition layers (base over result : ThresholdValues) : Prop :=
  layer (P50 base) (P50 over) (P50 result) ∧ layer (P90 base) (P90 over) (P90 result) ∧
  layer (P95 base) (P95 over) (P95 result) ∧ layer (P99 base) (P99 over) (P99 result) ∧
  layer (Avg base) (Avg over) (Avg result) ∧ layer (Max base) (Max over) (Max result) ∧
  layer (ErrorRate base) (ErrorRate over) (ErrorRate result) ∧
  layer (RPS base) (RPS over) (RPS result) ∧
  layer (MinSamples base) (MinSamples over) (MinSamples result).

(** The metrics that the validator leaves out, by prefix. *)
Definition systemPrefixes : list string :=
  [ "http_req_duration"; "http_reqs"; "http_req_failed"; "iterations";
    "checks"; "data_sent"; "data_received"; "vus"; "vus_max" ].

(** A configuration file without options, as [yaml.Unmarshal] returns it. *)
Definition bare_config : ThresholdConfig :=
  {| Defaults := noThresholds; Groups := ∅; Endpoints := ∅;
     Options := {| ThresholdOptions.TolerancePercent := 0;
                   ThresholdOptions.MinSamples := 0;
                   ThresholdOptions.SoftFail := true |} |}.

(** A byte that stands for itself in a pattern: ASCII, and not one of the
    marks of the syntax of regular expressions. *)
Definition literalByte (c : ascii) : bool :=
  is_ascii_byte c && negb (Wildcard.metaByte c).

(** The number of breaches of one severity. *)
Definition countSeverity (severity : string) (breaches : list ThresholdBreach.t) : Z :=
  Z.of_nat (length (filter (λ b, ThresholdBreach.Severity b = severity) breaches)).

End ThresholdProps.

Module AggregateProps.
Import GoStrings Aggregator.

(** A value of the type [int64]. *)
Definition isInt64 (n : Z) : Prop := - 2 ^ 63 ≤ n < 2 ^ 63.

(** The counters of every check of the snapshots are [int64] values. *)
Definition int64Checks (metricsList : list Metrics) : Prop :=
  Forall (λ metrics,
            Forall (λ e, isInt64 (Passes e.2) ∧ isInt64 (Fails e.2))
              (RootGroup_Checks metrics))
    metricsList.

(** The checks named [name] in the snapshots, in the order of the visit. *)
Definition checkOccurrences (name : string) (metricsList : list Metrics) : list TestCheck :=
  snd <$> filter (λ e, e.1 = name) (concat (RootGroup_Checks <$> metricsList)).

Definition total (counter : TestCheck → Z) (checks : list TestCheck) : Z :=
  foldr Z.add 0 (counter <$> checks).

(** The names of the metrics of the snapshots. *)
Definition metricNames (metricsList : list Metrics) : gset string :=
  list_to_set (fst <$> concat (Metrics_ <$> metricsList)).

(** The names of the entries that are not global metrics. *)
Definition endpointNames (entries : list (string * Metric)) : gset string :=
  list_to_set (fst <$> filter (λ e, isGlobalMetric e.1 = false) entries).

(** The names of the entries that are global metrics. *)
Definition globalNames (entries : list (string * Metric)) : gset string :=
  list_to_set (fst <$> filter (λ e, isGlobalMetric e.1 = true) entries).

(** Every original name is recorded under itself. *)
Definition selfMapped (st : Loop) : Prop :=
  ∀ key original, endpointMap st !! key = Some original → original = key.

(** The counters of the checks of a snapshot are [int64] values. *)
Definition int64Snapshot (metrics : Metrics) : Prop :=
  Forall (λ e, isInt64 (Passes e.2) ∧ isInt64 (Fails e.2)) (RootGroup_Checks metrics).

Definition snapshot (start finish : Z) (checks : list (string * TestCheck))
    (metrics : list (string * Metric)) : Metrics :=
  {| RootGroup_Checks := checks; Metrics_ := metrics; StartTime := start; EndTime := finish |}.

(** Two files on the disk; every other name fails to open. *)
Definition two_files (file : string) : Metrics + string :=
  let login p f := {| Name := "login ok"; Path := "::login ok"; ID := "c1";
                      Passes := p; Fails := f |} in
  if String.eqb file "a.json" then inl (snapshot 10 20 [("login ok", login 8 2)] [])
  else if String.eqb file "b.json" then inl (snapshot 5 15 [("login ok", login 9 1)] [])
  else inr "no such file".

End AggregateProps.

(* ===================================================================== *)
(** ** The tables of the test suites, run on the model *)
(* ===================================================================== *)

Module Tests.
Import GoStrings.

(** RFC 1321, appendix A.5. *)
Lemma test_md5hex :
  MD5.md5hex "" = "d41d8cd98f00b204e9800998ecf8427e" ∧
  MD5.md5hex "a" = "0cc175b9c0f1b6a831c399e269772661" ∧
  MD5.md5hex "abc" = "900150983cd24fb0d6963f7d28e17f72" ∧
  MD5.md5hex "message digest" = "f96b697d7cb7938d525a2f31aaf161d0" ∧
  MD5.md5hex "abcdefghijklmnopqrstuvwxyz" = "c3fcd3d76192e4007dfb496cca67e13b" ∧
  MD5.md5hex "12345678901234567890123456789012345678901234567890123456789012345678901234567890"
    = "57edf4a22be3c955ac49da2e2107b67a".
Proof. repeat split; by vm_compute. Qed.

(** TestExtractSimpleEndpoint and TestExtractSimpleEndpointEdgeCases. *)
Lemma test_ExtractSimpleEndpoint :
  forallb (λ t, String.eqb (DPN.ExtractSimpleEndpoint None t.1) t.2)
    DPNProps.table_ExtractSimpleEndpoint = true.
Proof. by vm_compute. Qed.

(** Every template of the table is a stable key. *)
Lemma test_table_templates_stable :
  forallb (λ t, DPNProps.stableKey t.2) DPNProps.table_ExtractSimpleEndpoint = true.
Proof. by vm_compute. Qed.

(** TestExtractSimpleEndpointWithMethod and TestNormalizeEndpoint (a selection). *)
Lemma test_NormalizeEndpoint :
  (λ t, DPN.NormalizeEndpoint None t.1 t.2) <$>
    [ ("/", "GET"); ("/api/v1/users", "POST"); ("/users/123/profile", "PUT");
      ("/orders/456/items/789", "DELETE"); ("/users", "get"); ("/posts", "PoSt");
      ("/data", ""); ("/a/b/c/d/e", "");
      ("/policy/{{.setup.tenant_locator}}/holds", "patch");
      ("/api/graphql", "POST"); ("/gql", "GeT"); ("/graphql", "") ] =
    [ "GET_root"; "POST_users"; "PUT_users_123_profile"; "DELETE_orders_456_789";
      "GET_users"; "POST_posts"; "GET_data"; "GET_a_b_e"; "PATCH_policy_holds";
      "POST_graphql"; "GET_graphql"; "GET_graphql" ].
Proof. by vm_compute. Qed.

(** TestLooksLikeID (the rows that the keep-list does not pre-empt). *)
Lemma test_looksLikeID :
  DPN.looksLikeID <$> ["abc"; "abc123"; "user123abc"; "userabc"; "123456"; "a1b2c3"] =
    [false; true; false; false; true; true].
Proof. by vm_compute. Qed.

(** TestTrimExtIfAny. *)
Lemma test_trimExtIfAny :
  DPN.trimExtIfAny <$> ["filename"; "data.json"; "export.csv"; "report.pdf"; "config.xml";
                        "file.verylongext"; ".hidden"; "file.backup.json"; ""] =
    ["filename"; "data"; "export"; "report"; "config";
     "file.verylongext"; ".hidden"; "file.backup"; ""].
Proof. by vm_compute. Qed.

(** TestNormalizeTemplateVariable. *)
Lemma test_normalizeTemplateVariable :
  DPN.normalizeTemplateVariable <$>
    ["{{.tenant_locator}}"; "{{.setup.tenant_locator}}"; "regular_token"; "{{.}}";
     "{{.tenant_locator"; "{{.a.b.c.d}}"] =
    [""; ""; "regular_token"; ""; "{{.tenant_locator"; ""].
Proof. by vm_compute. Qed.

(** TestIsGlobalMetric. *)
Lemma test_isGlobalMetric :
  Aggregator.isGlobalMetric <$>
    ["checks"; "data_received"; "http_req_duration"; "http_req_failed"; "http_reqs";
     "iterations"; "vus"; "vus_max"; "http_req_status_200"; "status_200"; "delay_1";
     "users_profile"] =
    [true; true; true; true; true; true; true; true; false; false; false; false].
Proof. by vm_compute. Qed.

(** TestIsEndpointMetric. *)
Lemma test_isEndpointMetric :
  Reporting.isEndpointMetric <$>
    ["GET /users"; "POST /orders"; "http_req_duration"; "http_reqs"; "http_req_failed";
     "iterations"; "checks"; "data_sent"; "data_received"; "vus"; "vus_max"] =
    [true; true; false; false; false; false; false; false; false; false; false].
Proof. by vm_compute. Qed.

(** TestMatchesPattern. *)
Lemma test_matchesPattern :
  (λ t, Reporting.matchesPattern Wildcard.MatchString t.1 t.2) <$>
    [ ("auth/login", "auth/*"); ("auth/logout", "auth/*");
      ("catalog/products", "catalog/*"); ("GET /users/profile", "auth/*");
      ("GET /users", "GET /users"); ("POST /users", "GET /users") ] =
    [true; true; true; false; true; false].
Proof. by vm_compute. Qed.

(** TestMergeTrendMetric. *)
Lemma test_mergeTrendMetric :
  let target : Aggregator.Metric :=
    {| Aggregator.Type_ := "trend";
       Aggregator.Values :=
         {[ "count" := Dyn.VFloat64 2; "avg" := Dyn.VFloat64 100; "min" := Dyn.VFloat64 50;
            "max" := Dyn.VFloat64 150; "p(90)" := Dyn.VFloat64 140 ]} |} in
  let source : Aggregator.Metric :=
    {| Aggregator.Type_ := "trend";
       Aggregator.Values :=
         {[ "count" := Dyn.VFloat64 3; "avg" := Dyn.VFloat64 200; "min" := Dyn.VFloat64 100;
            "max" := Dyn.VFloat64 300; "p(90)" := Dyn.VFloat64 280 ]} |} in
  let merged := Aggregator.Values (Aggregator.mergeTrendMetric target source "weighted") in
  (λ key, Aggregator.getFloat64 merged key 0) <$> ["count"; "avg"; "min"; "max"; "p(90)"] =
    [5; 160; 50; 300; 224]%float.
Proof. by vm_compute. Qed.

(** TestMergeRateMetric. *)
Lemma test_mergeRateMetric :
  let target : Aggregator.Metric :=
    {| Aggregator.Type_ := "rate";
       Aggregator.Values :=
         {[ "passes" := Dyn.VFloat64 8; "fails" := Dyn.VFloat64 2;
            "value" := Dyn.VFloat64 0.8 ]} |} in
  let source : Aggregator.Metric :=
    {| Aggregator.Type_ := "rate";
       Aggregator.Values :=
         {[ "passes" := Dyn.VFloat64 9; "fails" := Dyn.VFloat64 1;
            "value" := Dyn.VFloat64 0.9 ]} |} in
  let merged := Aggregator.Values (Aggregator.mergeRateMetric target source) in
  (λ key, Aggregator.getFloat64 merged key 0) <$> ["passes"; "fails"; "value"] =
    [17; 3; 0.85]%float.
Proof. by vm_compute. Qed.

(** TestValidateThresholds. *)
Lemma test_ValidateThresholds :
  let users : Reporting.Metric :=
    {| Reporting.Type_ := "trend";
       Reporting.Values :=
         {[ "p(95)" := Dyn.VFloat64 400; "avg" := Dyn.VFloat64 120;
            "count" := Dyn.VInt64 150 ]} |} in
  let slow : Reporting.Metric :=
    {| Reporting.Type_ := "trend";
       Reporting.Values := {[ "p(95)" := Dyn.VFloat64 600; "count" := Dyn.VInt64 50 ]} |} in
  Reporting.ValidateThresholds Wildcard.MatchString Reporting.DefaultThresholdConfig
    (λ _, ReportingProps.defaultVisit) [("GET /users", users); ("GET /slow", slow)] =
    [ {| Reporting.ThresholdBreach.Endpoint := "GET /users";
         Reporting.ThresholdBreach.Metric := "p(95)";
         Reporting.ThresholdBreach.Value := 400;
         Reporting.ThresholdBreach.Threshold := 300;
         Reporting.ThresholdBreach.Unit := "ms";
         Reporting.ThresholdBreach.Severity := "error";
         Reporting.ThresholdBreach.SampleCount := 150 |} ].
Proof. by vm_compute. Qed.

End Tests.

(* ===================================================================== *)
(** ** Regular expressions: the matcher decides membership *)
(* ===================================================================== *)

Module RegexFacts.
Import Regex RegexProps.

Lemma app_empty_inv (s1 s2 : string) : s1 +:+ s2 = "" → s1 = "" ∧ s2 = "".
Proof. destruct s1; [done|]. by intros [=]. Qed.

Lemma nullable_matches r : nullable r = true ↔ matches r "".
Proof.
  split.
  - induction r as [| |p|r1 IH1 r2 IH2|r1 IH1 r2 IH2|r IH]; simpl; try done.
    + intros _. constructor.
    + intros [H1 H2]%andb_prop. apply (matches_seq r1 r2 "" ""); auto.
    + intros [H|H]%orb_prop; [apply matches_alt_l|apply matches_alt_r]; auto.
    + intros _. constructor.
  - remember "" as s eqn:Hs. induction 1 as [|p c Hc|r1 r2 s1 s2 _ IH1 _ IH2| | | |];
      simpl; try done.
    + apply app_empty_inv in Hs as [-> ->]. by rewrite IH1, IH2.
    + by rewrite (IHmatches Hs).
    + rewrite (IHmatches Hs). by rewrite orb_true_r.
Qed.

Lemma app_empty_r (t : string) : t +:+ "" = t.
Proof.
  induction t as [|a t IH]; [done|].
  change (String a (t +:+ "") = String a t). by rewrite IH.
Qed.

Lemma matches_Void s : ¬ matches Void s.
Proof. intros H. inversion H. Qed.

Lemma matches_Eps s : matches Eps s → s = "".
Proof. intros H. by inversion H. Qed.

Lemma matches_seq_eps_l r s : matches r s → matches (Seq Eps r) s.
Proof. intros H. apply (matches_seq Eps r "" s); [constructor|done]. Qed.

Lemma matches_seq_eps_r r s : matches r s → matches (Seq r Eps) s.
Proof.
  intros H. rewrite <- (app_empty_r s). apply matches_seq; [done|constructor].
Qed.

Lemma matches_seq' r1 r2 s : matches (seq r1 r2) s ↔ matches (Seq r1 r2) s.
Proof.
  split.
  - intros H.
    destruct r1, r2; cbn in H;
      try (by apply matches_Void in H);
      try done;
      try (by apply matches_seq_eps_l);
      try (by apply matches_seq_eps_r).
  - intros H. inversion H as [| |? ? s1 s2 H1 H2| | | |]; subst.
    destruct r1, r2; cbn;
      try (by apply matches_Void in H1);
      try (by apply matches_Void in H2);
      try (apply matches_Eps in H1 as ->; done);
      try (apply matches_Eps in H2 as ->; by rewrite app_empty_r);
      by constructor.
Qed.

Lemma matches_alt' r1 r2 s : matches (alt r1 r2) s ↔ matches (Alt r1 r2) s.
Proof.
  split.
  - intros H.
    destruct r1, r2; cbn in H;
      try (by apply matches_Void in H);
      try done;
      try (by apply matches_alt_l);
      try (by apply matches_alt_r).
  - intros H.
    inversion H as [| | |? ? ? H1|? ? ? H1| |]; subst;
      destruct r1, r2; cbn;
        try (by apply matches_Void in H1);
        try done;
        try (by apply matches_alt_l);
        try (by apply matches_alt_r).
Qed.

Lemma matches_star_cons_inv r c s :
  matches (Star r) (String c s) →
  ∃ s1 s2, s = s1 +:+ s2 ∧ matches r (String c s1) ∧ matches (Star r) s2.
Proof.
  remember (Star r) as r' eqn:Hr. remember (String c s) as t eqn:Ht.
  intros H. revert s Hr Ht.
  induction H as [| | | | | |r0 s1 s2 H1 _ H2 IH2]; intros s0 Hr Ht; try done.
  injection Hr as ->.
  destruct s1 as [|c1 s1].
  - change (s2 = String c s0) in Ht. by apply IH2.
  - change (String c1 (s1 +:+ s2) = String c s0) in Ht.
    injection Ht as -> <-. by exists s1, s2.
Qed.

Lemma deriv_matches c r : ∀ s, matches (deriv c r) s ↔ matches r (String c s).
Proof.
  induction r as [| |p|r1 IH1 r2 IH2|r1 IH1 r2 IH2|r IH]; intros s; simpl.
  - split; intros H; inversion H.
  - split; intros H; inversion H.
  - destruct (p c) eqn:Hp; split; intros H; inversion H; subst; try congruence;
      by constructor.
  - rewrite matches_alt'. split.
    + intros H. inversion H as [| | |? ? ? H1|? ? ? H1| |]; subst.
      * apply matches_seq' in H1. inversion H1; subst.
        apply (matches_seq r1 r2 (String c s1) s2); [by apply IH1|done].
      * destruct (nullable r1) eqn:Hn; [|by inversion H1].
        apply (matches_seq r1 r2 "" (String c s)); [by apply nullable_matches|by apply IH2].
    + intros H. inversion H as [| |? ? s1 s2 H1 H2| | | |]; subst.
      match goal with Heq' : _ +:+ _ = _ |- _ => rename Heq' into Heq end.
      destruct s1 as [|c1 s1].
      * change (s2 = String c s) in Heq. subst s2. apply matches_alt_r.
        apply nullable_matches in H1. rewrite H1. by apply IH2.
      * change (String c1 (s1 +:+ s2) = String c s) in Heq.
        injection Heq as -> <-. apply matches_alt_l, matches_seq'.
        apply matches_seq; [by apply IH1|done].
  - rewrite matches_alt'. split.
    + intros H. inversion H; subst; [apply matches_alt_l, IH1|apply matches_alt_r, IH2]; done.
    + intros H. inversion H; subst; [apply matches_alt_l, IH1|apply matches_alt_r, IH2]; done.
  - rewrite matches_seq'. split.
    + intros H. inversion H; subst.
      apply (matches_star_app r (String c s1) s2); [by apply IH|done].
    + intros (s1 & s2 & -> & H1 & H2)%matches_star_cons_inv.
      apply matches_seq; [by apply IH|done].
Qed.

(** The matcher decides membership. *)
Lemma MatchString_matches r s : MatchString r s = true ↔ matches r s.
Proof.
  revert r. induction s as [|c s IH]; intros r; simpl.
  - apply nullable_matches.
  - rewrite IH. apply deriv_matches.
Qed.

End RegexFacts.

(* ===================================================================== *)
(** ** executors/http: facts *)
(* ===================================================================== *)

Module DPNFacts.
Import GoStrings Regex DPN DPNProps.

Lemma all_bytes_impl (p q : ascii → bool) s :
  (∀ a, p a = true → q a = true) → all_bytes p s = true → all_bytes q s = true.
Proof.
  intros Hpq. induction s as [|a s IH]; [done|]. simpl.
  intros [Ha Hs]%andb_prop. by rewrite (Hpq _ Ha), IH.
Qed.

Lemma templateByte_cases a :
  templateByte a = true →
  is_upper a = false ∧
  Ascii.eqb a "/" = false ∧ Ascii.eqb a "?" = false ∧
  Ascii.eqb a "#" = false ∧ Ascii.eqb a ";" = false.
Proof. by destruct a as [[] [] [] [] [] [] [] []]. Qed.

Lemma edgeByte_cases a :
  edgeByte a = false → Ascii.eqb "_" a = false ∧ Ascii.is_space a = false.
Proof. by destruct a as [[] [] [] [] [] [] [] []]. Qed.

Lemma ToLower_id s : all_bytes (λ a, negb (is_upper a)) s = true → ToLower s = s.
Proof.
  induction s as [|a s IH]; [done|]. simpl. intros [Ha Hs]%andb_prop.
  unfold ToLower in *. simpl. rewrite IH by done. unfold lower_byte.
  by destruct (is_upper a).
Qed.

Lemma IndexByte_avoids s x : avoids x s = true → IndexByte s x = None.
Proof.
  induction s as [|a s IH]; [done|]. unfold avoids in *. simpl.
  intros [Ha Hs]%andb_prop. apply negb_true_iff in Ha. by rewrite Ha, IH.
Qed.

Lemma stripAt_avoids s x : avoids x s = true → stripAt s x = s.
Proof. intros H. unfold stripAt. by rewrite IndexByte_avoids. Qed.

Lemma TrimSuffixByte_avoids s x : avoids x s = true → TrimSuffixByte s x = s.
Proof.
  induction s as [|a s IH]; [done|]. unfold avoids in *. simpl.
  intros [Ha Hs]%andb_prop. apply negb_true_iff in Ha. rewrite Ha, IH by done.
  by destruct s.
Qed.

Lemma SplitByte_avoids s x : avoids x s = true → SplitByte s x = [s].
Proof.
  induction s as [|a s IH]; [done|]. unfold avoids in *. simpl.
  intros [Ha Hs]%andb_prop. apply negb_true_iff in Ha. by rewrite Ha, IH.
Qed.

Lemma ReplaceAllByte_avoids s x new : avoids x s = true → ReplaceAllByte s x new = s.
Proof.
  induction s as [|a s IH]; [done|]. unfold avoids in *. simpl.
  intros [Ha Hs]%andb_prop. apply negb_true_iff in Ha. by rewrite Ha, IH.
Qed.

Lemma TrimLeftFunc_id p s :
  (∀ a, firstByte s = Some a → p a = false) → TrimLeftFunc p s = s.
Proof. destruct s as [|a s]; [done|]. simpl. intros H. by rewrite H. Qed.

Lemma TrimRightFunc_id p s :
  (∀ a, lastByte s = Some a → p a = false) → TrimRightFunc p s = s.
Proof.
  induction s as [|a s IH]; [done|]. intros H. simpl.
  destruct s as [|b s].
  - simpl. by rewrite H.
  - rewrite IH by (intros c Hc; by apply H). done.
Qed.

Lemma TrimFunc_id p s :
  (∀ a, firstByte s = Some a → p a = false) →
  (∀ a, lastByte s = Some a → p a = false) → TrimFunc p s = s.
Proof. intros Hf Hl. unfold TrimFunc. by rewrite TrimLeftFunc_id, TrimRightFunc_id. Qed.

Lemma collapseUnderscores_id s : doubled "_" s = false → collapseUnderscores s = s.
Proof.
  induction s as [|a s IH]; [done|]. simpl.
  destruct s as [|b s].
  - intros _. by destruct (Ascii.eqb a "_").
  - intros [Hab Hd]%orb_false_elim. rewrite IH by done.
    destruct (Ascii.eqb a "_"); [|done]. simpl in Hab. by rewrite Hab.
Qed.

Lemma trimExtIfAny_id s : untrimmable s = true → trimExtIfAny s = s.
Proof.
  unfold untrimmable, trimExtIfAny. destruct (LastIndexByte s "."); [|done].
  intros H%negb_true_iff. by rewrite H.
Qed.

(** *** The classifier keeps a token as it is, or drops it *)

Lemma classify_Some i token kept : classify i token = Some kept → kept = token.
Proof.
  unfold classify, normalizeTemplateVariable.
  destruct (MatchString reTemplateVar token); [done|].
  repeat (match goal with |- context [if ?b then _ else _] => destruct b end;
          try done; try by intros [= <-]).
Qed.

Lemma pruneTokens_single token :
  pruneTokens 0 [token] = [token] ∨ pruneTokens 0 [token] = [].
Proof.
  simpl. destruct (classify 0 token) eqn:H; [|by right].
  apply classify_Some in H as ->. by left.
Qed.

(** *** A fresh state admits the first template *)

Lemma getMaxEndpoints_pos env : 0 < getMaxEndpoints env.
Proof.
  unfold getMaxEndpoints. destruct env as [val|]; [|lia].
  destruct (0 <? val) eqn:H; lia.
Qed.

Lemma handleCollisions_fresh env normalized original :
  (handleCollisionsAndCardinalityWithState normalized original
     (NewDPNState (DefaultDPNConfig env))).1 = normalized.
Proof.
  unfold handleCollisionsAndCardinalityWithState. cbn.
  pose proof (getMaxEndpoints_pos env).
  destruct (getMaxEndpoints env <=? 0) eqn:Hle; [lia|done].
Qed.

(** [ExtractSimpleEndpoint] in terms of the stages of the pipeline. *)
Lemma ExtractSimpleEndpoint_unfold env path :
  ExtractSimpleEndpoint env path =
    let cleaned := cleanPath path in
    if String.eqb cleaned "" || String.eqb cleaned "/" then "root"
    else if (length (tokenize cleaned) =? 0)%nat then "root"
    else template cleaned (pruneTokens 0 (tokenize cleaned)).
Proof.
  unfold ExtractSimpleEndpoint, ExtractSimpleEndpointWithState.
  cbn [cache NewDPNState]. rewrite lookup_empty. cbv zeta.
  destruct (String.eqb (cleanPath path) "" || String.eqb (cleanPath path) "/"); [done|].
  destruct (length (tokenize (cleanPath path)) =? 0)%nat; [done|].
  pose proof (handleCollisions_fresh env
    (template (cleanPath path) (pruneTokens 0 (tokenize (cleanPath path)))) (cleanPath path)) as H.
  destruct (handleCollisionsAndCardinalityWithState _ _ _) as [r st']. by simpl in *.
Qed.

Lemma templateByte_avoids r x :
  (∀ a, templateByte a = true → Ascii.eqb a x = false) →
  all_bytes templateByte r = true → avoids x r = true.
Proof.
  intros Hx Hk. eapply all_bytes_impl; [|exact Hk]. intros a Ha. by rewrite Hx.
Qed.

(** A template byte is none of the bytes that the pipeline removes. *)
Ltac avoids_byte :=
  apply templateByte_avoids; [|done];
  let a := fresh "a" in let Ha := fresh "Ha" in
  intros a Ha; apply templateByte_cases in Ha; tauto.

Lemma cleanPath_stable r : all_bytes templateByte r = true → cleanPath r = r.
Proof.
  intros Hk. unfold cleanPath.
  rewrite ToLower_id by (eapply all_bytes_impl; [|exact Hk];
                         intros a Ha; apply templateByte_cases in Ha as (-> & _); done).
  rewrite (stripAt_avoids r "?")
    by avoids_byte.
  rewrite (stripAt_avoids r "#")
    by avoids_byte.
  rewrite (stripAt_avoids r ";")
    by avoids_byte.
  apply TrimSuffixByte_avoids. avoids_byte.
Qed.

Lemma tokenize_stable r :
  all_bytes templateByte r = true → r ≠ "" →
  from_option edgeByte false (firstByte r) = false →
  from_option edgeByte false (lastByte r) = false →
  tokenize r = [r].
Proof.
  intros Hk Hne Hf Hl. unfold tokenize.
  rewrite SplitByte_avoids
    by avoids_byte.
  simpl. unfold TrimSpace. rewrite TrimFunc_id.
  - destruct (String.eqb r "") eqn:He; [|done]. by apply String.eqb_eq in He.
  - intros a Ha. rewrite Ha in Hf. by apply edgeByte_cases in Hf as [_ ->].
  - intros a Ha. rewrite Ha in Hl. by apply edgeByte_cases in Hl as [_ ->].
Qed.

Lemma TrimByte_stable r :
  from_option edgeByte false (firstByte r) = false →
  from_option edgeByte false (lastByte r) = false →
  TrimByte r "_" = r.
Proof.
  intros Hf Hl. unfold TrimByte. apply TrimFunc_id; intros a Ha.
  - rewrite Ha in Hf. by apply edgeByte_cases in Hf as [-> _].
  - rewrite Ha in Hl. by apply edgeByte_cases in Hl as [-> _].
Qed.

(** *** The bytes of a template *)

Section AllBytes.
Variable p : ascii → bool.

Lemma all_bytes_app s t : all_bytes p (s +:+ t) = all_bytes p s && all_bytes p t.
Proof.
  induction s as [|a s IH]; [done|].
  change (all_bytes p (String a (s +:+ t)) = all_bytes p (String a s) && all_bytes p t).
  simpl. by rewrite IH, andb_assoc.
Qed.

Lemma all_bytes_slice_to s : ∀ n, all_bytes p s = true → all_bytes p (slice_to s n) = true.
Proof.
  induction s as [|a s IH]; intros [|n]; try done. simpl.
  intros [Ha Hs]%andb_prop. by rewrite Ha, IH.
Qed.

Lemma all_bytes_TrimSuffixByte s c :
  all_bytes p s = true → all_bytes p (TrimSuffixByte s c) = true.
Proof.
  induction s as [|a s IH]; [done|]. intros H.
  pose proof H as [Ha Hs]%andb_prop. destruct s as [|b s].
  - simpl. destruct (Ascii.eqb a c); [done|]. simpl. by rewrite Ha.
  - change (TrimSuffixByte (String a (String b s)) c)
      with (String a (TrimSuffixByte (String b s) c)).
    change (p a && all_bytes p (TrimSuffixByte (String b s) c) = true).
    by rewrite Ha, IH.
Qed.

Lemma all_bytes_TrimLeftFunc q s :
  all_bytes p s = true → all_bytes p (TrimLeftFunc q s) = true.
Proof.
  induction s as [|a s IH]; [done|]. simpl. intros [Ha Hs]%andb_prop.
  destruct (q a); [by apply IH|]. simpl. by rewrite Ha, Hs.
Qed.

Lemma all_bytes_TrimRightFunc q s :
  all_bytes p s = true → all_bytes p (TrimRightFunc q s) = true.
Proof.
  induction s as [|a s IH]; [done|]. simpl. intros [Ha Hs]%andb_prop.
  specialize (IH Hs). destruct (TrimRightFunc q s) as [|b t].
  - destruct (q a); simpl; by rewrite ?Ha.
  - simpl in *. by rewrite Ha, IH.
Qed.

Lemma all_bytes_TrimFunc q s :
  all_bytes p s = true → all_bytes p (TrimFunc q s) = true.
Proof. intros H. by apply all_bytes_TrimRightFunc, all_bytes_TrimLeftFunc. Qed.

Lemma all_bytes_collapseUnderscores s :
  all_bytes p s = true → all_bytes p (collapseUnderscores s) = true.
Proof.
  induction s as [|a s IH]; [done|]. intros H.
  pose proof H as [Ha Hs]%andb_prop. specialize (IH Hs).
  simpl. destruct (Ascii.eqb a "_").
  - destruct s as [|b s]; [by simpl; rewrite Ha|].
    destruct (Ascii.eqb b "_"); [done|]. simpl in *. by rewrite Ha, IH.
  - simpl. by rewrite Ha, IH.
Qed.

Lemma all_bytes_Join elems sep :
  Forall (λ e, all_bytes p e = true) elems → all_bytes p sep = true →
  all_bytes p (Join elems sep) = true.
Proof.
  intros Hel Hsep. induction Hel as [|e elems He Hel IH]; [done|].
  simpl. destruct elems as [|e' elems]; [done|].
  rewrite !all_bytes_app, He, Hsep. by rewrite IH.
Qed.

Lemma all_bytes_SplitByte s sep :
  all_bytes p s = true → Forall (λ e, all_bytes p e = true) (SplitByte s sep).
Proof.
  induction s as [|a s IH]; [by repeat constructor|]. simpl.
  intros [Ha Hs]%andb_prop. specialize (IH Hs).
  destruct (Ascii.eqb a sep); [by constructor|].
  destruct (SplitByte s sep) as [|w ws]; [by repeat constructor; simpl; rewrite Ha|].
  apply Forall_cons in IH as [Hw Hws]. constructor; [|done]. simpl. by rewrite Ha, Hw.
Qed.
End AllBytes.

Lemma SplitByte_avoids_sep s sep : Forall (λ e, avoids sep e = true) (SplitByte s sep).
Proof.
  induction s as [|a s IH]; [by repeat constructor|]. simpl.
  destruct (Ascii.eqb a sep) eqn:Ha; [by constructor|].
  destruct (SplitByte s sep) as [|w ws]; [by repeat constructor; unfold avoids; simpl; rewrite Ha|].
  apply Forall_cons in IH as [Hw Hws]. constructor; [|done].
  unfold avoids in *. simpl. by rewrite Ha, Hw.
Qed.

Lemma stripAt_avoids_self s c : avoids c (stripAt s c) = true.
Proof.
  unfold stripAt. induction s as [|a s IH]; [done|]. simpl.
  destruct (Ascii.eqb a c) eqn:Ha; [done|].
  destruct (IndexByte s c) as [i|] eqn:Hi; simpl in *.
  - unfold avoids in *. simpl. by rewrite Ha, IH.
  - unfold avoids in *. simpl. by rewrite Ha, IH.
Qed.

Lemma all_bytes_stripAt p s c : all_bytes p s = true → all_bytes p (stripAt s c) = true.
Proof.
  intros H. unfold stripAt. destruct (IndexByte s c); [|done].
  by apply all_bytes_slice_to.
Qed.

Lemma all_bytes_ToLower s : all_bytes (λ a, negb (is_upper a)) (ToLower s) = true.
Proof.
  induction s as [|a s IH]; [done|]. unfold ToLower in *. simpl. rewrite IH, andb_true_r.
  unfold lower_byte. destruct (is_upper a) eqn:Hu; [|by rewrite Hu].
  revert Hu. by destruct a as [[] [] [] [] [] [] [] []].
Qed.

Lemma all_bytes_and p q s :
  all_bytes (λ a, p a && q a) s = all_bytes p s && all_bytes q s.
Proof.
  induction s as [|a s IH]; [done|]. simpl. rewrite IH.
  destruct (p a), (q a), (all_bytes p s), (all_bytes q s); done.
Qed.

Lemma cleanPath_bytes path : all_bytes cleanByte (cleanPath path) = true.
Proof.
  unfold cleanPath. apply all_bytes_TrimSuffixByte.
  unfold cleanByte. rewrite !all_bytes_and.
  repeat (apply andb_true_intro; split).
  - do 3 apply all_bytes_stripAt. apply all_bytes_ToLower.
  - do 2 apply all_bytes_stripAt. apply stripAt_avoids_self.
  - apply all_bytes_stripAt. apply stripAt_avoids_self.
  - apply stripAt_avoids_self.
Qed.

Lemma templateByte_split c :
  templateByte c = cleanByte c && negb (Ascii.eqb c "/").
Proof. unfold templateByte, cleanByte. by destruct c as [[] [] [] [] [] [] [] []]. Qed.

Lemma nonEmptyParts_bytes p parts :
  Forall (λ e, all_bytes p e = true) parts →
  Forall (λ e, all_bytes p e = true) (nonEmptyParts parts).
Proof.
  induction 1 as [|e parts He Hel IH]; [done|]. simpl.
  destruct (String.eqb _ _); [done|]. constructor; [|done].
  by apply all_bytes_TrimFunc.
Qed.

Lemma tokenize_bytes cleaned :
  all_bytes cleanByte cleaned = true →
  Forall (λ e, all_bytes templateByte e = true) (tokenize cleaned).
Proof.
  intros Hc. unfold tokenize.
  assert (Forall (λ e, all_bytes templateByte e = true) (SplitByte cleaned "/")) as H.
  { pose proof (all_bytes_SplitByte cleanByte cleaned "/" Hc) as H1.
    pose proof (SplitByte_avoids_sep cleaned "/") as H2.
    rewrite Forall_forall in H1, H2. apply Forall_forall. intros e He.
    apply (all_bytes_impl (λ a, cleanByte a && negb (Ascii.eqb a "/"))).
    - intros a. by rewrite templateByte_split.
    - rewrite all_bytes_and, (H1 e He). apply (H2 e He). }
  by apply nonEmptyParts_bytes.
Qed.

Lemma pruneTokens_bytes p tokens : ∀ i,
  Forall (λ e, all_bytes p e = true) tokens →
  Forall (λ e, all_bytes p e = true) (pruneTokens i tokens).
Proof.
  induction tokens as [|t tokens IH]; intros i Hf; [done|].
  apply Forall_cons in Hf as [Ht Hf]. simpl.
  destruct (classify i t) as [kept|] eqn:Hc; [|by apply IH].
  apply classify_Some in Hc as ->. constructor; [done|by apply IH].
Qed.

Lemma nth_bytes p (l : list string) n :
  Forall (λ e, all_bytes p e = true) l → all_bytes p (nth n l "") = true.
Proof.
  intros Hf. revert n. induction Hf as [|e l He Hl IH]; intros [|n]; simpl; auto.
Qed.

Lemma shape_bytes keptTokens :
  Forall (λ e, all_bytes templateByte e = true) keptTokens →
  all_bytes templateByte (shape keptTokens) = true.
Proof.
  intros Hf. unfold shape.
  destruct (length keptTokens <=? 3)%nat; [by apply all_bytes_Join|].
  destruct (3 <=? length keptTokens)%nat; [|by apply all_bytes_Join].
  rewrite !all_bytes_app, !nth_bytes by done. done.
Qed.

Lemma ReplaceAllByte_bytes cleaned :
  all_bytes cleanByte cleaned = true →
  all_bytes templateByte (ReplaceAllByte cleaned "/" "_") = true.
Proof.
  induction cleaned as [|a s IH]; [done|]. simpl. intros [Ha Hs]%andb_prop.
  destruct (Ascii.eqb a "/") eqn:Hslash.
  - change (all_bytes templateByte (String "_" (ReplaceAllByte s "/" "_")) = true).
    simpl. by rewrite IH.
  - simpl. by rewrite templateByte_split, Ha, Hslash, IH.
Qed.

Lemma template_bytes cleaned keptTokens :
  all_bytes cleanByte cleaned = true →
  Forall (λ e, all_bytes templateByte e = true) keptTokens →
  all_bytes templateByte (template cleaned keptTokens) = true.
Proof.
  intros Hc Hk. unfold template.
  match goal with |- context [if String.eqb ?r "" then _ else _] =>
    assert (all_bytes templateByte r = true) as Hr end.
  { match goal with |- context [if ?b then slice_to ?r 80 else _] =>
      assert (all_bytes templateByte r = true) as Hr end.
    { apply all_bytes_TrimFunc, all_bytes_collapseUnderscores.
      destruct (0 <? length keptTokens)%nat; [|by apply shape_bytes].
      unfold trimExtIfAny. destruct (LastIndexByte _ _); [|by apply shape_bytes].
      destruct (_ && _); [|by apply shape_bytes].
      by apply all_bytes_slice_to, shape_bytes. }
    destruct (80 <? _); [by apply all_bytes_slice_to|done]. }
  destruct (String.eqb _ ""); [|done].
  by apply all_bytes_TrimFunc, ReplaceAllByte_bytes.
Qed.

(** Every template is made of template bytes. *)
Lemma ExtractSimpleEndpoint_bytes env path :
  all_bytes templateByte (ExtractSimpleEndpoint env path) = true.
Proof.
  rewrite ExtractSimpleEndpoint_unfold. cbv zeta.
  destruct (_ || _); [done|]. destruct (_ =? _)%nat; [done|].
  apply template_bytes; [apply cleanPath_bytes|].
  apply pruneTokens_bytes, tokenize_bytes, cleanPath_bytes.
Qed.

(** *** Idempotence *)

(** C2, as stated, fails: one extension is trimmed per call, so the template
    of "/data.tar.gz" is "data.tar", whose template is "data". *)
Lemma ExtractSimpleEndpoint_not_idempotent :
  ExtractSimpleEndpoint None "/data.tar.gz" = "data.tar" ∧
  ExtractSimpleEndpoint None "data.tar" = "data" ∧
  ExtractSimpleEndpoint None (ExtractSimpleEndpoint None "/data.tar.gz")
    ≠ ExtractSimpleEndpoint None "/data.tar.gz".
Proof. split; [by vm_compute|]. split; by vm_compute. Qed.

(** A stable key made of template bytes is its own template. *)
Lemma ExtractSimpleEndpoint_stableKey (env : option Z) (r : string) :
  all_bytes templateByte r = true → stableKey r = true →
  ExtractSimpleEndpoint env r = r.
Proof.
  unfold stableKey.
  intros Hk H. repeat (apply andb_prop in H as [H ?]).
  rename H into Hne, H4 into Hlen, H3 into Hf, H2 into Hl, H1 into Hd, H0 into Hext.
  apply negb_true_iff in Hne, Hf, Hl, Hd.
  assert (r ≠ "") as Hr by (intros ->; done).
  assert (avoids "/" r = true) as Hslash
    by avoids_byte.
  assert (TrimByte r "_" = r) as Htrim by (by apply TrimByte_stable).
  rewrite ExtractSimpleEndpoint_unfold, cleanPath_stable by done. cbv zeta.
  rewrite Hne, tokenize_stable by done.
  replace (String.eqb r "/") with false.
  2:{ symmetry. apply String.eqb_neq. intros ->. done. }
  cbn [orb length Nat.eqb].
  unfold template.
  destruct (pruneTokens_single r) as [-> | ->]; cbn [shape length Nat.leb Nat.ltb Join].
  - rewrite trimExtIfAny_id, collapseUnderscores_id, Htrim by done.
    replace (80 <? len r) with false by lia. by rewrite Hne.
  - cbn. by rewrite ReplaceAllByte_avoids.
Qed.

(** C2, amended.  Normalization is idempotent at every (ASCII) path whose
    template is a stable key: not empty, at most 80 bytes, neither beginning
    nor ending with an underscore or a blank, without doubled underscore and
    without an extension that [trimExtIfAny] would still cut.  Each call
    runs on a fresh state. *)
Theorem ExtractSimpleEndpoint_idempotent_on_stable (env : option Z) (p : string) :
  all_bytes is_ascii_byte p = true →
  stableKey (ExtractSimpleEndpoint env p) = true →
  ExtractSimpleEndpoint env (ExtractSimpleEndpoint env p) = ExtractSimpleEndpoint env p.
Proof.
  intros _. apply ExtractSimpleEndpoint_stableKey, ExtractSimpleEndpoint_bytes.
Qed.

Lemma idempotent_on_users_profile :
  all_bytes is_ascii_byte uuid_path = true ∧
  stableKey (ExtractSimpleEndpoint None uuid_path) = true ∧
  ExtractSimpleEndpoint None uuid_path = "users_profile" ∧
  ExtractSimpleEndpoint None (ExtractSimpleEndpoint None uuid_path) =
    ExtractSimpleEndpoint None uuid_path.
Proof.
  split; [by vm_compute|]. split; [by vm_compute|]. split; [by vm_compute|].
  apply (ExtractSimpleEndpoint_idempotent_on_stable None uuid_path); by vm_compute.
Defined.

(** *** Degenerate paths *)

Lemma tokenize_nil_of_trivial cleaned :
  cleaned = "" ∨ cleaned = "/" → tokenize cleaned = [].
Proof. by intros [-> | ->]. Qed.

(** C6, as stated, fails: both tokens of "/api/v1" are dropped (an API
    prefix and a version), and its template is "api_v1", not "root". *)
Lemma drop_only_path_is_not_root :
  tokenize (cleanPath "/api/v1") = ["api"; "v1"] ∧
  pruneTokens 0 (tokenize (cleanPath "/api/v1")) = [] ∧
  ExtractSimpleEndpoint None "/api/v1" = "api_v1" ∧
  ExtractSimpleEndpoint None "/api/v1" ≠ "root".
Proof. repeat split; by vm_compute. Qed.

(** C6, amended.  "root" is the template of the paths without tokens, among
    them the empty path, "/" and "///".  A path that has tokens, all of them
    dropped or rewritten empty by the classifier, falls back to its cleaned
    text with every slash replaced by an underscore and the outer underscores
    trimmed. *)
Theorem ExtractSimpleEndpoint_degenerate (env : option Z) (path : string) :
  all_bytes is_ascii_byte path = true →
  let cleaned := cleanPath path in
  (tokenize cleaned = [] → ExtractSimpleEndpoint env path = "root") ∧
  (tokenize cleaned ≠ [] → pruneTokens 0 (tokenize cleaned) = [] →
   ExtractSimpleEndpoint env path = TrimByte (ReplaceAllByte cleaned "/" "_") "_") ∧
  ExtractSimpleEndpoint env "" = "root" ∧
  ExtractSimpleEndpoint env "/" = "root" ∧
  ExtractSimpleEndpoint env "///" = "root".
Proof.
  intros _ cleaned. split; [|split; [|by rewrite !ExtractSimpleEndpoint_unfold]].
  - intros Hnil. rewrite ExtractSimpleEndpoint_unfold. cbv zeta. fold cleaned.
    rewrite Hnil. by destruct (_ || _).
  - intros Htok Hkept. rewrite ExtractSimpleEndpoint_unfold. cbv zeta. fold cleaned.
    destruct (String.eqb cleaned "" || String.eqb cleaned "/") eqn:Htriv.
    { exfalso. apply Htok, tokenize_nil_of_trivial.
      apply orb_prop in Htriv as [H%String.eqb_eq | H%String.eqb_eq]; auto. }
    destruct (tokenize cleaned) as [|t ts] eqn:Ht; [done|].
    rewrite Hkept. done.
Qed.

Lemma degenerate_api_v1 :
  all_bytes is_ascii_byte "/api/v1" = true ∧
  ExtractSimpleEndpoint None "/api/v1" = "api_v1" ∧
  ExtractSimpleEndpoint None "///" = "root".
Proof.
  split; [reflexivity|].
  destruct (ExtractSimpleEndpoint_degenerate None "/api/v1" eq_refl) as (_ & H & _ & _ & H3).
  split; [|exact H3]. rewrite H; by vm_compute.
Defined.

(** *** The cardinality controller *)

Lemma size_dom_insert (m : gmap string string) k v :
  (size (dom (<[k := v]> m)) ≤ S (size (dom m)))%nat.
Proof.
  rewrite dom_insert_L, size_union_alt, size_singleton.
  assert (size (dom m ∖ {[k]}) ≤ size (dom m))%nat
    by (apply subseteq_size, subseteq_difference_l; done).
  lia.
Qed.

Lemma within_handle cfg normalized original state :
  within cfg state →
  within cfg (handleCollisionsAndCardinalityWithState normalized original state).2.
Proof.
  intros (Hcfg & Hsize & Hmax). unfold handleCollisionsAndCardinalityWithState.
  rewrite Hcfg.
  destruct (MaxEndpoints cfg <=? endpointCount state) eqn:Hle; [done|].
  match goal with |- context [if ?b then _ else _] => destruct b end;
    (split; [done|]); cbn [snd endpointCollisions endpointCount];
    match goal with |- context [<[?k := ?v]> ?m] => pose proof (size_dom_insert m k v) end;
    lia.
Qed.

Lemma within_extract cfg path state :
  within cfg state → within cfg (ExtractSimpleEndpointWithState path state).2.
Proof.
  intros Hin. unfold ExtractSimpleEndpointWithState.
  destruct (cache state !! path); [done|]. cbv zeta.
  destruct (_ || _); [done|]. destruct (_ =? _)%nat; [done|].
  match goal with
  | |- context [handleCollisionsAndCardinalityWithState ?n ?o state] =>
      pose proof (within_handle cfg n o state Hin) as H;
      destruct (handleCollisionsAndCardinalityWithState n o state) as [r st']
  end.
  done.
Qed.

Lemma within_runCalls cfg calls : ∀ state,
  within cfg state → within cfg (runCalls calls state).
Proof.
  induction calls as [|c calls IH]; intros state Hin; [done|].
  simpl. apply IH. destruct c; [by apply within_extract | by apply within_handle].
Qed.

Lemma within_recordedKeys cfg state :
  0 ≤ MaxEndpoints cfg → within cfg state →
  Z.of_nat (size (recordedKeys state)) ≤ MaxEndpoints cfg.
Proof.
  intros Hpos (_ & Hsize & Hmax). unfold recordedKeys.
  assert (size (dom (endpointCollisions state) ∖ {["other"]})
          ≤ size (dom (endpointCollisions state)))%nat
    by (apply subseteq_size, subseteq_difference_l; done).
  lia.
Qed.

(** Every key the controller hands out is the bucket or a recorded key. *)
Lemma handle_result_recorded normalized original state :
  let '(key, state') := handleCollisionsAndCardinalityWithState normalized original state in
  key = "other" ∨ key ∈ dom (endpointCollisions state').
Proof.
  unfold handleCollisionsAndCardinalityWithState.
  destruct (_ <=? _); [by left|].
  match goal with |- context [if ?b then _ else _] => destruct b end;
    right; cbn [endpointCollisions]; rewrite dom_insert_L; set_solver.
Qed.

End DPNFacts.

(* ===================================================================== *)
(** ** reporting/aggregator: facts *)
(* ===================================================================== *)

Module AggregatorFacts.
Import GoStrings Aggregator AggregatorProps.

Lemma getFloat64_insert_ne values k k' v d :
  k ≠ k' → getFloat64 (<[k := v]> values) k' d = getFloat64 values k' d.
Proof. intros Hne. unfold getFloat64. by rewrite lookup_insert_ne. Qed.

Section Percentiles.
Variables (sourceValues : gmap string value) (targetCount sourceCount totalCount : float).

#[local] Abbreviation step := (mergePercentile sourceValues targetCount sourceCount totalCount).

Lemma mergePercentile_other targetValues p k :
  k ≠ p → step targetValues p !! k = targetValues !! k.
Proof.
  intros Hne. unfold mergePercentile.
  destruct (targetValues !! p), (sourceValues !! p); try done.
  by rewrite lookup_insert_ne.
Qed.

Lemma mergePercentile_both targetValues p :
  is_Some (targetValues !! p) → is_Some (sourceValues !! p) →
  step targetValues p !! p =
    Some (VFloat64 ((getFloat64 targetValues p 0 * targetCount +
                     getFloat64 sourceValues p 0 * sourceCount) / totalCount)%float).
Proof.
  intros [x Hx] [y Hy]. unfold mergePercentile. rewrite Hx, Hy.
  by rewrite lookup_insert_eq.
Qed.

Lemma mergePercentile_one_side targetValues p :
  targetValues !! p = None ∨ sourceValues !! p = None →
  step targetValues p = targetValues.
Proof.
  unfold mergePercentile. intros [-> | ->]; [done|].
  by destruct (targetValues !! p).
Qed.

Lemma fold_percentiles_other ps : ∀ targetValues k,
  k ∉ ps → fold_left step ps targetValues !! k = targetValues !! k.
Proof.
  induction ps as [|p ps IH]; intros tv k Hk; [done|].
  apply not_elem_of_cons in Hk as [Hne Hk]. simpl.
  rewrite IH by done. by apply mergePercentile_other.
Qed.

Lemma fold_percentiles_at ps : ∀ targetValues p,
  NoDup ps → p ∈ ps →
  fold_left step ps targetValues !! p = step targetValues p !! p.
Proof.
  induction ps as [|q ps IH]; intros tv p Hnd Hin; [by apply elem_of_nil in Hin|].
  apply NoDup_cons in Hnd as [Hq Hnd]. simpl.
  apply elem_of_cons in Hin as [-> | Hin].
  - by rewrite fold_percentiles_other.
  - assert (p ≠ q) as Hne by (intros ->; done).
    rewrite IH by done.
    unfold mergePercentile at 1 3.
    rewrite mergePercentile_other by done.
    destruct (tv !! p) eqn:Hp, (sourceValues !! p) eqn:Hs; rewrite ?mergePercentile_other by done; try done.
    rewrite !lookup_insert_eq. unfold getFloat64.
    by rewrite mergePercentile_other, Hp by done.
Qed.
End Percentiles.

Lemma percentiles_NoDup : NoDup percentiles.
Proof. by apply (bool_decide_unpack _). Qed.

Lemma trendKeys_not_percentiles k : k ∈ trendKeys → k ∉ percentiles.
Proof.
  revert k. apply Forall_forall. by apply (bool_decide_unpack _).
Qed.

Lemma percentiles_not_trendKeys p k : p ∈ percentiles → k ∈ trendKeys → k ≠ p.
Proof. intros Hp Hk ->. by apply trendKeys_not_percentiles in Hk. Qed.

(** C1.  Weighted trend merge.  With [n_t] and [n_s] the sample counts of
    target and source and [n = n_t + n_s]: when [n = 0] the merge returns the
    target unchanged; otherwise the merged target has [count = n],
    [min = Min min_t min_s], [max = Max max_t max_s],
    [avg = (avg_t * n_t + avg_s * n_s) / n]; each of p(50), p(90), p(95),
    p(99) present on both sides is [(p_t * n_t + p_s * n_s) / n], and one
    missing on either side stays on the target as it was (absent when the
    target lacks it: nothing is imported).  Every field is read by
    [getFloat64] with the default of the source, and every formula is the
    binary64 expression of the source.  Merging [{count 2, avg 100, p(95) 140}]
    with [{count 3, avg 200, p(95) 280}] gives [count 5], [avg 160],
    [p(95) 224]. *)
Theorem mergeTrendMetric_weighted (target source : Metric) (mergeStrategy : string) :
  let tv := Values target in
  let sv := Values source in
  let n_t := getFloat64 tv "count" 0 in
  let n_s := getFloat64 sv "count" 0 in
  let n := (n_t + n_s)%float in
  let merged := Values (mergeTrendMetric target source mergeStrategy) in
  (PrimFloat.eqb n 0 = true → mergeTrendMetric target source mergeStrategy = target) ∧
  (PrimFloat.eqb n 0 = false →
     merged !! "count" = Some (VFloat64 n) ∧
     merged !! "min" =
       Some (VFloat64 (Float64.Min (getFloat64 tv "min" Float64.MaxFloat64)
                                   (getFloat64 sv "min" Float64.MaxFloat64))) ∧
     merged !! "max" =
       Some (VFloat64 (Float64.Max (getFloat64 tv "max" 0) (getFloat64 sv "max" 0))) ∧
     merged !! "avg" =
       Some (VFloat64 ((getFloat64 tv "avg" 0 * n_t + getFloat64 sv "avg" 0 * n_s) / n)%float) ∧
     ∀ p, p ∈ percentiles →
       (is_Some (tv !! p) → is_Some (sv !! p) →
        merged !! p =
          Some (VFloat64 ((getFloat64 tv p 0 * n_t + getFloat64 sv p 0 * n_s) / n)%float)) ∧
       (tv !! p = None ∨ sv !! p = None → merged !! p = tv !! p)) ∧
  (let m := Values (mergeTrendMetric spec_target spec_source mergeStrategy) in
   m !! "count" = Some (VFloat64 5) ∧ m !! "avg" = Some (VFloat64 160) ∧
   m !! "p(95)" = Some (VFloat64 224)).
Proof.
  intros tv sv n_t n_s n merged. split; [|split].
  - intros Hn. unfold mergeTrendMetric. fold tv sv n_t n_s n. by rewrite Hn.
  - intros Hn. subst merged. unfold mergeTrendMetric. fold tv sv n_t n_s n. rewrite Hn.
    cbn [Values].
    set (tv1 := <["count" := _]> tv).
    set (tv2 := <["min" := _]> tv1).
    set (tv3 := <["max" := _]> tv2).
    set (tv4 := <["avg" := _]> tv3).
    set (tv5 := fold_left _ percentiles tv4).
    assert (∀ k v, k ≠ "rate" →
      (if Float64.gt n 0 then <["rate" := v]> tv5 else tv5) !! k = tv5 !! k) as Hrate.
    { intros k v Hk. destruct (Float64.gt n 0); [by rewrite lookup_insert_ne|done]. }
    assert (∀ k, k ∈ trendKeys →
      tv5 !! k = tv4 !! k) as H5.
    { intros k Hk. apply fold_percentiles_other. by apply trendKeys_not_percentiles. }
    repeat split.
    + rewrite Hrate, H5 by (done || by apply (bool_decide_unpack _)). subst tv4 tv3 tv2 tv1.
      by rewrite !lookup_insert_ne, lookup_insert_eq by done.
    + rewrite Hrate, H5 by (done || by apply (bool_decide_unpack _)). subst tv4 tv3 tv2.
      rewrite !lookup_insert_ne, lookup_insert_eq by done.
      subst tv1. by rewrite getFloat64_insert_ne by done.
    + rewrite Hrate, H5 by (done || by apply (bool_decide_unpack _)). subst tv4 tv3.
      rewrite !lookup_insert_ne, lookup_insert_eq by done.
      subst tv2 tv1. by rewrite !getFloat64_insert_ne by done.
    + rewrite Hrate, H5 by (done || by apply (bool_decide_unpack _)). subst tv4.
      rewrite lookup_insert_eq.
      subst tv3 tv2 tv1. by rewrite !getFloat64_insert_ne by done.
    + intros Ht Hs.
      assert (∀ k, k ∈ trendKeys → k ≠ p) as Hp
        by (intros k Hk; by apply percentiles_not_trendKeys).
      assert (tv4 !! p = tv !! p) as H4.
      { subst tv4 tv3 tv2 tv1. rewrite !lookup_insert_ne; [done|apply Hp; by apply (bool_decide_unpack _)..]. }
      rewrite Hrate by (apply not_eq_sym, Hp; by apply (bool_decide_unpack _)). subst tv5.
      rewrite fold_percentiles_at by (done || apply percentiles_NoDup).
      rewrite mergePercentile_both by (done || by rewrite H4).
      unfold getFloat64 at 1. by rewrite H4.
    + intros Hnone.
      assert (∀ k, k ∈ trendKeys → k ≠ p) as Hp
        by (intros k Hk; by apply percentiles_not_trendKeys).
      assert (tv4 !! p = tv !! p) as H4.
      { subst tv4 tv3 tv2 tv1. rewrite !lookup_insert_ne; [done|apply Hp; by apply (bool_decide_unpack _)..]. }
      rewrite Hrate by (apply not_eq_sym, Hp; by apply (bool_decide_unpack _)). subst tv5.
      rewrite fold_percentiles_at by (done || apply percentiles_NoDup).
      rewrite mergePercentile_one_side; [done|]. rewrite H4. done.
  - by vm_compute.
Qed.

(** *** Rate metrics *)

(** C8, as stated, fails: with no passes and no fails on either side the
    denominator is 0 and the merge leaves the value of the target where it
    was, here 7, neither 0 nor within [0, 1]; and a rate metric that comes
    from one snapshot only enters the aggregate as that snapshot has it,
    here with the value 0.2 for 3 passes and 1 fail. *)
Lemma mergeRateMetric_keeps_value_on_zero_denominator :
  let merged := Values (mergeRateMetric idle_rate_target idle_rate_source) in
  let config := {| MaxEndpoints := 2000; NoBucket := false; MergePercentiles := "weighted" |} in
  (merged !! "passes" = Some (VFloat64 0) ∧
   merged !! "fails" = Some (VFloat64 0) ∧
   merged !! "value" = Some (VFloat64 7) ∧
   ¬ rateInvariant merged) ∧
  ((result_Metrics <$> AggregateMetrics 0 [stale_snapshot] config) =
     Some {[ "login_ok" := stale_rate ]} ∧
   ¬ rateInvariant (Values stale_rate)).
Proof.
  split; [split; [by vm_compute|split; [by vm_compute|split; [by vm_compute|]]]|split].
  - intros (_ & Hzero & _).
    specialize (Hzero eq_refl). by vm_compute in Hzero.
  - by vm_compute.
  - intros (Hq & _). specialize (Hq eq_refl).
    assert (PrimFloat.eqb (getFloat64 (Values stale_rate) "value" 0) 0.75 = false) as Hne
      by (by vm_compute).
    rewrite Hq in Hne. by vm_compute in Hne.
Qed.

(** C8, amended.  After [mergeRateMetric] the target holds the sums of the
    passes and of the fails of both sides; when their total is greater than
    0 its value is [passes / (passes + fails)]; otherwise the entry [value]
    of the target is left as it was.  A metric that is only cloned is the
    metric of its snapshot. *)
Theorem mergeRateMetric_value (target source : Metric) :
  let tv := Values target in
  let sv := Values source in
  let passes := (getFloat64 tv "passes" 0 + getFloat64 sv "passes" 0)%float in
  let fails := (getFloat64 tv "fails" 0 + getFloat64 sv "fails" 0)%float in
  let merged := Values (mergeRateMetric target source) in
  merged !! "passes" = Some (VFloat64 passes) ∧
  merged !! "fails" = Some (VFloat64 fails) ∧
  (Float64.gt (passes + fails) 0 = true →
   merged !! "value" = Some (VFloat64 (passes / (passes + fails))%float)) ∧
  (Float64.gt (passes + fails) 0 = false → merged !! "value" = tv !! "value") ∧
  cloneMetric source = source.
Proof.
  intros tv sv passes fails merged.
  assert (cloneMetric source = source) as Hclone by (by destruct source).
  subst merged. unfold mergeRateMetric.
  fold tv sv. fold passes fails. cbn [Values].
  destruct (Float64.gt (passes + fails) 0) eqn:Hgt.
  - split; [|split; [|split; [|split]]]; try done.
    + by rewrite !lookup_insert_ne, lookup_insert_eq by done.
    + by rewrite lookup_insert_ne, lookup_insert_eq by done.
    + intros _. by rewrite lookup_insert_eq.
  - split; [|split; [|split; [|split]]]; try done.
    + by rewrite lookup_insert_ne, lookup_insert_eq by done.
    + by rewrite lookup_insert_eq.
    + intros _. by rewrite !lookup_insert_ne by done.
Qed.

(** *** The cardinality budget of [AggregateMetrics] *)

Section Budget.
Variable config : Config.

#[local] Abbreviation step := (processMetric config).

Lemma dom_mergeInto m name metric strategy :
  dom (mergeInto m name metric strategy) = {[name]} ∪ dom m.
Proof. unfold mergeInto. destruct (m !! name); by rewrite dom_insert_L. Qed.

Lemma endpointKeys_mergeInto_other m metric strategy :
  endpointKeys (mergeInto m "other" metric strategy) = endpointKeys m.
Proof.
  unfold endpointKeys. rewrite dom_mergeInto.
  apply set_eq. intros k. rewrite !elem_of_filter, elem_of_union, elem_of_singleton.
  naive_solver.
Qed.

Lemma size_endpointKeys_mergeInto m name metric strategy :
  (size (endpointKeys (mergeInto m name metric strategy)) ≤ S (size (endpointKeys m)))%nat.
Proof.
  unfold endpointKeys. rewrite dom_mergeInto.
  transitivity (size ({[name]} ∪ filter (λ k, k ≠ "other" ∧ isGlobalMetric k = false) (dom m))).
  - apply subseteq_size. intros k.
    rewrite elem_of_union, !elem_of_filter, elem_of_union, elem_of_singleton. naive_solver.
  - rewrite size_union_alt, size_singleton.
    assert (size (filter (λ k, k ≠ "other" ∧ isGlobalMetric k = false) (dom m) ∖ {[name]})
            ≤ size (filter (λ k, k ≠ "other" ∧ isGlobalMetric k = false) (dom m)))%nat
      by (apply subseteq_size, subseteq_difference_l; done).
    lia.
Qed.

(** What one round does to the loop variables, case by case. *)
Lemma processMetric_global st name metric :
  isGlobalMetric name = true → step st (name, metric) = st.
Proof. intros Hg. unfold processMetric. by rewrite Hg. Qed.

Lemma processMetric_admitted st name metric :
  isGlobalMetric name = false → endpointCount st < MaxEndpoints config →
  let st' := step st (name, metric) in
  endpointCount st' = endpointCount st + 1 ∧
  endpointsBucketed st' = endpointsBucketed st ∧
  ∃ key, endpointMap st' = <[key := name]> (endpointMap st) ∧
         result_Metrics (result st') =
           mergeInto (result_Metrics (result st)) key metric (MergePercentiles config) ∧
         (endpointMap st !! name = None ∨ endpointMap st !! name = Some name → key = name).
Proof.
  intros Hg Hlt. unfold processMetric. rewrite Hg.
  destruct (MaxEndpoints config <=? endpointCount st) eqn:Hle; [lia|].
  cbn. repeat split. eexists. repeat split.
  unfold normalizeEndpoint. intros [-> | ->]; [done|].
  by rewrite String.eqb_refl.
Qed.

Lemma processMetric_exhausted st name metric :
  isGlobalMetric name = false → MaxEndpoints config ≤ endpointCount st →
  let st' := step st (name, metric) in
  endpointCount st' = endpointCount st ∧
  endpointMap st' = endpointMap st ∧
  if NoBucket config then st' = st
  else endpointsBucketed st' = endpointsBucketed st + 1 ∧
       result_Metrics (result st') =
         mergeInto (result_Metrics (result st)) "other" metric (MergePercentiles config).
Proof.
  intros Hg Hle. unfold processMetric. rewrite Hg.
  destruct (MaxEndpoints config <=? endpointCount st) eqn:Hle'; [|lia].
  by destruct (NoBucket config).
Qed.

Lemma counted_step k st e :
  counted config k st →
  counted config (if isGlobalMetric e.1 then k else k + 1) (step st e).
Proof.
  destruct e as [name metric]. intros (Hk & Hc & Hb). cbn [fst].
  destruct (isGlobalMetric name) eqn:Hg.
  { by rewrite processMetric_global. }
  unfold counted, budget in *.
  destruct (Z_lt_le_dec (endpointCount st) (MaxEndpoints config)) as [Hlt | Hle].
  - destruct (processMetric_admitted st name metric Hg Hlt) as (-> & -> & _).
    rewrite Hb. split; [lia|]. split; [lia|]. destruct (NoBucket config); lia.
  - destruct (processMetric_exhausted st name metric Hg Hle) as (Hc' & _ & Hrest).
    split; [lia|]. split; [lia|].
    destruct (NoBucket config); [rewrite Hrest; lia|].
    destruct Hrest as [-> _]. lia.
Qed.

Lemma counted_fold entries : ∀ k st,
  counted config k st →
  counted config (k + Z.of_nat (length (filter (λ e, isGlobalMetric e.1 = false) entries)))
          (fold_left step entries st).
Proof.
  induction entries as [|e entries IH]; intros k st Hc; simpl.
  { by rewrite Z.add_0_r. }
  apply counted_step with (e := e) in Hc. apply IH in Hc.
  destruct (isGlobalMetric e.1) eqn:Hg.
  - rewrite filter_cons_False by congruence. done.
  - rewrite filter_cons_True by done. cbn [length].
    replace (k + Z.of_nat (S _)) with (k + 1 + Z.of_nat
      (length (filter (λ e, isGlobalMetric e.1 = false) entries))) by lia. done.
Qed.

Lemma bounded_step st e : bounded config st → bounded config (step st e).
Proof.
  destruct e as [name metric]. intros [Hsize Hmax].
  destruct (isGlobalMetric name) eqn:Hg.
  { by rewrite processMetric_global. }
  unfold bounded, budget in *.
  destruct (Z_lt_le_dec (endpointCount st) (MaxEndpoints config)) as [Hlt | Hle].
  - destruct (processMetric_admitted st name metric Hg Hlt) as (-> & _ & key & _ & -> & _).
    pose proof (size_endpointKeys_mergeInto (result_Metrics (result st)) key metric
                  (MergePercentiles config)). lia.
  - destruct (processMetric_exhausted st name metric Hg Hle) as (Hc' & _ & Hrest).
    destruct (NoBucket config); [by rewrite Hrest|].
    destruct Hrest as [_ ->]. rewrite endpointKeys_mergeInto_other. lia.
Qed.

(** The header of [processSnapshot] leaves the four variables alone. *)
Lemma processSnapshots_preserves (P : Loop → Prop) :
  (∀ st st', endpointCount st' = endpointCount st →
             endpointsBucketed st' = endpointsBucketed st →
             result_Metrics (result st') = result_Metrics (result st) →
             P st → P st') →
  (∀ st e, P st → P (step st e)) →
  ∀ metricsList i st, P st → P (processSnapshots config i st metricsList).
Proof.
  intros Hhead Hstep metricsList.
  induction metricsList as [|metrics rest IH]; intros i st HP; [done|].
  simpl. apply IH. unfold processSnapshot.
  match goal with |- P (fold_left _ _ ?st0) => assert (P st0) as HP0 end.
  { by eapply Hhead; [..|exact HP]. }
  revert HP0. generalize (Metrics_ metrics).
  match goal with |- ∀ l, P ?st0 → _ => generalize st0 end.
  intros st0 l. revert st0. induction l as [|e l IHl]; intros st0 HP0; [done|].
  simpl. by apply IHl, Hstep.
Qed.

Lemma mainLoop_bounded now metricsList :
  bounded config (mainLoop now metricsList config).
Proof.
  unfold mainLoop. apply (processSnapshots_preserves (bounded config)).
  - unfold bounded. intros st st' -> _ ->. done.
  - apply bounded_step.
  - unfold bounded, budget, initialLoop. cbn [result result_Metrics endpointCount].
    unfold endpointKeys. rewrite dom_empty_L, filter_empty_L by apply _.
    rewrite size_empty. lia.
Qed.

Lemma processSnapshots_counted metricsList : ∀ i k st,
  counted config k st →
  counted config (k + Z.of_nat (length (occurrences metricsList)))
          (processSnapshots config i st metricsList).
Proof.
  induction metricsList as [|metrics rest IH]; intros i k st Hc; simpl.
  { by rewrite Z.add_0_r. }
  unfold occurrences. rewrite fmap_cons. simpl. rewrite filter_app, length_app.
  rewrite Nat2Z.inj_add, Z.add_assoc. apply IH.
  unfold processSnapshot. apply counted_fold. exact Hc.
Qed.

Lemma collectGlobal_dom entries : ∀ g,
  (∀ k, k ∈ dom g → isGlobalMetric k = true) →
  ∀ k, k ∈ dom (fold_left collectGlobal entries g) → isGlobalMetric k = true.
Proof.
  induction entries as [|[name metric] entries IH]; intros g Hg; [done|].
  simpl. apply IH. destruct (isGlobalMetric name) eqn:Hn; [|done].
  intros k. rewrite dom_mergeInto, elem_of_union, elem_of_singleton.
  intros [-> | Hk]; auto.
Qed.

Lemma endpointKeys_addGlobalMetrics r metricsList :
  endpointKeys (result_Metrics (addGlobalMetrics r metricsList)) =
  endpointKeys (result_Metrics r).
Proof.
  unfold addGlobalMetrics. cbn [setMetrics result_Metrics].
  set (globals := fold_left _ metricsList ∅).
  assert (∀ k, k ∈ dom globals → isGlobalMetric k = true) as Hglob.
  { subst globals.
    assert (∀ k, k ∈ dom (∅ : gmap string Metric) → isGlobalMetric k = true) as Hempty
      by (intros k; rewrite dom_empty_L; by intros ?%not_elem_of_empty).
    revert Hempty. generalize (∅ : gmap string Metric).
    induction metricsList as [|metrics rest IH]; intros g Hg; [done|].
    simpl. apply IH. by apply collectGlobal_dom. }
  unfold endpointKeys. rewrite dom_union_L.
  apply set_eq. intros k. rewrite !elem_of_filter, elem_of_union.
  split; [|naive_solver].
  intros [[Ho Hg] [Hk | Hk]]; [|done].
  apply Hglob in Hk. congruence.
Qed.

(** C10.  The budget of [AggregateMetrics] counts occurrences, not keys.
    When the main loop ends, [endpointCount] is the number of occurrences of
    endpoint metrics in the inputs, capped by the ceiling, and (with the
    bucket enabled) [endpointsBucketed] counts every occurrence past it.  An
    occurrence of a key already recorded under the same original name still
    increments [endpointCount] while the ceiling is not reached; once it is
    reached every further occurrence is merged into ["other"], or dropped
    when [NoBucket] is set. *)
Theorem endpointCount_counts_occurrences (now : Z) (metricsList : list Metrics) :
  let st := mainLoop now metricsList config in
  let n := Z.of_nat (length (occurrences metricsList)) in
  (* the counters after the main loop *)
  endpointCount st = Z.min (budget config) n ∧
  endpointsBucketed st = (if NoBucket config then 0 else n - endpointCount st) ∧
  (* one more occurrence of a key already recorded under its own name *)
  (∀ st0 name metric,
     isGlobalMetric name = false → endpointMap st0 !! name = Some name →
     endpointCount st0 < MaxEndpoints config →
     let st1 := processMetric config st0 (name, metric) in
     endpointCount st1 = endpointCount st0 + 1 ∧ endpointMap st1 = endpointMap st0) ∧
  (* an occurrence once the budget is spent *)
  (∀ st0 name metric,
     isGlobalMetric name = false → MaxEndpoints config ≤ endpointCount st0 →
     let st1 := processMetric config st0 (name, metric) in
     if NoBucket config then st1 = st0
     else endpointsBucketed st1 = endpointsBucketed st0 + 1 ∧
          endpointMap st1 = endpointMap st0 ∧
          result_Metrics (result st1) =
            mergeInto (result_Metrics (result st0)) "other" metric (MergePercentiles config)) ∧
  (* the same endpoint in three input files, under a ceiling of two: one
     distinct key, and the third sample is in the overflow bucket *)
  (let two := {| MaxEndpoints := 2; NoBucket := false; MergePercentiles := "weighted" |} in
   let st := mainLoop 0 (sameEndpoint 3 "GET_users" one_sample) two in
   endpointCount st = 2 ∧ endpointsBucketed st = 1 ∧
   dom (result_Metrics (result st)) = {[ "GET_users"; "other" ]} ∧
   endpointKeys (result_Metrics (result st)) = {[ "GET_users" ]}).
Proof.
  intros st n.
  assert (counted config n st) as (_ & Hc & Hb).
  { subst st n. unfold mainLoop.
    apply (processSnapshots_counted metricsList 0%nat 0 (initialLoop now)).
    unfold counted, budget. cbn. split; [lia|]. split; [lia|].
    destruct (NoBucket config); lia. }
  split; [done|]. split; [done|]. split; [|split; [|by vm_compute]].
  - intros st0 name metric Hg Hmap Hlt.
    destruct (processMetric_admitted st0 name metric Hg Hlt) as (Hc1 & _ & key & Hm & _ & Hkey).
    split; [done|]. rewrite Hm, Hkey by auto. by apply insert_id.
  - intros st0 name metric Hg Hle.
    destruct (processMetric_exhausted st0 name metric Hg Hle) as (_ & Hm & Hrest).
    destruct (NoBucket config); [done|]. destruct Hrest as [? ?]. done.
Qed.

End Budget.

End AggregatorFacts.

(* ===================================================================== *)
(** ** reporting: facts *)
(* ===================================================================== *)

Module ReportingFacts.
Import GoStrings Reporting ReportingProps.

(** *** Threshold resolution *)

Section Resolve.
Variable regexp_MatchString : string → string → option bool.

Lemma firstMatch_matching endpoint visit result :
  firstMatch regexp_MatchString endpoint visit result =
    match matching regexp_MatchString endpoint visit with
    | [] => result
    | (_, groupThresholds) :: _ => mergeThresholdValues result groupThresholds
    end.
Proof.
  unfold matching. induction visit as [|[pattern g] visit IH]; [done|]. simpl.
  destruct (matchesPattern regexp_MatchString endpoint pattern) eqn:Hm.
  - by rewrite filter_cons_True.
  - rewrite filter_cons_False by (simpl; congruence). done.
Qed.

(** With at most one matching pattern the order of the visit is immaterial. *)
Lemma GetThresholdForEndpoint_single_match tc visit1 visit2 endpoint :
  visit1 ≡ₚ visit2 →
  (length (matching regexp_MatchString endpoint visit1) ≤ 1)%nat →
  GetThresholdForEndpoint regexp_MatchString tc visit1 endpoint =
  GetThresholdForEndpoint regexp_MatchString tc visit2 endpoint.
Proof.
  intros Hperm Hlen. unfold GetThresholdForEndpoint.
  rewrite !firstMatch_matching.
  assert (matching regexp_MatchString endpoint visit1 =
          matching regexp_MatchString endpoint visit2) as ->; [|done].
  assert (matching regexp_MatchString endpoint visit1 ≡ₚ
          matching regexp_MatchString endpoint visit2) as Hp
    by (unfold matching; by rewrite Hperm).
  destruct (matching regexp_MatchString endpoint visit1) as [|e [|e' l]].
  - by apply Permutation_nil_l in Hp.
  - by apply Permutation_singleton_l in Hp.
  - simpl in Hlen. lia.
Qed.
End Resolve.

(** C5.  Which group wins depends on the order in which the range visits
    the map of groups.  Both patterns "a*" and "*b" match the endpoint "ab";
    [b; a] and [a; b] are both orders of a visit of the same map; the first
    gives the thresholds of "*b" (the lexicographically first pattern), the
    second the thresholds of "a*". *)
Theorem GetThresholdForEndpoint_depends_on_visit_order :
  let a := ("a*", p95Only (100 * Millisecond)) in
  let b := ("*b", p95Only (200 * Millisecond)) in
  rangeOrder (Groups racing_config) [b; a] ∧
  rangeOrder (Groups racing_config) [a; b] ∧
  String.ltb "*b" "a*" = true ∧
  matchesPattern Wildcard.MatchString "ab" "a*" = true ∧
  matchesPattern Wildcard.MatchString "ab" "*b" = true ∧
  P95 (GetThresholdForEndpoint Wildcard.MatchString racing_config [b; a] "ab")
    = duration (200 * Millisecond) ∧
  P95 (GetThresholdForEndpoint Wildcard.MatchString racing_config [a; b] "ab")
    = duration (100 * Millisecond).
Proof.
  repeat split; try by vm_compute.
  - by apply (bool_decide_unpack _).
  - by apply (bool_decide_unpack _).
Qed.

(** *** Duration thresholds *)

Lemma filter_all {A} (P : A → Prop) `{!∀ x, Decision (P x)} (l : list A) :
  Forall P l → filter P l = l.
Proof.
  induction 1 as [|x l Hx Hl IH]; [done|]. by rewrite filter_cons_True, IH.
Qed.

Lemma filter_none {A} (P : A → Prop) `{!∀ x, Decision (P x)} (l : list A) :
  Forall (λ x, ¬ P x) l → filter P l = [].
Proof.
  induction 1 as [|x l Hx Hl IH]; [done|]. by rewrite filter_cons_False, IH.
Qed.

Lemma elem_of_flat_map {A B} (f : A → list B) (l : list A) (y : B) :
  y ∈ flat_map f l → ∃ x, x ∈ l ∧ y ∈ f x.
Proof.
  intros (x & Hx & Hy)%list_elem_of_In%in_flat_map.
  exists x. by rewrite !list_elem_of_In.
Qed.

Section Duration.
Variables (tc : ThresholdConfig) (endpoint : string) (metric : Metric) (sampleCount : Z).

#[local] Abbreviation check := (checkDuration tc endpoint metric sampleCount).

Lemma checkDuration_Metric c b : b ∈ check c → ThresholdBreach.Metric b = c.1.1.
Proof.
  destruct c as [[key threshold] unit]. unfold checkDuration.
  destruct threshold as [threshold|]; [|by intros ?%elem_of_nil].
  destruct (Values metric !! key) as [[value| | |]|]; try by intros ?%elem_of_nil.
  destruct (Float64.gt _ _); [|by intros ?%elem_of_nil].
  by intros ->%list_elem_of_singleton.
Qed.

Lemma filter_check_eq c :
  filter (λ b, ThresholdBreach.Metric b = c.1.1) (check c) = check c.
Proof.
  apply filter_all, Forall_forall.
  intros b Hb. by apply checkDuration_Metric.
Qed.

Lemma filter_check_ne key c :
  c.1.1 ≠ key → filter (λ b, ThresholdBreach.Metric b = key) (check c) = [].
Proof.
  intros Hne. apply filter_none, Forall_forall.
  intros b Hb. apply checkDuration_Metric in Hb. congruence.
Qed.

Lemma filter_checks checks : ∀ c,
  NoDup (checks.*1.*1) → c ∈ checks →
  filter (λ b, ThresholdBreach.Metric b = c.1.1) (flat_map check checks) = check c.
Proof.
  induction checks as [|c0 checks IH]; intros c Hnd Hin; [by apply elem_of_nil in Hin|].
  rewrite !fmap_cons in Hnd. apply NoDup_cons in Hnd as [Hc0 Hnd].
  simpl. rewrite filter_app. apply elem_of_cons in Hin as [-> | Hin].
  - rewrite filter_check_eq.
    assert (filter (λ b, ThresholdBreach.Metric b = c0.1.1) (flat_map check checks) = []) as ->.
    { apply filter_none, Forall_forall. intros b Hb Hkey.
      apply elem_of_flat_map in Hb as (c' & Hc' & Hb).
      apply checkDuration_Metric in Hb.
      apply Hc0. rewrite <- Hkey, Hb. by apply list_elem_of_fmap_2, list_elem_of_fmap_2. }
    by rewrite app_nil_r.
  - rewrite filter_check_ne, IH by (done || (intros Heq; apply Hc0; rewrite Heq;
      by apply list_elem_of_fmap_2, list_elem_of_fmap_2)). done.
Qed.
End Duration.

Lemma durationChecks_NoDup thresholds : NoDup ((durationChecks thresholds).*1.*1).
Proof. by apply (bool_decide_unpack _). Qed.

(** The checks of [checkDurationThresholds], one key at a time. *)
Lemma checkDurationThresholds_checks
    (tc : ThresholdConfig) (endpoint : string) (metric : Metric)
    (thresholds : ThresholdValues) (sampleCount : Z)
    (key : string) (threshold : DurationThreshold.t) (observed : float) :
  (key, Some threshold, "ms") ∈ durationChecks thresholds →
  Values metric !! key = Some (VFloat64 observed) →
  let T := Float64.of_Z (Milliseconds (DurationThreshold.Value threshold)) in
  let tol := effectiveTolerance tc (DurationThreshold.Tolerance threshold) in
  let breaches := checkDurationThresholds tc endpoint metric thresholds sampleCount in
  filter (λ b, ThresholdBreach.Metric b = key) breaches =
    (if Float64.gt observed (T * (1 + tol / 100))%float then
       [ {| ThresholdBreach.Endpoint := endpoint;
            ThresholdBreach.Metric := key;
            ThresholdBreach.Value := observed;
            ThresholdBreach.Threshold := T;
            ThresholdBreach.Unit := "ms";
            ThresholdBreach.Severity :=
              if PrimFloat.leb observed (T * (1 + tol / 100 * 1.5))%float
              then "warning" else "error";
            ThresholdBreach.SampleCount := sampleCount |} ]
     else []) ∧
  (∀ b, b ∈ breaches →
     ThresholdBreach.Unit b = "ms" ∧
     ∃ k th, (k, Some th, "ms") ∈ durationChecks thresholds ∧
       ThresholdBreach.Metric b = k ∧
       ThresholdBreach.Threshold b = Float64.of_Z (Milliseconds (DurationThreshold.Value th)) ∧
       Float64.gt (ThresholdBreach.Value b)
         (ThresholdBreach.Threshold b *
          (1 + effectiveTolerance tc (DurationThreshold.Tolerance th) / 100))%float = true).
Proof.
  intros Hin Hobs T tol breaches. split.
  - subst breaches. unfold checkDurationThresholds.
    pose proof (filter_checks tc endpoint metric sampleCount (durationChecks thresholds)
                  (key, Some threshold, "ms") (durationChecks_NoDup thresholds) Hin) as H.
    cbn [fst] in H. rewrite H.
    unfold checkDuration. rewrite Hobs. fold T tol. done.
  - intros b Hb. subst breaches. unfold checkDurationThresholds in Hb.
    apply elem_of_flat_map in Hb as ([[k th] unit] & Hc & Hb).
    assert (unit = "ms") as ->.
    { unfold durationChecks in Hc. set_unfold. naive_solver. }
    unfold checkDuration in Hb.
    destruct th as [th|]; [|by apply elem_of_nil in Hb].
    destruct (Values metric !! k) as [[value| | |]|]; try by apply elem_of_nil in Hb.
    destruct (Float64.gt _ _) eqn:Hgt; [|by apply elem_of_nil in Hb].
    apply list_elem_of_singleton in Hb as ->. cbn.
    split; [done|]. exists k, th. done.
Qed.

(** C3.  The duration check compares with the threshold cut to whole
    milliseconds.  A p(95) threshold of 1.5ms with its own tolerance of 10
    percent admits 1.5 * (1 + 10/100) = 1.65ms, and an observed 1.2ms does
    not exceed that; yet [checkDurationThresholds] reports a breach, an
    "error", against a threshold of 1: the threshold has lost its fraction
    ([Milliseconds]), where the report ([convertThresholdValuesForJS]) turns
    the same threshold into 1.5.  On a threshold of whole milliseconds, 300ms
    with its own tolerance of 10 under options that say 0, the check does
    what the claim says: 320 is no breach (320 is not greater than 330) and
    400 is one "error" breach with the unit "ms" (400 > 330, 400 > 345). *)
Theorem checkDurationThresholds_drops_fraction_of_millisecond :
  (* what the claim asks for: no breach *)
  Float64.gt 1.2 (1.5 * (1 + 10 / 100))%float = false ∧
  (* the threshold on the two paths *)
  JSThresholdValues.P95 (convertThresholdValuesForJS fractional_thresholds) = Some 1.5%float ∧
  Float64.of_Z (Milliseconds 1500000) = 1%float ∧
  (* what the code does *)
  checkDurationThresholds fractional_config "GET_users" fractional_metric
    fractional_thresholds 150 =
    [ {| ThresholdBreach.Endpoint := "GET_users"; ThresholdBreach.Metric := "p(95)";
         ThresholdBreach.Value := 1.2; ThresholdBreach.Threshold := 1;
         ThresholdBreach.Unit := "ms"; ThresholdBreach.Severity := "error";
         ThresholdBreach.SampleCount := 150 |} ] ∧
  ValidateThresholds Wildcard.MatchString fractional_config (λ _, [])
    [("GET_users", fractional_metric)] =
    checkDurationThresholds fractional_config "GET_users" fractional_metric
      fractional_thresholds 150 ∧
  (* a threshold of whole milliseconds, with its own tolerance *)
  ThresholdOptions.TolerancePercent (Options spec_config) = 0%float ∧
  checkDurationThresholds spec_config "GET_users" near_metric spec_thresholds 150 = [] ∧
  checkDurationThresholds spec_config "GET_users" spec_metric spec_thresholds 150 =
    [ {| ThresholdBreach.Endpoint := "GET_users"; ThresholdBreach.Metric := "p(95)";
         ThresholdBreach.Value := 400; ThresholdBreach.Threshold := 300;
         ThresholdBreach.Unit := "ms"; ThresholdBreach.Severity := "error";
         ThresholdBreach.SampleCount := 150 |} ].
Proof.
  split; [by vm_compute|]. split; [by vm_compute|]. split; [by vm_compute|].
  split; [by vm_compute|]. split; [by vm_compute|]. split; [done|]. split; by vm_compute.
Qed.

(** *** The minimum-sample gate *)

Section Gate.
Variable regexp_MatchString : string → string → option bool.
Variable tc : ThresholdConfig.
Variable visitGroups : string → list (string * ThresholdValues).

(** The gate that the code implements: the option of the configuration
    alone (100 when it is 0). *)
Lemma validateMetric_gate (metricName : string) (metric : Metric) :
  isEndpointMetric metricName = true →
  let thresholds :=
    GetThresholdForEndpoint regexp_MatchString tc (visitGroups metricName) metricName in
  validateMetric regexp_MatchString tc visitGroups (metricName, metric) =
    if sampleCountOf metric <? minSamplesOf tc then []
    else checkDurationThresholds tc metricName metric thresholds (sampleCountOf metric) ++
         checkRateThresholds tc metricName metric thresholds (sampleCountOf metric).
Proof. intros He. unfold validateMetric. by rewrite He. Qed.

Lemma validateMetric_skips_system (metricName : string) (metric : Metric) :
  isEndpointMetric metricName = false →
  validateMetric regexp_MatchString tc visitGroups (metricName, metric) = [].
Proof. intros He. unfold validateMetric. by rewrite He. Qed.
End Gate.

(** C7.  The override of the endpoint is resolved and then not used: a
    metric with 150 samples passes the gate of the options (100) although
    its endpoint asks for 200 samples, and a breach is emitted for it. *)
Theorem ValidateThresholds_ignores_min_samples_override :
  let thresholds :=
    GetThresholdForEndpoint Wildcard.MatchString gated_config [] "GET_users" in
  MinSamples thresholds = Some 200 ∧
  sampleCountOf gated_metric = 150 ∧
  ValidateThresholds Wildcard.MatchString gated_config (λ _, [])
    [("GET_users", gated_metric)] =
    [ {| ThresholdBreach.Endpoint := "GET_users"; ThresholdBreach.Metric := "p(95)";
         ThresholdBreach.Value := 400; ThresholdBreach.Threshold := 300;
         ThresholdBreach.Unit := "ms"; ThresholdBreach.Severity := "error";
         ThresholdBreach.SampleCount := 150 |} ].
Proof. repeat split; by vm_compute. Qed.

(** *** System metrics *)

(** C9.  [http_req_blocked] is a global metric for the aggregator and an
    endpoint metric for the validator, which emits a breach for it. *)
Theorem ValidateThresholds_examines_http_req_blocked :
  Aggregator.isGlobalMetric "http_req_blocked" = true ∧
  isEndpointMetric "http_req_blocked" = true ∧
  rangeOrder (Groups DefaultThresholdConfig) defaultVisit ∧
  ValidateThresholds Wildcard.MatchString DefaultThresholdConfig (λ _, defaultVisit)
    [("http_req_blocked", blocked_metric)] =
    [ {| ThresholdBreach.Endpoint := "http_req_blocked"; ThresholdBreach.Metric := "p(95)";
         ThresholdBreach.Value := 1000; ThresholdBreach.Threshold := 500;
         ThresholdBreach.Unit := "ms"; ThresholdBreach.Severity := "error";
         ThresholdBreach.SampleCount := 150 |} ].
Proof.
  split; [by vm_compute|]. split; [by vm_compute|]. split; [|by vm_compute].
  split; [by apply (bool_decide_unpack _)|by vm_compute].
Qed.

(** The names of the global set that the validator does examine, and the
    ones it skips. *)
Lemma isEndpointMetric_on_globalMetrics :
  filter (λ name, isEndpointMetric name = true) Aggregator.globalMetrics =
    [ "http_req_blocked"; "http_req_connecting"; "http_req_sending";
      "http_req_waiting"; "http_req_receiving"; "http_req_tls_handshaking" ].
Proof. by vm_compute. Qed.

End ReportingFacts.

(* ===================================================================== *)
(** ** The cardinality ceiling, in the aggregator and in the normalizer *)
(* ===================================================================== *)

Module CardinalityFacts.
Import Aggregator AggregatorProps AggregatorFacts DPNProps DPNFacts.

(** C4.  Cardinality ceiling.  For a ceiling that is not negative: whatever
    the snapshots and the order in which their metrics are visited, the
    aggregate of [AggregateMetrics] (which exists unless the list is empty)
    has at most [MaxEndpoints] keys besides "other" and the global metrics;
    and after any sequence of calls into a fresh DPN state the controller
    has recorded at most [MaxEndpoints] keys besides "other". *)
Theorem cardinality_ceiling
    (config : Config) (now : Z) (metricsList : list Metrics)
    (dpnConfig : DPN.DPNConfig) (calls : list call) :
  0 ≤ MaxEndpoints config →
  0 ≤ DPN.MaxEndpoints dpnConfig →
  match AggregateMetrics now metricsList config with
  | Some aggregate =>
      Z.of_nat (size (endpointKeys (result_Metrics aggregate))) ≤ MaxEndpoints config
  | None => metricsList = []
  end ∧
  Z.of_nat (size (recordedKeys (runCalls calls (DPN.NewDPNState dpnConfig))))
    ≤ DPN.MaxEndpoints dpnConfig.
Proof.
  intros Hagg Hdpn. split.
  - unfold AggregateMetrics. destruct metricsList as [|metrics rest]; [done|].
    cbn [length Nat.eqb]. rewrite endpointKeys_addGlobalMetrics.
    destruct (mainLoop_bounded config now (metrics :: rest)) as [Hsize Hmax].
    unfold budget in Hmax. lia.
  - apply within_recordedKeys; [done|]. apply within_runCalls.
    unfold within, DPN.NewDPNState.
    cbn [DPN.config DPN.endpointCollisions DPN.endpointCount].
    rewrite dom_empty_L, size_empty. split; [done|lia].
Qed.

Lemma cardinality_ceiling_of_two :
  let config := {| MaxEndpoints := 2; NoBucket := false; MergePercentiles := "weighted" |} in
  let snapshot name :=
    {| RootGroup_Checks := []; Metrics_ := [(name, one_sample)];
       StartTime := 0; EndTime := 0 |} in
  let metricsList := [snapshot "GET_a"; snapshot "GET_b"; snapshot "GET_c"] in
  let calls := [Extract "/a"; Extract "/b"; Extract "/c"] in
  let dpnConfig := {| DPN.MaxEndpoints := 2; DPN.CacheSize := 8192 |} in
  (dom <$> (result_Metrics <$> AggregateMetrics 0 metricsList config)
     = Some ({[ "GET_a"; "GET_b"; "other" ]} : gset string)) ∧
  dom (DPN.endpointCollisions (runCalls calls (DPN.NewDPNState dpnConfig)))
    = {[ "a"; "b" ]} ∧
  match AggregateMetrics 0 metricsList config with
  | Some aggregate => Z.of_nat (size (endpointKeys (result_Metrics aggregate))) ≤ 2
  | None => metricsList = []
  end ∧
  Z.of_nat (size (recordedKeys (runCalls calls (DPN.NewDPNState dpnConfig)))) ≤ 2.
Proof.
  split; [by vm_compute|]. split; [by vm_compute|].
  apply (cardinality_ceiling
           {| MaxEndpoints := 2; NoBucket := false; MergePercentiles := "weighted" |} 0
           _ {| DPN.MaxEndpoints := 2; DPN.CacheSize := 8192 |}
           [Extract "/a"; Extract "/b"; Extract "/c"]); cbn; lia.
Defined.

End CardinalityFacts.

(* ===================================================================== *)
(** ** executors/http: extensions, templates, cache and controller *)
(* ===================================================================== *)

Module NormalizerFacts.
Import GoStrings Regex DPN DPNProps DPNStats ControllerProps DPNFacts.

(** *** Extensions *)

Lemma String_app a (s t : string) : String a s +:+ t = String a (s +:+ t).
Proof. done. Qed.

Lemma len_String a s : len (String a s) = len s + 1.
Proof. unfold len. cbn [String.length]. lia. Qed.

Lemma len_nonneg s : 0 ≤ len s.
Proof. unfold len. lia. Qed.

Lemma len_app s t : len (s +:+ t) = len s + len t.
Proof.
  induction s as [|a s IH]; [change ("" +:+ t) with t; unfold len; cbn; lia|].
  rewrite String_app, !len_String, IH. lia.
Qed.

Lemma LastIndexByte_None s c : LastIndexByte s c = None ↔ avoids c s = true.
Proof.
  induction s as [|a s IH]; [done|]. cbn.
  destruct (LastIndexByte s c) as [i|].
  - split; [done|]. intros [_ Hs]%andb_prop. by apply IH in Hs.
  - destruct (Ascii.eqb a c); cbn; [done|]. split; [intros _; by apply IH|done].
Qed.

(** The last occurrence of a byte splits the string around it. *)
Lemma LastIndexByte_Some s c : ∀ i,
  LastIndexByte s c = Some i →
  ∃ r e, s = r +:+ String c e ∧ String.length r = i ∧ avoids c e = true ∧ slice_to s i = r.
Proof.
  induction s as [|a s IH]; intros i; [done|]. cbn.
  destruct (LastIndexByte s c) as [j|] eqn:Hlast.
  - intros [= <-]. destruct (IH j eq_refl) as (r & e & -> & <- & He & Hslice).
    exists (String a r), e. cbn. by rewrite Hslice.
  - destruct (Ascii.eqb a c) eqn:Heq; [|done]. intros [= <-].
    apply Ascii.eqb_eq in Heq as ->. exists "", s. repeat split.
    by apply LastIndexByte_None.
Qed.

Lemma LastIndexByte_app r c e :
  avoids c e = true → LastIndexByte (r +:+ String c e) c = Some (String.length r).
Proof.
  intros He. induction r as [|a r IH].
  - change ("" +:+ String c e) with (String c e). cbn.
    apply LastIndexByte_None in He as ->. by rewrite Ascii.eqb_refl.
  - rewrite String_app. cbn [LastIndexByte String.length]. by rewrite IH.
Qed.

Lemma slice_to_app r t : slice_to (r +:+ t) (String.length r) = r.
Proof.
  induction r as [|a r IH]; [change ("" +:+ t) with t; by destruct t|].
  rewrite String_app. cbn. by rewrite IH.
Qed.

(** X1.  [trimExtIfAny] cuts at most one extension.  A string made of a
    stem that is not empty, a dot and at most five bytes without a dot loses
    the dot and what follows it; every other string is returned as it is.  So
    the result is a prefix of the argument, at most six bytes shorter, and it
    is empty only when the argument is. *)
Theorem trimExtIfAny_one_extension (s : string) :
  (∀ stem ext,
     s = stem +:+ String "." ext → stem ≠ "" → avoids "." ext = true → len ext ≤ 5 →
     trimExtIfAny s = stem) ∧
  (trimExtIfAny s = s ∨
   ∃ stem ext,
     s = stem +:+ String "." ext ∧ stem ≠ "" ∧ avoids "." ext = true ∧ len ext ≤ 5 ∧
     trimExtIfAny s = stem) ∧
  (s ≠ "" → trimExtIfAny s ≠ "").
Proof.
  assert (trimExtIfAny s = s ∨
          ∃ stem ext,
            s = stem +:+ String "." ext ∧ stem ≠ "" ∧ avoids "." ext = true ∧ len ext ≤ 5 ∧
            trimExtIfAny s = stem) as Hcases.
  { unfold trimExtIfAny. destruct (LastIndexByte s ".") as [i|] eqn:Hlast; [|by left].
    destruct ((0 <? Z.of_nat i) && (len s - 6 <=? Z.of_nat i)) eqn:Hcut; [|by left].
    right. apply andb_prop in Hcut as [Hpos Hnear].
    apply Z.ltb_lt in Hpos. apply Z.leb_le in Hnear.
    destruct (LastIndexByte_Some s "." i Hlast) as (stem & ext & Hs & Hlen & Hext & Hslice).
    exists stem, ext. repeat split; try done.
    - intros ->. cbn in Hlen. lia.
    - rewrite Hs, len_app, len_String in Hnear. unfold len in *. subst i. lia. }
  repeat split; [|done|].
  - intros stem ext -> Hstem Hext Hlen. unfold trimExtIfAny.
    rewrite (LastIndexByte_app stem "." ext Hext).
    assert (0 < Z.of_nat (String.length stem)) as Hpos by (destruct stem; [done|cbn; lia]).
    rewrite len_app, len_String. fold (len stem).
    fold (len stem) in Hpos.
    apply Z.ltb_lt in Hpos as ->.
    assert (len stem + (len ext + 1) - 6 ≤ len stem) as ->%Z.leb_le by lia.
    cbn. apply slice_to_app.
  - intros Hs. destruct Hcases as [-> | (stem & ext & _ & Hstem & _ & _ & ->)]; done.
Qed.

(** *** Templates *)

Lemma len_slice_to s : ∀ n, len (slice_to s n) ≤ Z.of_nat n.
Proof.
  induction s as [|a s IH]; intros [|n]; try (unfold len; cbn; lia).
  cbn [slice_to]. rewrite len_String. specialize (IH n). lia.
Qed.

(** X2.  The template of an ASCII path is made of template bytes: no
    upper-case letter, no slash, no question mark, no hash, no semicolon.  It
    is at most 80 bytes long, unless it is the fallback text (the cleaned
    path with its slashes replaced and its outer underscores trimmed), which
    is not truncated. *)
Theorem ExtractSimpleEndpoint_bytes_and_length (env : option Z) (path : string) :
  all_bytes is_ascii_byte path = true →
  let r := ExtractSimpleEndpoint env path in
  all_bytes templateByte r = true ∧
  (len r ≤ 80 ∨ r = TrimByte (ReplaceAllByte (cleanPath path) "/" "_") "_").
Proof.
  intros _ r. split; [apply ExtractSimpleEndpoint_bytes|].
  subst r. rewrite ExtractSimpleEndpoint_unfold. cbv zeta.
  destruct (_ || _); [by left|]. destruct (_ =? _)%nat; [by left|].
  unfold template.
  match goal with |- context [if 80 <? len ?x then _ else _] => set (t := x) end.
  destruct (String.eqb (if 80 <? len t then slice_to t 80 else t) ""); [by right|].
  left. destruct (80 <? len t) eqn:Hlen; [apply (len_slice_to t 80)|lia].
Qed.

Lemma bytes_and_length_of_uuid_path :
  all_bytes is_ascii_byte uuid_path = true ∧
  ExtractSimpleEndpoint None uuid_path = "users_profile" ∧
  all_bytes templateByte (ExtractSimpleEndpoint None uuid_path) = true.
Proof.
  assert (all_bytes is_ascii_byte uuid_path = true) as Hascii by (by vm_compute).
  split; [done|]. split; [by vm_compute|].
  by destruct (ExtractSimpleEndpoint_bytes_and_length None uuid_path Hascii) as [? _].
Defined.

(** *** The entry points without a state *)

(** X3.  The entry points that create a state of their own compose: the
    result of [NormalizeEndpoint] is the method in upper case (GET when it is
    empty), an underscore, and the result of
    [ExtractSimpleEndpointWithGraphQL]; the result of
    [ExtractSimpleEndpointWithMethod] is the same prefix before the result of
    [ExtractSimpleEndpoint].  The template never depends on the method. *)
Theorem NormalizeEndpoint_compose (env : option Z) (path method : string) :
  let prefix := if String.eqb (ToUpper method) "" then "GET" else ToUpper method in
  NormalizeEndpoint env path method =
    prefix +:+ "_" +:+ ExtractSimpleEndpointWithGraphQL env path ∧
  ExtractSimpleEndpointWithMethod env path method =
    prefix +:+ "_" +:+ ExtractSimpleEndpoint env path.
Proof.
  intros prefix.
  assert (ExtractSimpleEndpointWithMethod env path method =
            prefix +:+ "_" +:+ ExtractSimpleEndpoint env path) as Hmethod.
  { unfold ExtractSimpleEndpointWithMethod, ExtractSimpleEndpointWithMethodAndState,
      ExtractSimpleEndpoint.
    by destruct (ExtractSimpleEndpointWithState path _). }
  split; [|done].
  unfold NormalizeEndpoint, ExtractSimpleEndpointWithGraphQL.
  destruct (_ || _); done.
Qed.

(** *** The controller below the ceiling *)

Lemma length_slice_to s : ∀ n, (n ≤ String.length s)%nat → String.length (slice_to s n) = n.
Proof.
  induction s as [|a s IH]; intros [|n] Hn; cbn in *; try done; try lia.
  rewrite IH; lia.
Qed.

Lemma length_le_bytes n : ∀ x, length (MD5.le_bytes n x) = n.
Proof. induction n as [|n IH]; intros x; [done|]. cbn. by rewrite IH. Qed.

Lemma length_hex bs : String.length (MD5.hex bs) = (2 * length bs)%nat.
Proof. induction bs as [|b bs IH]; [done|]. cbn [MD5.hex String.length length]. lia. Qed.

(** The digest has 16 bytes, its hexadecimal text 32. *)
Lemma length_md5hex s : String.length (MD5.md5hex s) = 32%nat.
Proof.
  unfold MD5.md5hex, MD5.Sum. rewrite length_hex.
  destruct (MD5.blocks _ _ _) as [[[a b] c] d].
  by rewrite !length_app, !length_le_bytes.
Qed.

Lemma len_hashed normalized original :
  len (normalized +:+ "_" +:+ slice_to (MD5.md5hex original) 8) = len normalized + 9.
Proof.
  rewrite !len_app. unfold len at 2 3.
  rewrite length_slice_to by (rewrite length_md5hex; lia). cbn. lia.
Qed.

Lemma handle_below normalized original state :
  endpointCount state < MaxEndpoints (config state) →
  handleCollisionsAndCardinalityWithState normalized original state =
    let key :=
      if match endpointCollisions state !! normalized with
         | Some existingOriginal => negb (String.eqb existingOriginal original)
         | None => false
         end
      then normalized +:+ "_" +:+ slice_to (MD5.md5hex original) 8
      else normalized in
    (key,
     {| cache := cache state;
        endpointCollisions := <[key := original]> (endpointCollisions state);
        endpointCount := endpointCount state + 1;
        endpointsBucketed := endpointsBucketed state; config := config state |}).
Proof.
  intros Hbelow. unfold handleCollisionsAndCardinalityWithState.
  apply Z.leb_gt in Hbelow as ->. cbv zeta.
  destruct (endpointCollisions state !! normalized) as [existing|]; [|done].
  by destruct (negb (String.eqb existing original)).
Qed.

(** X4.  The controller below the ceiling.  A call records the key it
    returns for the original path and counts one more endpoint.  The key is
    the normalized name, unless that name is recorded for another original:
    then it is the name, an underscore and the first eight hexadecimal digits
    of the MD5 digest of the original, nine bytes longer than the name.  The
    same pair handled again, while the ceiling is not reached, receives the
    same key and is counted once more. *)
Theorem handleCollisions_below_ceiling (normalized original : string) (state : DPNState) :
  endpointCount state < MaxEndpoints (config state) →
  let result := handleCollisionsAndCardinalityWithState normalized original state in
  let key := result.1 in
  let state' := result.2 in
  let hashed := normalized +:+ "_" +:+ slice_to (MD5.md5hex original) 8 in
  endpointCollisions state' = <[key := original]> (endpointCollisions state) ∧
  endpointCount state' = endpointCount state + 1 ∧
  endpointsBucketed state' = endpointsBucketed state ∧
  (endpointCollisions state !! normalized = None ∨
   endpointCollisions state !! normalized = Some original → key = normalized) ∧
  (∀ other, endpointCollisions state !! normalized = Some other → other ≠ original →
            key = hashed) ∧
  len hashed = len normalized + 9 ∧
  (endpointCount state' < MaxEndpoints (config state') →
   let again := handleCollisionsAndCardinalityWithState normalized original state' in
   again.1 = key ∧ endpointCount again.2 = endpointCount state + 2 ∧
   endpointCollisions again.2 = endpointCollisions state').
Proof.
  intros Hbelow. cbv zeta.
  pose proof (len_hashed normalized original) as Hlen.
  assert (normalized +:+ "_" +:+ slice_to (MD5.md5hex original) 8 ≠ normalized) as Hne
    by (intros Heq; rewrite Heq in Hlen; lia).
  rewrite (handle_below normalized original state Hbelow).
  cbn [fst snd endpointCollisions endpointCount endpointsBucketed config].
  split; [done|]. split; [done|]. split; [done|].
  split; [|split; [|split; [done|]]].
  - intros [-> | ->]; [done|]. by rewrite String.eqb_refl.
  - intros other -> Hother. by apply String.eqb_neq in Hother as ->.
  - intros Hbelow'. rewrite handle_below by done.
    cbn [fst snd endpointCollisions endpointCount endpointsBucketed config].
    destruct (endpointCollisions state !! normalized) as [existing|] eqn:Hex.
    + destruct (String.eqb existing original) eqn:Heq; cbn [negb].
      * rewrite lookup_insert_eq, String.eqb_refl. cbn [negb].
        split; [done|]. split; [lia|]. by rewrite insert_insert_eq.
      * rewrite lookup_insert_ne, Hex, Heq by done. cbn [negb].
        split; [done|]. split; [lia|]. by rewrite insert_insert_eq.
    + rewrite lookup_insert_eq, String.eqb_refl. cbn [negb].
      split; [done|]. split; [lia|]. by rewrite insert_insert_eq.
Qed.

Lemma collision_of_two_originals :
  let config := {| MaxEndpoints := 10; CacheSize := 8192 |} in
  let state :=
    (handleCollisionsAndCardinalityWithState "users_profile" "/users/1/profile"
       (NewDPNState config)).2 in
  let result :=
    handleCollisionsAndCardinalityWithState "users_profile" "/users/2/profile" state in
  endpointCount state < MaxEndpoints (DPN.config state) ∧
  result.1 = "users_profile_f10edada" ∧
  endpointCount result.2 = endpointCount state + 1 ∧
  len ("users_profile" +:+ "_" +:+ slice_to (MD5.md5hex "/users/2/profile") 8) =
    len "users_profile" + 9.
Proof.
  intros config state result.
  assert (endpointCount state < MaxEndpoints (DPN.config state)) as Hbelow by (by vm_compute).
  split; [exact Hbelow|]. split; [by vm_compute|].
  destruct (handleCollisions_below_ceiling "users_profile" "/users/2/profile" state Hbelow)
    as (_ & Hcount & _ & _ & _ & Hlen & _).
  split; [exact Hcount|exact Hlen].
Defined.

(** *** The controller at the ceiling *)

Lemma saturated_handle normalized original state :
  MaxEndpoints (config state) ≤ endpointCount state →
  handleCollisionsAndCardinalityWithState normalized original state =
    ("other",
     {| cache := cache state; endpointCollisions := endpointCollisions state;
        endpointCount := endpointCount state;
        endpointsBucketed := endpointsBucketed state + 1; config := config state |}).
Proof.
  intros Hsat. unfold handleCollisionsAndCardinalityWithState.
  by apply Z.leb_le in Hsat as ->.
Qed.

Lemma saturated_step state0 state c :
  MaxEndpoints (config state0) ≤ endpointCount state0 →
  saturatedAs state0 state → saturatedAs state0 (runCall state c).
Proof.
  intros Hsat (Hmap & Hcount & Hcfg & Hbucket).
  assert (MaxEndpoints (config state) ≤ endpointCount state) as Hsat'
    by (by rewrite Hcfg, Hcount).
  destruct c as [path|normalized original]; cbn [runCall].
  - unfold ExtractSimpleEndpointWithState.
    destruct (cache state !! path); [done|]. cbv zeta.
    destruct (_ || _); [done|]. destruct (_ =? _)%nat; [done|].
    rewrite saturated_handle by done. unfold saturatedAs. cbn. split_and!; [done..|lia].
  - rewrite saturated_handle by done. unfold saturatedAs. cbn. split_and!; [done..|lia].
Qed.

Lemma saturated_runCalls state0 calls : ∀ state,
  MaxEndpoints (config state0) ≤ endpointCount state0 →
  saturatedAs state0 state → saturatedAs state0 (runCalls calls state).
Proof.
  induction calls as [|c calls IH]; intros state Hsat Hinv; [done|].
  cbn. apply IH; [done|]. by apply saturated_step.
Qed.

(** X5.  Once the controller has counted as many endpoints as the ceiling
    allows, no later call changes that: whatever calls follow, the recorded
    keys, the count and the configuration stay as they are, and only the
    number of bucketed endpoints grows.  Every key the controller hands out
    from then on is "other", and every path is answered with "other", with
    "root", or from the cache. *)
Theorem saturation_is_permanent (calls : list call) (state : DPNState) :
  MaxEndpoints (config state) ≤ endpointCount state →
  let state' := runCalls calls state in
  endpointCollisions state' = endpointCollisions state ∧
  endpointCount state' = endpointCount state ∧
  config state' = config state ∧
  endpointsBucketed state ≤ endpointsBucketed state' ∧
  (∀ normalized original,
     (handleCollisionsAndCardinalityWithState normalized original state').1 = "other") ∧
  (∀ path, let r := (ExtractSimpleEndpointWithState path state').1 in
           r = "other" ∨ r = "root" ∨ cache state' !! path = Some r).
Proof.
  intros Hsat state'.
  assert (saturatedAs state state') as (Hmap & Hcount & Hcfg & Hbucket)
    by (apply saturated_runCalls; [done|]; unfold saturatedAs; split_and!; [done..|lia]).
  assert (MaxEndpoints (config state') ≤ endpointCount state') as Hsat'
    by (by rewrite Hcfg, Hcount).
  split_and!; try done.
  - intros normalized original. by rewrite saturated_handle.
  - intros path. cbv zeta. unfold ExtractSimpleEndpointWithState.
    destruct (cache state' !! path) as [cached|]; [by right; right|]. cbv zeta.
    destruct (_ || _); [by right; left|]. destruct (_ =? _)%nat; [by right; left|].
    rewrite saturated_handle by done. by left.
Qed.

Lemma saturation_of_one :
  let config := {| MaxEndpoints := 1; CacheSize := 8192 |} in
  let state := runCalls [Extract "/users"] (NewDPNState config) in
  let state' := runCalls [Extract "/orders"; Extract "/Users"] state in
  MaxEndpoints (DPN.config state) ≤ endpointCount state ∧
  (ExtractSimpleEndpointWithState "/Users" (NewDPNState config)).1 = "users" ∧
  (ExtractSimpleEndpointWithState "/Users" state').1 = "other" ∧
  endpointCount state' = 1 ∧ endpointsBucketed state' = 2.
Proof.
  intros config state state'.
  assert (MaxEndpoints (DPN.config state) ≤ endpointCount state) as Hsat by (by vm_compute).
  split; [done|]. split; [by vm_compute|].
  destruct (saturation_is_permanent [Extract "/orders"; Extract "/Users"] state Hsat)
    as (_ & Hcount & _ & _ & _ & Hextract).
  fold state' in Hcount, Hextract.
  split; [by vm_compute|]. split; [by rewrite Hcount|by vm_compute].
Defined.

(** *** Tokens *)







(** *** Numbers *)

Lemma MatchString_Void s : MatchString Void s = false.
Proof. by induction s. Qed.

Lemma matches_times_digit n : ∀ s,
  String.length s = n → all_bytes is_digit s = true → RegexProps.matches (times n digit) s.
Proof.
  induction n as [|n IH]; intros [|a s] Hlen Hd; try done; [constructor|].
  cbn in Hd. apply andb_prop in Hd as [Ha Hs].
  change (String a s) with (String a "" +:+ s). cbn [times].
  apply RegexProps.matches_seq; [by constructor|]. apply IH; [by injection Hlen|done].
Qed.

Lemma matches_star_digit s :
  all_bytes is_digit s = true → RegexProps.matches (Star digit) s.
Proof.
  induction s as [|a s IH]; [constructor|]. cbn. intros [Ha Hs]%andb_prop.
  change (String a s) with (String a "" +:+ s).
  apply RegexProps.matches_star_app; [by constructor|by apply IH].
Qed.

Lemma rePureDigits_digits token :
  all_bytes is_digit token = true → 6 ≤ len token →
  MatchString rePureDigits token = true.
Proof.
  intros Hd Hlen. apply RegexFacts.MatchString_matches.
  destruct token as [|d1 [|d2 [|d3 [|d4 [|d5 [|d6 rest]]]]]];
    try (unfold len in Hlen; cbn in Hlen; lia).
  change (String d1 (String d2 (String d3 (String d4 (String d5 (String d6 rest))))))
    with (String d1 (String d2 (String d3 (String d4 (String d5 (String d6 ""))))) +:+ rest).
  cbn in Hd.
  repeat match type of Hd with (_ && _) = true => apply andb_prop in Hd as [? Hd] end.
  unfold rePureDigits, at_least. apply RegexProps.matches_seq.
  - apply matches_times_digit; [done|]. cbn.
    repeat match goal with H : is_digit _ = true |- _ => rewrite H; clear H end. done.
  - by apply matches_star_digit.
Qed.

(** A pattern that cannot begin with a digit. *)
Lemma deriv_digit c :
  is_digit c = true →
  deriv c reTemplateVar = Void ∧ Forall (λ keepPattern, deriv c keepPattern = Void) keepList ∧
  Ascii.eqb c "m" = false ∧ Ascii.eqb c "s" = false ∧ Ascii.eqb c "c" = false.
Proof.
  destruct c as [[] [] [] [] [] [] [] []]; intros Hc; try (by vm_compute in Hc);
    (split; [by vm_compute|]); (split; [|by vm_compute]);
    repeat constructor; by vm_compute.
Qed.

(** X7.  A token of six decimal digits or more is dropped by the
    classification, at every position.  It is dropped from the tokens, not
    always from the template: a path whose tokens are all dropped falls back
    to its own text, as "/1234567" does. *)
Theorem classify_drops_numbers (i : nat) (token : string) :
  all_bytes is_digit token = true →
  6 ≤ len token →
  classify i token = None ∧
  pruneTokens i [token] = [] ∧
  ExtractSimpleEndpoint None "/1234567" = "1234567".
Proof.
  intros Hd Hlen.
  assert (classify i token = None) as Hc.
  { pose proof (rePureDigits_digits token Hd Hlen) as Hpure.
    destruct token as [|c rest]; [unfold len in Hlen; cbn in Hlen; lia|].
    cbn in Hd. apply andb_prop in Hd as [Hc _].
    destruct (deriv_digit c Hc) as (Htpl & Hkeep & Hm & Hs & Hcc).
    unfold classify, normalizeTemplateVariable.
    cbn [MatchString]. rewrite Htpl, MatchString_Void.
    change (String.eqb (String c rest) "") with false. cbv iota.
    assert (existsb (λ keepPattern, MatchString keepPattern (String c rest)) keepList = false)
      as ->.
    { apply not_true_is_false. intros (r & Hr & Hmatch)%existsb_exists.
      rewrite Forall_forall in Hkeep. apply list_elem_of_In in Hr.
      cbn [MatchString] in Hmatch. by rewrite (Hkeep r Hr), MatchString_Void in Hmatch. }
    assert (String.eqb (String c rest) "me" || String.eqb (String c rest) "self" ||
            String.eqb (String c rest) "current" = false) as ->.
    { cbn. by rewrite Hm, Hs, Hcc. }
    unfold isIDLike. rewrite Hpure, !orb_true_r, !orb_true_l.
    destruct (_ && _); [done|]. destruct (_ || _); [done|].
    by destruct (isHTTPMethod _). }
  split; [done|]. split; [cbn; by rewrite Hc|by vm_compute].
Qed.

Lemma classify_drops_a_timestamp :
  all_bytes is_digit "1699999999999" = true ∧ 6 ≤ len "1699999999999" ∧
  classify 1 "1699999999999" = None ∧
  ExtractSimpleEndpoint None "/events/1699999999999" = "events".
Proof.
  assert (all_bytes is_digit "1699999999999" = true) as Hd by (by vm_compute).
  assert (6 ≤ len "1699999999999") as Hlen by (by vm_compute).
  split; [exact Hd|]. split; [exact Hlen|].
  destruct (classify_drops_numbers 1 "1699999999999" Hd Hlen) as (Hc & _).
  split; [exact Hc|by vm_compute].
Defined.

(** *** The cache *)

Lemma cacheInvariant_fresh cfg : cacheInvariant cfg (NewDPNState cfg).
Proof.
  unfold cacheInvariant, NewDPNState. cbn. split_and!; [done|done|..].
  - rewrite map_size_empty. lia.
  - intros key cached. by rewrite lookup_empty.
Qed.

Lemma cacheInvariant_handle cfg normalized original state :
  cacheInvariant cfg state →
  cacheInvariant cfg (handleCollisionsAndCardinalityWithState normalized original state).2.
Proof.
  intros (Hcfg & Hbucket & Hsize & Hkeys). unfold handleCollisionsAndCardinalityWithState.
  destruct (_ <=? _); [unfold cacheInvariant; cbn; split_and!; [done|lia|done..]|].
  match goal with |- context [if ?b then _ else _] => destruct b end; done.
Qed.

Lemma cacheInvariant_store cfg path result state :
  cacheInvariant cfg state →
  cacheInvariant cfg (storeInCache (cleanPath path) result state).
Proof.
  intros (Hcfg & Hbucket & Hsize & Hkeys). unfold cacheInvariant, storeInCache. cbn.
  rewrite Hcfg. split_and!; [done|done|..].
  - destruct (CacheSize cfg <=? Z.of_nat (size (cache state))) eqn:Hfull.
    + rewrite insert_empty, map_size_singleton. lia.
    + apply Z.leb_gt in Hfull.
      destruct (cache state !! cleanPath path) eqn:Hin.
      * rewrite map_size_insert_Some by done. lia.
      * rewrite map_size_insert_None by done. lia.
  - intros key cached.
    destruct (decide (key = cleanPath path)) as [->|Hne]; [intros _; apply cleanPath_bytes|].
    rewrite lookup_insert_ne by done.
    destruct (CacheSize cfg <=? _); [by rewrite lookup_empty|apply Hkeys].
Qed.

Lemma cacheInvariant_extract cfg path state :
  cacheInvariant cfg state → cacheInvariant cfg (ExtractSimpleEndpointWithState path state).2.
Proof.
  intros Hinv. unfold ExtractSimpleEndpointWithState.
  destruct (cache state !! path); [done|]. cbv zeta.
  destruct (_ || _); [done|]. destruct (_ =? _)%nat; [done|].
  match goal with
  | |- context [handleCollisionsAndCardinalityWithState ?n ?o state] =>
      pose proof (cacheInvariant_handle cfg n o state Hinv) as H;
      destruct (handleCollisionsAndCardinalityWithState n o state) as [r st']
  end.
  cbn [snd] in *. by apply cacheInvariant_store.
Qed.

Lemma cacheInvariant_runCalls cfg calls : ∀ state,
  cacheInvariant cfg state → cacheInvariant cfg (runCalls calls state).
Proof.
  induction calls as [|c calls IH]; intros state Hinv; [done|].
  cbn. apply IH. destruct c; [by apply cacheInvariant_extract|by apply cacheInvariant_handle].
Qed.




(** *** The statistics *)

(** X9.  The statistics of a state reached from a fresh one by any calls,
    under a ceiling that is not negative: the number of recorded keys is at
    most "unique_endpoints", which counts the calls admitted and is at most
    "max_endpoints"; "endpoints_bucketed" is not negative; "cache_size" is at
    most the size of the cache of the configuration (1 when that is less);
    the ratio is the quotient of the count and the ceiling. *)
Theorem GetCardinalityStats_bounds (cfg : DPNConfig) (calls : list call) :
  0 ≤ MaxEndpoints cfg →
  let stats := GetCardinalityStatsWithState (runCalls calls (NewDPNState cfg)) in
  ∃ unique bucketed cached recorded : Z,
    stats !! "unique_endpoints" = Some (VInt unique) ∧
    stats !! "endpoints_bucketed" = Some (VInt bucketed) ∧
    stats !! "cache_size" = Some (VInt cached) ∧
    stats !! "collision_map_size" = Some (VInt recorded) ∧
    stats !! "max_endpoints" = Some (VInt (MaxEndpoints cfg)) ∧
    stats !! "cardinality_ratio" =
      Some (VFloat64 (Float64.of_Z unique / Float64.of_Z (MaxEndpoints cfg))%float) ∧
    0 ≤ recorded ≤ unique ∧ unique ≤ MaxEndpoints cfg ∧
    0 ≤ bucketed ∧ 0 ≤ cached ≤ Z.max 1 (CacheSize cfg).
Proof.
  intros Hpos stats.
  set (state := runCalls calls (NewDPNState cfg)) in *.
  assert (within cfg state) as (Hcfg & Hsize & Hmax).
  { apply within_runCalls. unfold within, NewDPNState. cbn.
    rewrite dom_empty_L, size_empty. split; [done|lia]. }
  pose proof (cacheInvariant_runCalls cfg calls _ (cacheInvariant_fresh cfg))
    as (_ & Hbucket & Hcache & _). fold state in Hbucket, Hcache.
  exists (endpointCount state), (endpointsBucketed state),
    (Z.of_nat (size (cache state))), (Z.of_nat (size (endpointCollisions state))).
  subst stats. unfold GetCardinalityStatsWithState. rewrite Hcfg.
  rewrite size_dom in Hsize.
  split_and!; try done; try lia.
Qed.

Lemma stats_of_three_calls :
  let cfg := {| MaxEndpoints := 2; CacheSize := 8192 |} in
  let calls := [Extract "/users"; Extract "/orders"; Extract "/carts"] in
  let stats := GetCardinalityStatsWithState (runCalls calls (NewDPNState cfg)) in
  0 ≤ MaxEndpoints cfg ∧
  stats !! "unique_endpoints" = Some (VInt 2) ∧
  stats !! "endpoints_bucketed" = Some (VInt 1) ∧
  stats !! "cache_size" = Some (VInt 3) ∧
  stats !! "collision_map_size" = Some (VInt 2) ∧
  stats !! "max_endpoints" = Some (VInt 2).
Proof.
  intros cfg calls stats.
  assert (0 ≤ MaxEndpoints cfg) as Hpos by (by vm_compute).
  split; [exact Hpos|].
  destruct (GetCardinalityStats_bounds cfg calls Hpos)
    as (unique & bucketed & cached & recorded & _ & _ & _ & _ & Hmax & _).
  split; [by vm_compute|]. split; [by vm_compute|]. split; [by vm_compute|].
  split; [by vm_compute|]. exact Hmax.
Defined.

End NormalizerFacts.

(* ===================================================================== *)
(** ** reporting/aggregator: strategy, time window, checks and keys *)
(* ===================================================================== *)

Module AggregateFacts.
Import GoStrings Aggregator AggregatorProps AggregateProps AggregatorFiles AggregatorFacts.

(** *** The merge strategy *)

Lemma fold_left_ext {A B} (f g : A → B → A) (l : list B) :
  (∀ a b, f a b = g a b) → ∀ a, fold_left f l a = fold_left g l a.
Proof. intros Hfg. induction l as [|b l IH]; intros a; [done|]. cbn. by rewrite Hfg, IH. Qed.

Lemma mergeMetric_strategy target source strategy strategy' :
  mergeMetric target source strategy = mergeMetric target source strategy'.
Proof. done. Qed.

Lemma processSnapshots_strategy config config' metricsList : ∀ i st,
  MaxEndpoints config' = MaxEndpoints config → NoBucket config' = NoBucket config →
  processSnapshots config' i st metricsList = processSnapshots config i st metricsList.
Proof.
  intros i st Hmax Hbucket. revert i st.
  induction metricsList as [|metrics rest IH]; intros i st; [done|].
  cbn [processSnapshots]. rewrite IH. f_equal.
  unfold processSnapshot. apply fold_left_ext. intros st0 [name metric].
  unfold processMetric, mergeInto. rewrite Hmax, Hbucket.
  destruct (isGlobalMetric name); [done|].
  destruct (MaxEndpoints config <=? endpointCount st0); [|done].
  by destruct (NoBucket config).
Qed.

(** X10.  The merge strategy is not read: [mergeMetric] returns the same
    metric under every strategy, and [AggregateMetrics] the same aggregate
    whatever [MergePercentiles] says ("weighted", "sketch" or any other
    text). *)
Theorem MergePercentiles_is_not_read
    (now : Z) (metricsList : list Metrics) (config : Config) (strategy : string) :
  (∀ target source strategy', mergeMetric target source strategy =
                              mergeMetric target source strategy') ∧
  AggregateMetrics now metricsList
    {| MaxEndpoints := MaxEndpoints config; NoBucket := NoBucket config;
       MergePercentiles := strategy |} =
  AggregateMetrics now metricsList config.
Proof.
  split; [intros; apply mergeMetric_strategy|].
  unfold AggregateMetrics, mainLoop.
  destruct (length metricsList =? 0)%nat; [done|].
  by rewrite (processSnapshots_strategy config).
Qed.

(** *** Counters, gauges and kinds *)

(** X11.  Merging two counters adds their counts, each read by
    [getFloat64] with the default 0.  When the sum is greater than 0 the rate
    of the target becomes the sum divided by the duration of the target (1
    when it has none; the duration of the source is not read); otherwise the
    rate is left as it was.  No other entry of the target changes. *)
Theorem mergeCounterMetric_adds (target source : Metric) :
  let tv := Values target in
  let count := (getFloat64 tv "count" 0 + getFloat64 (Values source) "count" 0)%float in
  let merged := Values (mergeCounterMetric target source) in
  Type_ (mergeCounterMetric target source) = Type_ target ∧
  merged !! "count" = Some (VFloat64 count) ∧
  (Float64.gt count 0 = true →
   merged !! "rate" = Some (VFloat64 (count / getFloat64 tv "duration" 1)%float)) ∧
  (Float64.gt count 0 = false → merged !! "rate" = tv !! "rate") ∧
  (∀ key, key ≠ "count" → key ≠ "rate" → merged !! key = tv !! key).
Proof.
  intros tv count merged. subst merged. unfold mergeCounterMetric. cbn [Type_ Values].
  fold tv. fold count.
  destruct (Float64.gt count 0); split_and!; try done.
  - by rewrite lookup_insert_ne, lookup_insert_eq.
  - intros _. rewrite lookup_insert_eq. by rewrite getFloat64_insert_ne.
  - intros key Hc Hr. by rewrite !lookup_insert_ne.
  - by rewrite lookup_insert_eq.
  - intros _. by rewrite lookup_insert_ne.
  - intros key Hc Hr. by rewrite lookup_insert_ne.
Qed.

Lemma dom_mergePercentile sourceValues targetCount sourceCount totalCount targetValues p :
  dom targetValues ⊆
  dom (mergePercentile sourceValues targetCount sourceCount totalCount targetValues p).
Proof.
  unfold mergePercentile.
  destruct (targetValues !! p); [|done]. destruct (sourceValues !! p); [|done].
  rewrite dom_insert_L. apply union_subseteq_r.
Qed.

Lemma dom_fold_mergePercentile sourceValues targetCount sourceCount totalCount ps :
  ∀ targetValues,
  dom targetValues ⊆
  dom (fold_left (mergePercentile sourceValues targetCount sourceCount totalCount)
         ps targetValues).
Proof.
  induction ps as [|p ps IH]; intros targetValues; [done|]. cbn.
  etransitivity; [|apply IH]. apply dom_mergePercentile.
Qed.

Lemma dom_insert_grows (m : gmap string value) key v : dom m ⊆ dom (<[key := v]> m).
Proof. rewrite dom_insert_L. apply union_subseteq_r. Qed.

Lemma dom_mergeGaugeMetric target source :
  dom (Values target) ⊆ dom (Values (mergeGaugeMetric target source)).
Proof.
  unfold mergeGaugeMetric. cbn [Values]. intros key [v Hv]%elem_of_dom.
  apply elem_of_dom. rewrite lookup_merge, Hv. unfold diag_None.
  destruct (Values source !! key) as [[s| | |]|]; cbn; try by eexists.
  destruct v; by eexists.
Qed.

(** X12.  What a merge never does.  [mergeMetric] never changes the kind
    of the target and never removes one of its entries.  It returns the
    target as it is when the kinds of the two metrics differ and when the kind
    is none of trend, counter, rate and gauge: the samples of the source are
    then lost.  On gauges an entry of the source that is not a float64 is not
    read, and an entry of the target that is not a float64 is kept. *)
Theorem mergeMetric_keeps_target (target source : Metric) (strategy : string) :
  let merged := mergeMetric target source strategy in
  Type_ merged = Type_ target ∧
  dom (Values target) ⊆ dom (Values merged) ∧
  (Type_ target ≠ Type_ source → merged = target) ∧
  (Type_ target ∉ ["trend"; "counter"; "rate"; "gauge"] → merged = target) ∧
  (Type_ target = "gauge" → Type_ source = "gauge" →
   ∀ key,
     Values merged !! key =
       match Values source !! key, Values target !! key with
       | Some (VFloat64 s), Some (VFloat64 t) => Some (VFloat64 (Float64.Max t s))
       | Some (VFloat64 s), None => Some (VFloat64 s)
       | _, kept => kept
       end).
Proof.
  cbv zeta. unfold mergeMetric.
  destruct (String.eqb (Type_ target) (Type_ source)) eqn:Hsame; cbn [negb].
  2:{ apply String.eqb_neq in Hsame. split_and!; try done.
      intros Hg Hs. congruence. }
  apply String.eqb_eq in Hsame.
  destruct (String.eqb (Type_ target) "trend") eqn:Htrend.
  { apply String.eqb_eq in Htrend. split_and!.
    - unfold mergeTrendMetric. by destruct (PrimFloat.eqb _ 0).
    - unfold mergeTrendMetric. destruct (PrimFloat.eqb _ 0); [done|]. cbn [Values].
      destruct (Float64.gt _ 0).
      + etransitivity; [|apply dom_insert_grows].
        etransitivity; [|apply dom_fold_mergePercentile].
        do 4 (etransitivity; [|apply dom_insert_grows]). done.
      + etransitivity; [|apply dom_fold_mergePercentile].
        do 4 (etransitivity; [|apply dom_insert_grows]). done.
    - congruence.
    - intros Hnot. exfalso. apply Hnot. rewrite Htrend. set_unfold. auto.
    - congruence. }
  destruct (String.eqb (Type_ target) "counter") eqn:Hcounter.
  { apply String.eqb_eq in Hcounter. split_and!.
    - done.
    - unfold mergeCounterMetric. cbn [Values]. destruct (Float64.gt _ 0).
      + do 2 (etransitivity; [|apply dom_insert_grows]). done.
      + apply dom_insert_grows.
    - congruence.
    - intros Hnot. exfalso. apply Hnot. rewrite Hcounter. set_unfold. auto.
    - congruence. }
  destruct (String.eqb (Type_ target) "rate") eqn:Hrate.
  { apply String.eqb_eq in Hrate. split_and!.
    - done.
    - unfold mergeRateMetric. cbn [Values]. destruct (Float64.gt _ 0).
      + do 3 (etransitivity; [|apply dom_insert_grows]). done.
      + do 2 (etransitivity; [|apply dom_insert_grows]). done.
    - congruence.
    - intros Hnot. exfalso. apply Hnot. rewrite Hrate. set_unfold. auto.
    - congruence. }
  destruct (String.eqb (Type_ target) "gauge") eqn:Hgauge.
  { apply String.eqb_eq in Hgauge. split_and!.
    - done.
    - apply dom_mergeGaugeMetric.
    - congruence.
    - intros Hnot. exfalso. apply Hnot. rewrite Hgauge. set_unfold. auto.
    - intros _ _ key. unfold mergeGaugeMetric. cbn [Values].
      rewrite lookup_merge. unfold diag_None, mergeGaugeValue.
      destruct (Values source !! key) as [[s| | |]|], (Values target !! key) as [[t| | |]|];
        done. }
  apply String.eqb_neq in Hgauge. by split_and!.
Qed.

(** *** The time window *)

Section Loop.
Variable config : Config.

Lemma processMetric_frame st e :
  result_StartTime (result (processMetric config st e)) = result_StartTime (result st) ∧
  result_EndTime (result (processMetric config st e)) = result_EndTime (result st) ∧
  result_Checks (result (processMetric config st e)) = result_Checks (result st).
Proof.
  destruct e as [name metric]. unfold processMetric.
  destruct (isGlobalMetric name); [done|].
  destruct (MaxEndpoints config <=? endpointCount st); [|done].
  by destruct (NoBucket config).
Qed.

Lemma fold_processMetric_frame entries : ∀ st,
  result_StartTime (result (fold_left (processMetric config) entries st)) =
    result_StartTime (result st) ∧
  result_EndTime (result (fold_left (processMetric config) entries st)) =
    result_EndTime (result st) ∧
  result_Checks (result (fold_left (processMetric config) entries st)) =
    result_Checks (result st).
Proof.
  induction entries as [|e entries IH]; intros st; [done|]. cbn.
  destruct (IH (processMetric config st e)) as (-> & -> & ->). apply processMetric_frame.
Qed.

Lemma processSnapshot_times i st metrics :
  let st' := processSnapshot config i st metrics in
  result_StartTime (result st') =
    (if (i =? 0)%nat then StartTime metrics
     else Z.min (result_StartTime (result st)) (StartTime metrics)) ∧
  result_EndTime (result st') = Z.max (result_EndTime (result st)) (EndTime metrics) ∧
  result_Checks (result st') =
    fold_left processCheck (RootGroup_Checks metrics) (result_Checks (result st)).
Proof.
  cbv zeta. unfold processSnapshot.
  match goal with |- context [fold_left (processMetric config) ?l ?s] =>
    destruct (fold_processMetric_frame l s) as (-> & -> & ->) end.
  cbn [result result_StartTime result_EndTime result_Checks].
  split_and!; [| |done].
  - destruct (i =? 0)%nat; [done|]. cbn [orb].
    destruct (StartTime metrics <? result_StartTime (result st)) eqn:H; lia.
  - destruct (result_EndTime (result st) <? EndTime metrics) eqn:H; lia.
Qed.

Lemma processSnapshots_times metricsList : ∀ i st,
  (0 < i)%nat →
  let st' := processSnapshots config i st metricsList in
  result_StartTime (result st') =
    fold_left Z.min (StartTime <$> metricsList) (result_StartTime (result st)) ∧
  result_EndTime (result st') =
    fold_left Z.max (EndTime <$> metricsList) (result_EndTime (result st)) ∧
  result_Checks (result st') =
    fold_left processCheck (concat (RootGroup_Checks <$> metricsList))
      (result_Checks (result st)).
Proof.
  induction metricsList as [|metrics rest IH]; intros i st Hi; [done|].
  cbn [processSnapshots fmap list_fmap fold_left concat].
  destruct (IH (S i) (processSnapshot config i st metrics) ltac:(lia)) as (-> & -> & ->).
  destruct (processSnapshot_times i st metrics) as (-> & -> & ->).
  rewrite fold_left_app.
  destruct (i =? 0)%nat eqn:Hz; [apply Nat.eqb_eq in Hz; lia|]. done.
Qed.

End Loop.

Lemma fold_min_spec l : ∀ a,
  (∀ x, x ∈ a :: l → fold_left Z.min l a ≤ x) ∧ fold_left Z.min l a ∈ a :: l.
Proof.
  induction l as [|b l IH]; intros a; cbn.
  - split; [|apply list_elem_of_here]. by intros x ->%list_elem_of_singleton.
  - destruct (IH (Z.min a b)) as [Hle Hin]. split.
    + intros x Hx. pose proof (Hle (Z.min a b) (list_elem_of_here _ _)).
      apply elem_of_cons in Hx as [->|[->|Hx]%elem_of_cons]; [lia|lia|].
      apply Hle. by apply list_elem_of_further.
    + apply elem_of_cons in Hin as [Heq|Hin].
      * rewrite Heq. destruct (Z.min_spec a b) as [[_ ->]|[_ ->]];
          [apply list_elem_of_here|apply list_elem_of_further, list_elem_of_here].
      * by do 2 apply list_elem_of_further.
Qed.

Lemma fold_max_spec l : ∀ a,
  (∀ x, x ∈ a :: l → x ≤ fold_left Z.max l a) ∧ fold_left Z.max l a ∈ a :: l.
Proof.
  induction l as [|b l IH]; intros a; cbn.
  - split; [|apply list_elem_of_here]. by intros x ->%list_elem_of_singleton.
  - destruct (IH (Z.max a b)) as [Hle Hin]. split.
    + intros x Hx. pose proof (Hle (Z.max a b) (list_elem_of_here _ _)).
      apply elem_of_cons in Hx as [->|[->|Hx]%elem_of_cons]; [lia|lia|].
      apply Hle. by apply list_elem_of_further.
    + apply elem_of_cons in Hin as [Heq|Hin].
      * rewrite Heq. destruct (Z.max_spec a b) as [[_ ->]|[_ ->]];
          [apply list_elem_of_further, list_elem_of_here|apply list_elem_of_here].
      * by do 2 apply list_elem_of_further.
Qed.

Lemma addGlobalMetrics_frame r metricsList :
  result_StartTime (addGlobalMetrics r metricsList) = result_StartTime r ∧
  result_EndTime (addGlobalMetrics r metricsList) = result_EndTime r ∧
  result_Checks (addGlobalMetrics r metricsList) = result_Checks r.
Proof. done. Qed.

(** The times and the checks of the aggregate, as folds over the snapshots. *)
Lemma AggregateMetrics_folds now first rest config :
  ∃ aggregate,
    AggregateMetrics now (first :: rest) config = Some aggregate ∧
    result_StartTime aggregate = fold_left Z.min (StartTime <$> rest) (StartTime first) ∧
    result_EndTime aggregate = fold_left Z.max (EndTime <$> (first :: rest)) now ∧
    result_Checks aggregate =
      fold_left processCheck (concat (RootGroup_Checks <$> (first :: rest))) ∅.
Proof.
  exists (addGlobalMetrics (result (mainLoop now (first :: rest) config)) (first :: rest)).
  split; [done|].
  destruct (addGlobalMetrics_frame (result (mainLoop now (first :: rest) config))
              (first :: rest)) as (-> & -> & ->).
  unfold mainLoop. cbn [processSnapshots].
  destruct (processSnapshots_times config rest 1
              (processSnapshot config 0 (initialLoop now) first) ltac:(lia)) as (-> & -> & ->).
  destruct (processSnapshot_times config 0 (initialLoop now) first) as (-> & -> & ->).
  cbn [Nat.eqb initialLoop result result_StartTime result_EndTime result_Checks
       fmap list_fmap fold_left concat].
  by rewrite fold_left_app.
Qed.

(** X13.  The time window of the aggregate.  Its start is the earliest
    start of the snapshots.  Its end is the latest of the ends of the
    snapshots and of the instant at which the aggregate was created: it is
    never before that instant, so for snapshots that all ended earlier it is
    the time of the aggregation, not the end of the runs. *)
Theorem AggregateMetrics_time_window
    (now : Z) (metricsList : list Metrics) (config : Config) (aggregate : Aggregate) :
  AggregateMetrics now metricsList config = Some aggregate →
  (∀ metrics, metrics ∈ metricsList → result_StartTime aggregate ≤ StartTime metrics) ∧
  (∃ metrics, metrics ∈ metricsList ∧ result_StartTime aggregate = StartTime metrics) ∧
  now ≤ result_EndTime aggregate ∧
  (∀ metrics, metrics ∈ metricsList → EndTime metrics ≤ result_EndTime aggregate) ∧
  (result_EndTime aggregate = now ∨
   ∃ metrics, metrics ∈ metricsList ∧ result_EndTime aggregate = EndTime metrics).
Proof.
  destruct metricsList as [|first rest]; [done|].
  destruct (AggregateMetrics_folds now first rest config) as (a & -> & Hstart & Hend & _).
  intros [= <-].
  destruct (fold_min_spec (StartTime <$> rest) (StartTime first)) as [Hmin Hmin_in].
  destruct (fold_max_spec (EndTime <$> (first :: rest)) now) as [Hmax Hmax_in].
  rewrite <- Hstart in Hmin, Hmin_in. rewrite <- Hend in Hmax, Hmax_in.
  split_and!.
  - intros metrics Hin. apply Hmin.
    change (StartTime first :: (StartTime <$> rest)) with (StartTime <$> (first :: rest)).
    by apply list_elem_of_fmap_2.
  - change (StartTime first :: (StartTime <$> rest)) with (StartTime <$> (first :: rest))
      in Hmin_in.
    apply list_elem_of_fmap in Hmin_in as (metrics & Heq & Hin). by exists metrics.
  - apply Hmax, list_elem_of_here.
  - intros metrics Hin. apply Hmax, list_elem_of_further. by apply list_elem_of_fmap_2.
  - apply elem_of_cons in Hmax_in as [Heq|Hin]; [by left|right].
    apply list_elem_of_fmap in Hin as (metrics & Heq & Hin). by exists metrics.
Qed.

Lemma time_window_of_two_snapshots :
  let metricsList := [snapshot 20 30 [] []; snapshot 10 25 [] []] in
  let config := {| MaxEndpoints := 2000; NoBucket := false; MergePercentiles := "weighted" |} in
  (result_StartTime <$> AggregateMetrics 100 metricsList config) = Some 10 ∧
  (result_EndTime <$> AggregateMetrics 100 metricsList config) = Some 100 ∧
  (∀ aggregate, AggregateMetrics 100 metricsList config = Some aggregate →
                100 ≤ result_EndTime aggregate).
Proof.
  intros metricsList config. split; [by vm_compute|]. split; [by vm_compute|].
  intros aggregate Hagg.
  by destruct (AggregateMetrics_time_window 100 metricsList config aggregate Hagg)
    as (_ & _ & Hnow & _).
Defined.

(** *** The checks *)

Lemma wrap64_small n : isInt64 n → wrap64 n = n.
Proof. unfold isInt64, wrap64. intros Hn. rewrite Z.mod_small; lia. Qed.

Lemma wrap64_isInt64 n : isInt64 (wrap64 n).
Proof.
  unfold isInt64, wrap64. pose proof (Z.mod_pos_bound (n + 2 ^ 63) (2 ^ 64)). lia.
Qed.

Lemma wrap64_add_l a b : wrap64 (wrap64 a + b) = wrap64 (a + b).
Proof.
  unfold wrap64. f_equal.
  replace ((a + 2 ^ 63) mod 2 ^ 64 - 2 ^ 63 + b + 2 ^ 63)
    with ((a + 2 ^ 63) mod 2 ^ 64 + b) by lia.
  rewrite Zplus_mod_idemp_l. f_equal. lia.
Qed.

Lemma total_cons counter check checks :
  total counter (check :: checks) = counter check + total counter checks.
Proof. done. Qed.

(** The entry of one name after the checks [l] have been merged into [m]. *)
Lemma fold_processCheck l : ∀ (m : gmap string TestCheck) name,
  (∀ c, m !! name = Some c → isInt64 (Passes c) ∧ isInt64 (Fails c)) →
  Forall (λ e, isInt64 (Passes e.2) ∧ isInt64 (Fails e.2)) l →
  fold_left processCheck l m !! name =
    match m !! name, snd <$> filter (λ e, e.1 = name) l with
    | Some c0, occ =>
        Some {| Name := Name c0; Path := Path c0; ID := ID c0;
                Passes := wrap64 (Passes c0 + total Passes occ);
                Fails := wrap64 (Fails c0 + total Fails occ) |}
    | None, [] => None
    | None, first :: later =>
        Some {| Name := Name first; Path := Path first; ID := ID first;
                Passes := wrap64 (total Passes (first :: later));
                Fails := wrap64 (total Fails (first :: later)) |}
    end.
Proof.
  induction l as [|[k c] l IH]; intros m name Hm Hl.
  - cbn. destruct (m !! name) as [[n p i ps fs]|] eqn:Hc; [|done].
    destruct (Hm _ eq_refl) as [Hp Hf]. cbn in *.
    unfold total. cbn. by rewrite !Z.add_0_r, !wrap64_small.
  - apply Forall_cons in Hl as [[Hcp Hcf] Hl]. cbn [fold_left snd] in *.
    destruct (decide (k = name)) as [->|Hne].
    + rewrite filter_cons_True by done. rewrite fmap_cons. cbn [snd].
      unfold processCheck at 2.
      destruct (m !! name) as [c0|] eqn:Hc.
      * rewrite IH; [|rewrite lookup_insert_eq; intros ? [= <-]; cbn;
                       split; apply wrap64_isInt64|done].
        rewrite lookup_insert_eq. cbn [Name Path ID Passes Fails].
        rewrite !wrap64_add_l, !total_cons. do 2 f_equal; f_equal; lia.
      * rewrite IH; [|rewrite lookup_insert_eq; by intros ? [= <-]|done].
        rewrite lookup_insert_eq. cbn [Name Path ID Passes Fails].
        by rewrite !total_cons.
    + rewrite filter_cons_False by done.
      assert (processCheck m (k, c) !! name = m !! name) as Hsame.
      { unfold processCheck. destruct (m !! k); by rewrite lookup_insert_ne. }
      rewrite IH; [by rewrite Hsame|by rewrite Hsame|done].
Qed.

Lemma int64Checks_concat metricsList :
  int64Checks metricsList →
  Forall (λ e, isInt64 (Passes e.2) ∧ isInt64 (Fails e.2))
    (concat (RootGroup_Checks <$> metricsList)).
Proof.
  induction 1 as [|metrics rest Hm _ IH]; [done|]. cbn. by apply Forall_app.
Qed.

(** The entry of a check of the aggregate, in terms of its occurrences. *)
Lemma AggregateMetrics_check now metricsList config aggregate name :
  int64Checks metricsList →
  AggregateMetrics now metricsList config = Some aggregate →
  result_Checks aggregate !! name =
    match checkOccurrences name metricsList with
    | [] => None
    | first :: later =>
        Some {| Name := Name first; Path := Path first; ID := ID first;
                Passes := wrap64 (total Passes (first :: later));
                Fails := wrap64 (total Fails (first :: later)) |}
    end.
Proof.
  intros Hint Hagg. destruct metricsList as [|first rest]; [done|].
  destruct (AggregateMetrics_folds now first rest config) as (a & Ha & _ & _ & Hchecks).
  rewrite Ha in Hagg. injection Hagg as <-. rewrite Hchecks.
  rewrite fold_processCheck; [|by rewrite lookup_empty|by apply int64Checks_concat].
  by rewrite lookup_empty.
Qed.

(** X14.  The checks of the aggregate.  A check is in the aggregate exactly
    when a snapshot has a check of that name; its passes and its fails are
    the sums over all the checks of that name, as [int64] values; its name,
    path and id are those of the first one visited. *)
Theorem AggregateMetrics_check_totals
    (now : Z) (metricsList : list Metrics) (config : Config) (aggregate : Aggregate)
    (name : string) :
  int64Checks metricsList →
  AggregateMetrics now metricsList config = Some aggregate →
  match checkOccurrences name metricsList with
  | [] => result_Checks aggregate !! name = None
  | first :: later =>
      result_Checks aggregate !! name =
        Some {| Name := Name first; Path := Path first; ID := ID first;
                Passes := wrap64 (total Passes (first :: later));
                Fails := wrap64 (total Fails (first :: later)) |}
  end.
Proof.
  intros Hint Hagg. rewrite (AggregateMetrics_check now metricsList config aggregate name)
    by done.
  by destruct (checkOccurrences name metricsList).
Qed.

Lemma check_totals_of_two_snapshots :
  let login p f := {| Name := "login ok"; Path := "::login ok"; ID := "c1";
                      Passes := p; Fails := f |} in
  let metricsList := [snapshot 0 1 [("login ok", login 8 2)] [];
                      snapshot 0 1 [("login ok", login 9 1)] []] in
  let config := {| MaxEndpoints := 2000; NoBucket := false; MergePercentiles := "weighted" |} in
  int64Checks metricsList ∧
  ((λ aggregate, result_Checks aggregate !! "login ok") <$>
     AggregateMetrics 5 metricsList config) = Some (Some (login 17 3)).
Proof.
  intros login metricsList config.
  assert (int64Checks metricsList) as Hint.
  { unfold int64Checks, isInt64. repeat constructor; cbn; lia. }
  split; [exact Hint|].
  destruct (AggregateMetrics 5 metricsList config) as [aggregate|] eqn:Hagg; [|done].
  pose proof (AggregateMetrics_check_totals 5 metricsList config aggregate "login ok"
                Hint Hagg) as Hcheck.
  cbn. f_equal. rewrite Hcheck. by vm_compute.
Defined.

(** *** The keys of the aggregate *)

(** The name of the bucket is any name, for the reasoning on sets of keys. *)
Ltac any_bucket :=
  let bucket := fresh "bucket" in set (bucket := "other") in *; clearbody bucket.

Section Keys.
Variable config : Config.

(** The part of the loop variables that the metrics decide. *)
#[local] Abbreviation view st :=
  (result_Metrics (result st), endpointMap st, endpointCount st, endpointsBucketed st).

Lemma processMetric_view st st' e :
  view st = view st' → view (processMetric config st e) = view (processMetric config st' e).
Proof.
  intros [= Hm He Hc Hb]. destruct e as [name metric]. unfold processMetric.
  rewrite Hm, He, Hc, Hb.
  destruct (isGlobalMetric name); [by rewrite Hm, He, Hc, Hb|].
  destruct (MaxEndpoints config <=? endpointCount st'); [|done].
  destruct (NoBucket config); [by rewrite Hm, He, Hc, Hb|done].
Qed.

Lemma fold_processMetric_view entries : ∀ st st',
  view st = view st' →
  view (fold_left (processMetric config) entries st) =
  view (fold_left (processMetric config) entries st').
Proof.
  induction entries as [|e entries IH]; intros st st' Hv; [done|].
  cbn. by apply IH, processMetric_view.
Qed.

(** For the metrics the loop over the snapshots is one loop over all their
    entries. *)
Lemma processSnapshots_view metricsList : ∀ i st,
  view (processSnapshots config i st metricsList) =
  view (fold_left (processMetric config) (concat (Metrics_ <$> metricsList)) st).
Proof.
  induction metricsList as [|metrics rest IH]; intros i st; [done|].
  cbn [processSnapshots fmap list_fmap concat]. rewrite fold_left_app, IH.
  apply fold_processMetric_view. unfold processSnapshot.
  by apply fold_processMetric_view.
Qed.

Lemma endpointNames_snoc (entries : list (string * Metric)) name metric :
  endpointNames (entries ++ [(name, metric)]) =
    if isGlobalMetric name then endpointNames entries
    else endpointNames entries ∪ {[name]}.
Proof.
  unfold endpointNames. rewrite filter_app, fmap_app, list_to_set_app_L.
  destruct (isGlobalMetric name) eqn:Hg.
  - rewrite filter_cons_False, filter_nil by (cbn [fst]; rewrite Hg; done).
    cbn [fmap list_fmap list_to_set]. by rewrite (right_id_L ∅ (∪)).
  - rewrite filter_cons_True, filter_nil by done.
    cbn [fmap list_fmap list_to_set fst]. by rewrite (right_id_L ∅ (∪)).
Qed.

Lemma length_occurring_snoc (entries : list (string * Metric)) name metric :
  Z.of_nat (length (filter (λ e, isGlobalMetric e.1 = false) (entries ++ [(name, metric)]))) =
    Z.of_nat (length (filter (λ e, isGlobalMetric e.1 = false) entries)) +
    (if isGlobalMetric name then 0 else 1).
Proof.
  rewrite filter_app, length_app.
  destruct (isGlobalMetric name) eqn:Hg.
  - rewrite filter_cons_False, filter_nil by (cbn [fst]; rewrite Hg; done). cbn. lia.
  - rewrite filter_cons_True, filter_nil by done. cbn. lia.
Qed.

(** What the loop keeps, entry after entry. *)
Lemma fold_processMetric_keys now (entries : list (string * Metric)) :
  let st := fold_left (processMetric config) entries (initialLoop now) in
  let keys := dom (result_Metrics (result st)) in
  let n := Z.of_nat (length (filter (λ e, isGlobalMetric e.1 = false) entries)) in
  selfMapped st ∧
  keys ⊆ endpointNames entries ∪ {["other"]} ∧
  (NoBucket config = true → keys ⊆ endpointNames entries) ∧
  (n ≤ MaxEndpoints config → keys = endpointNames entries ∧ endpointCount st = n).
Proof.
  induction entries as [|[name metric] entries IH] using rev_ind.
  - cbn. unfold selfMapped, endpointNames. cbn. rewrite dom_empty_L.
    split_and!; [by intros ?? ?%lookup_empty_Some|set_solver..|done].
  - cbv zeta in *. rewrite fold_left_app. cbn [fold_left].
    set (st := fold_left (processMetric config) entries (initialLoop now)) in *.
    destruct IH as (Hself & Hsub & Hnb & Hfull).
    rewrite endpointNames_snoc, length_occurring_snoc.
    destruct (isGlobalMetric name) eqn:Hg.
    { rewrite processMetric_global by done. rewrite Z.add_0_r. done. }
    destruct (Z_lt_le_dec (endpointCount st) (MaxEndpoints config)) as [Hlt|Hle].
    + destruct (processMetric_admitted config st name metric Hg Hlt)
        as (Hc & _ & key & Hmap & Hmetrics & Hkey).
      assert (key = name) as ->.
      { apply Hkey. destruct (endpointMap st !! name) as [original|] eqn:Hin; [|by left].
        right. by rewrite (Hself _ _ Hin). }
      rewrite Hmetrics, dom_mergeInto.
      split_and!.
      * intros k v. rewrite Hmap.
        destruct (decide (k = name)) as [->|Hne];
          [rewrite lookup_insert_eq; by intros [= <-]|].
        rewrite lookup_insert_ne by done. apply Hself.
      * clear -Hsub. any_bucket. set_solver.
      * intros Hb. specialize (Hnb Hb). clear -Hnb. set_solver.
      * intros Hn. destruct Hfull as [Hkeys Hcount]; [lia|].
        rewrite Hkeys, Hc, Hcount. split; [clear; set_solver|lia].
    + destruct (processMetric_exhausted config st name metric Hg Hle) as (Hc & Hmap & Hrest).
      split_and!.
      * intros k v. rewrite Hmap. apply Hself.
      * destruct (NoBucket config); [rewrite Hrest; any_bucket; set_solver|].
        destruct Hrest as [_ ->]. rewrite dom_mergeInto. any_bucket. set_solver.
      * intros Hb. rewrite Hb in Hrest. rewrite Hrest. specialize (Hnb Hb). set_solver.
      * intros Hn. exfalso.
        assert (Z.of_nat (length (filter (λ e, isGlobalMetric e.1 = false) entries))
                ≤ MaxEndpoints config) as Hn' by lia.
        destruct (Hfull Hn') as [_ Hcount]. lia.
Qed.

End Keys.

Lemma dom_collectGlobal entries : ∀ g,
  dom (fold_left collectGlobal entries g) = dom g ∪ globalNames entries.
Proof.
  unfold globalNames.
  induction entries as [|[name metric] entries IH]; intros g; [cbn; set_solver|].
  cbn [fold_left]. rewrite IH. unfold collectGlobal.
  destruct (isGlobalMetric name) eqn:Hg.
  - rewrite filter_cons_True by done. rewrite dom_mergeInto. cbn. set_solver.
  - rewrite filter_cons_False by (cbn [fst]; rewrite Hg; done). done.
Qed.

Lemma dom_globals metricsList : ∀ g,
  dom (fold_left (λ g metrics, fold_left collectGlobal (Metrics_ metrics) g) metricsList g) =
  dom g ∪ globalNames (concat (Metrics_ <$> metricsList)).
Proof.
  induction metricsList as [|metrics rest IH]; intros g.
  - cbn. unfold globalNames. cbn. set_solver.
  - cbn [fold_left fmap list_fmap concat]. rewrite IH, dom_collectGlobal.
    unfold globalNames. rewrite filter_app, fmap_app, list_to_set_app_L. set_solver.
Qed.

Lemma metricNames_split metricsList :
  metricNames metricsList =
    endpointNames (concat (Metrics_ <$> metricsList)) ∪
    globalNames (concat (Metrics_ <$> metricsList)).
Proof.
  unfold metricNames, endpointNames, globalNames.
  generalize (concat (Metrics_ <$> metricsList)). intros entries.
  induction entries as [|[name metric] entries IH]; [cbn; set_solver|].
  cbn [fmap list_fmap list_to_set fst]. rewrite IH.
  destruct (isGlobalMetric name) eqn:Hg.
  - rewrite filter_cons_False, filter_cons_True by (cbn [fst]; rewrite Hg; done). cbn. set_solver.
  - rewrite filter_cons_True, filter_cons_False by (cbn [fst]; rewrite Hg; done). cbn. set_solver.
Qed.

(** The keys of the aggregate: those of the main loop and the global names. *)
Lemma dom_AggregateMetrics now metricsList config aggregate :
  AggregateMetrics now metricsList config = Some aggregate →
  dom (result_Metrics aggregate) =
    globalNames (concat (Metrics_ <$> metricsList)) ∪
    dom (result_Metrics (result
      (fold_left (processMetric config) (concat (Metrics_ <$> metricsList))
         (initialLoop now)))).
Proof.
  unfold AggregateMetrics. destruct (length metricsList =? 0)%nat; [done|].
  intros [= <-]. unfold addGlobalMetrics. cbn [setMetrics result_Metrics].
  rewrite dom_union_L, dom_globals, dom_empty_L, (left_id_L ∅ (∪)).
  unfold mainLoop.
  pose proof (processSnapshots_view config metricsList 0%nat (initialLoop now)) as [= -> _ _ _].
  done.
Qed.

(** X15.  The keys of the aggregate are names of metrics of the snapshots,
    and "other": no key is ever derived from a name (the branch that appends
    a hash is never taken, every name being recorded under itself).  With
    [NoBucket] set there is no key "other" unless a snapshot has a metric of
    that name. *)
Theorem AggregateMetrics_keys_are_names
    (now : Z) (metricsList : list Metrics) (config : Config) (aggregate : Aggregate) :
  AggregateMetrics now metricsList config = Some aggregate →
  dom (result_Metrics aggregate) ⊆ metricNames metricsList ∪ {["other"]} ∧
  (NoBucket config = true → dom (result_Metrics aggregate) ⊆ metricNames metricsList) ∧
  selfMapped (mainLoop now metricsList config).
Proof.
  intros Hagg. rewrite (dom_AggregateMetrics _ _ _ _ Hagg), metricNames_split.
  destruct (fold_processMetric_keys config now (concat (Metrics_ <$> metricsList)))
    as (Hself & Hsub & Hnb & _).
  split_and!; [any_bucket; set_solver|intros Hb; specialize (Hnb Hb); set_solver|].
  unfold selfMapped, mainLoop.
  pose proof (processSnapshots_view config metricsList 0%nat (initialLoop now)) as [= _ -> _ _].
  exact Hself.
Qed.

(** X16.  What the ceiling never removes.  Every global metric of a
    snapshot is a key of the aggregate, whatever the ceiling.  When the
    metrics that are not global occur at most [MaxEndpoints] times in the
    snapshots, the keys of the aggregate are exactly the names of the metrics
    of the snapshots: nothing is bucketed and nothing is dropped. *)
Theorem AggregateMetrics_keeps_names
    (now : Z) (metricsList : list Metrics) (config : Config) (aggregate : Aggregate) :
  AggregateMetrics now metricsList config = Some aggregate →
  (∀ name, name ∈ metricNames metricsList → isGlobalMetric name = true →
           name ∈ dom (result_Metrics aggregate)) ∧
  (Z.of_nat (length (occurrences metricsList)) ≤ MaxEndpoints config →
   dom (result_Metrics aggregate) = metricNames metricsList).
Proof.
  intros Hagg. rewrite (dom_AggregateMetrics _ _ _ _ Hagg), metricNames_split.
  destruct (fold_processMetric_keys config now (concat (Metrics_ <$> metricsList)))
    as (_ & _ & _ & Hfull).
  split.
  - intros name Hin Hg. apply elem_of_union_l.
    apply elem_of_union in Hin as [Hin|Hin]; [|done].
    unfold endpointNames in Hin.
    apply elem_of_list_to_set, list_elem_of_fmap in Hin as ([n m] & -> & Hin).
    apply list_elem_of_filter in Hin as [Hn _]. cbn in *. congruence.
  - intros Hn. destruct (Hfull Hn) as [-> _]. set_solver.
Qed.

Lemma keys_without_bucket :
  let config := {| MaxEndpoints := 1; NoBucket := true; MergePercentiles := "weighted" |} in
  let metricsList :=
    [snapshot 0 1 [] [("GET_users", one_sample); ("http_reqs", one_sample)];
     snapshot 0 1 [] [("GET_orders", one_sample)]] in
  (dom <$> (result_Metrics <$> AggregateMetrics 0 metricsList config)) =
    Some ({[ "GET_users"; "http_reqs" ]} : gset string) ∧
  match AggregateMetrics 0 metricsList config with
  | Some aggregate => dom (result_Metrics aggregate) ⊆ metricNames metricsList
  | None => False
  end.
Proof.
  intros config metricsList. split; [by vm_compute|].
  destruct (AggregateMetrics 0 metricsList config) as [aggregate|] eqn:Hagg; [|done].
  destruct (AggregateMetrics_keys_are_names 0 metricsList config aggregate Hagg)
    as (_ & Hnb & _).
  by apply Hnb.
Defined.

Lemma keys_below_ceiling :
  let config := {| MaxEndpoints := 2; NoBucket := false; MergePercentiles := "weighted" |} in
  let metricsList :=
    [snapshot 0 1 [] [("GET_users", one_sample); ("http_reqs", one_sample)];
     snapshot 0 1 [] [("GET_orders", one_sample)]] in
  Z.of_nat (length (occurrences metricsList)) ≤ MaxEndpoints config ∧
  match AggregateMetrics 0 metricsList config with
  | Some aggregate =>
      dom (result_Metrics aggregate) = metricNames metricsList ∧
      "http_reqs" ∈ dom (result_Metrics aggregate)
  | None => False
  end.
Proof.
  intros config metricsList.
  assert (Z.of_nat (length (occurrences metricsList)) ≤ MaxEndpoints config) as Hn
    by (by vm_compute).
  split; [exact Hn|].
  destruct (AggregateMetrics 0 metricsList config) as [aggregate|] eqn:Hagg; [|done].
  destruct (AggregateMetrics_keeps_names 0 metricsList config aggregate Hagg)
    as [Hglobal Hfull].
  split; [by apply Hfull|]. apply Hglobal; [|by vm_compute].
  unfold metricNames. cbn. set_solver.
Defined.

(** *** Files that arrive in any order *)

Section Files.
Variable ReadMetricsFile : string → Metrics + string.

#[local] Abbreviation readable file :=
  (match ReadMetricsFile file with inl _ => True | inr _ => False end).
#[local] Abbreviation read file :=
  (match ReadMetricsFile file with inl metrics => Some metrics | inr _ => None end).

Lemma collect_readable arrived : ∀ allMetrics,
  Forall (λ file, readable file) arrived →
  collect ReadMetricsFile arrived allMetrics = inl (allMetrics ++ omap (λ file, read file) arrived).
Proof.
  induction arrived as [|file rest IH]; intros allMetrics Hall; cbn.
  - by rewrite app_nil_r.
  - apply Forall_cons in Hall as [Hfile Hrest].
    destruct (ReadMetricsFile file) as [metrics|err]; [|done].
    rewrite IH by done. by rewrite <- app_assoc.
Qed.

Lemma collect_unreadable arrived : ∀ allMetrics,
  ¬ Forall (λ file, readable file) arrived →
  ∃ err, collect ReadMetricsFile arrived allMetrics = inr err.
Proof.
  induction arrived as [|file rest IH]; intros allMetrics Hnot; cbn.
  - by destruct Hnot.
  - destruct (ReadMetricsFile file) as [metrics|err] eqn:Hfile; [|by eexists].
    apply IH. intros Hrest. apply Hnot. constructor; [by rewrite Hfile|done].
Qed.

End Files.

Lemma total_Permutation counter checks checks' :
  checks ≡ₚ checks' → total counter checks = total counter checks'.
Proof.
  unfold total. induction 1 as [|x l l' _ IH|x y l|l l' l'' _ IH1 _ IH2]; cbn; lia.
Qed.

Lemma checkOccurrences_Permutation name metricsList metricsList' :
  metricsList ≡ₚ metricsList' →
  checkOccurrences name metricsList ≡ₚ checkOccurrences name metricsList'.
Proof.
  intros Hperm. unfold checkOccurrences.
  apply fmap_Permutation, filter_Permutation.
  induction Hperm as [|x l l' _ IH|x y l|l l' l'' _ IH1 _ IH2]; cbn.
  - done.
  - by rewrite IH.
  - rewrite !app_assoc. f_equiv. apply Permutation_app_comm.
  - by rewrite IH1.
Qed.

Lemma fold_min_Permutation a l a' l' :
  a :: l ≡ₚ a' :: l' → fold_left Z.min l a = fold_left Z.min l' a'.
Proof.
  intros Hperm.
  destruct (fold_min_spec l a) as [Hle Hin], (fold_min_spec l' a') as [Hle' Hin'].
  apply Z.le_antisymm.
  - apply Hle. by rewrite Hperm.
  - apply Hle'. by rewrite <- Hperm.
Qed.

Lemma fold_max_Permutation a l a' l' :
  a :: l ≡ₚ a' :: l' → fold_left Z.max l a = fold_left Z.max l' a'.
Proof.
  intros Hperm.
  destruct (fold_max_spec l a) as [Hle Hin], (fold_max_spec l' a') as [Hle' Hin'].
  apply Z.le_antisymm.
  - apply Hle'. by rewrite <- Hperm.
  - apply Hle. by rewrite Hperm.
Qed.

Lemma AggregateMetrics_window_Permutation now metricsList metricsList' config a a' :
  metricsList ≡ₚ metricsList' →
  AggregateMetrics now metricsList config = Some a →
  AggregateMetrics now metricsList' config = Some a' →
  result_StartTime a = result_StartTime a' ∧ result_EndTime a = result_EndTime a'.
Proof.
  intros Hperm Ha Ha'.
  destruct metricsList as [|f r]; [done|]. destruct metricsList' as [|f' r']; [done|].
  destruct (AggregateMetrics_folds now f r config) as (x & Hx & Hs & He & _).
  destruct (AggregateMetrics_folds now f' r' config) as (x' & Hx' & Hs' & He' & _).
  rewrite Ha in Hx. injection Hx as <-. rewrite Ha' in Hx'. injection Hx' as <-.
  rewrite Hs, Hs', He, He'. split.
  - apply fold_min_Permutation.
    change (StartTime <$> f :: r ≡ₚ StartTime <$> f' :: r'). by rewrite Hperm.
  - apply fold_max_Permutation. constructor. by rewrite Hperm.
Qed.

(** X17.  [AggregateFiles] receives the snapshots in the order in which the
    readers finish.  Whether it fails does not depend on that order, and
    neither do the time window and the passes and fails of every check of
    the aggregate (the counters of the checks being [int64] values).  A nil
    configuration stands for a ceiling of 2000 endpoints with the bucket. *)
Theorem AggregateFiles_any_order
    (ReadMetricsFile : string → Metrics + string) (now : Z)
    (arrived arrived' : list string) (config : option Config) :
  arrived ≡ₚ arrived' →
  (∀ file metrics, file ∈ arrived → ReadMetricsFile file = inl metrics →
                   int64Snapshot metrics) →
  match AggregateFiles ReadMetricsFile now arrived config,
        AggregateFiles ReadMetricsFile now arrived' config with
  | inl aggregate, inl aggregate' =>
      result_StartTime aggregate = result_StartTime aggregate' ∧
      result_EndTime aggregate = result_EndTime aggregate' ∧
      ∀ name,
        (Passes <$> result_Checks aggregate !! name) =
          (Passes <$> result_Checks aggregate' !! name) ∧
        (Fails <$> result_Checks aggregate !! name) =
          (Fails <$> result_Checks aggregate' !! name)
  | inr _, inr _ => True
  | _, _ => False
  end ∧
  AggregateFiles ReadMetricsFile now arrived None =
    AggregateFiles ReadMetricsFile now arrived
      (Some {| MaxEndpoints := 2000; NoBucket := false; MergePercentiles := "weighted" |}).
Proof.
  intros Hperm Hint. split; [|done].
  unfold AggregateFiles.
  set (cfg := match config with Some c => c | None => _ end).
  assert (∀ file, Decision (match ReadMetricsFile file with
                            | inl _ => True | inr _ => False end)) as Hdec
    by (intros file; destruct (ReadMetricsFile file); apply _).
  destruct (decide (Forall (λ file, match ReadMetricsFile file with
                                    | inl _ => True | inr _ => False end) arrived))
    as [Hall|Hnot].
  2:{ destruct (collect_unreadable ReadMetricsFile arrived [] Hnot) as [err ->].
      assert (¬ Forall (λ file, match ReadMetricsFile file with
                                | inl _ => True | inr _ => False end) arrived') as Hnot'
        by (by rewrite <- Hperm).
      by destruct (collect_unreadable ReadMetricsFile arrived' [] Hnot') as [err' ->]. }
  assert (Forall (λ file, match ReadMetricsFile file with
                          | inl _ => True | inr _ => False end) arrived') as Hall'
    by (by rewrite <- Hperm).
  rewrite !collect_readable by done. cbn [app].
  set (read := λ file, match ReadMetricsFile file with
                       | inl metrics => Some metrics | inr _ => None end).
  assert (omap read arrived ≡ₚ omap read arrived') as Hsnap by (by rewrite Hperm).
  assert (int64Checks (omap read arrived)) as Hint1.
  { unfold int64Checks. apply Forall_forall. intros metrics Hin.
    apply list_elem_of_omap in Hin as (file & Hfile & Hread). subst read. cbn in Hread.
    destruct (ReadMetricsFile file) as [m|] eqn:Hm; [|done]. injection Hread as ->.
    by apply (Hint file). }
  assert (int64Checks (omap read arrived')) as Hint2.
  { unfold int64Checks. by rewrite <- Hsnap. }
  destruct (AggregateMetrics now (omap read arrived) cfg) as [a|] eqn:Ha;
    destruct (AggregateMetrics now (omap read arrived') cfg) as [a'|] eqn:Ha'.
  - destruct (AggregateMetrics_window_Permutation _ _ _ _ _ _ Hsnap Ha Ha') as [Hs He].
    split_and!; [done|done|].
    intros name.
    rewrite (AggregateMetrics_check _ _ _ _ name Hint1 Ha),
      (AggregateMetrics_check _ _ _ _ name Hint2 Ha').
    pose proof (checkOccurrences_Permutation name _ _ Hsnap) as Hocc.
    destruct (checkOccurrences name (omap read arrived)) as [|c l] eqn:H1,
             (checkOccurrences name (omap read arrived')) as [|c' l'] eqn:H2.
    + done.
    + by apply Permutation_nil_l in Hocc.
    + by apply Permutation_nil_r in Hocc.
    + cbn [fmap option_fmap option_map Passes Fails].
      by rewrite (total_Permutation Passes _ _ Hocc), (total_Permutation Fails _ _ Hocc).
  - exfalso. unfold AggregateMetrics in Ha, Ha'.
    apply Permutation_length in Hsnap. rewrite <- Hsnap in Ha'.
    by destruct (length (omap read arrived) =? 0)%nat.
  - exfalso. unfold AggregateMetrics in Ha, Ha'.
    apply Permutation_length in Hsnap. rewrite <- Hsnap in Ha'.
    by destruct (length (omap read arrived) =? 0)%nat.
  - done.
Qed.

Lemma two_files_in_both_orders :
  match AggregateFiles two_files 30 ["a.json"; "b.json"] None,
        AggregateFiles two_files 30 ["b.json"; "a.json"] None with
  | inl aggregate, inl aggregate' =>
      result_StartTime aggregate = 5 ∧ result_StartTime aggregate' = 5 ∧
      result_EndTime aggregate = result_EndTime aggregate' ∧
      (Passes <$> result_Checks aggregate !! "login ok") =
        (Passes <$> result_Checks aggregate' !! "login ok")
  | _, _ => False
  end.
Proof.
  assert (["a.json"; "b.json"] ≡ₚ ["b.json"; "a.json"]) as Hperm by apply Permutation_swap.
  assert (∀ file metrics, file ∈ ["a.json"; "b.json"] → two_files file = inl metrics →
                          int64Snapshot metrics) as Hint.
  { intros file metrics Hin Hread.
    assert (file = "a.json" ∨ file = "b.json") as [->| ->] by (set_unfold; tauto);
      vm_compute in Hread; injection Hread as <-;
      unfold int64Snapshot, isInt64; repeat constructor; cbn; lia. }
  pose proof (AggregateFiles_any_order two_files 30 _ _ None Hperm Hint) as [Hsame _].
  destruct (AggregateFiles two_files 30 ["a.json"; "b.json"] None) as [a|] eqn:Ha;
    destruct (AggregateFiles two_files 30 ["b.json"; "a.json"] None) as [a'|] eqn:Ha';
    try done.
  destruct Hsame as (Hs & He & Hc). split_and!.
  - apply (f_equal (λ r, match r with inl a => result_StartTime a | inr _ => 0 end)) in Ha.
    rewrite <- Ha. by vm_compute.
  - apply (f_equal (λ r, match r with inl a => result_StartTime a | inr _ => 0 end)) in Ha'.
    rewrite <- Ha'. by vm_compute.
  - done.
  - apply Hc.
Defined.

End AggregateFacts.

(* ===================================================================== *)
(** ** reporting: layering, gate and summary *)
(* ===================================================================== *)

Module ThresholdFacts.
Import GoStrings Regex Reporting ReportingProps ReportingConfig ThresholdProps ReportingFacts.

(** *** Layering *)

Lemma override_assoc {A} (x y z : option A) :
  override (override x y) z = override x (override y z).
Proof. by destruct z, y. Qed.

Lemma override_None_l {A} (x : option A) : override None x = x.
Proof. by destruct x. Qed.

Lemma override_idemp {A} (x : option A) : override x x = x.
Proof. by destruct x. Qed.

Lemma mergeThresholdValues_noThresholds_r a : mergeThresholdValues a noThresholds = a.
Proof. by destruct a. Qed.

Lemma layer_override {A} (base over : option A) : layer base over (override base over).
Proof. by destruct over. Qed.

Lemma layers_merge base over : layers base over (mergeThresholdValues base over).
Proof. unfold layers, mergeThresholdValues. cbn. split_and!; apply layer_override. Qed.

(** X18.  The layering of threshold values.  Field by field, the result has
    the value of the overlay where the overlay sets the field and the value
    of the base where it does not.  The layering is associative, the empty
    set of thresholds is neutral on both sides, and a set layered over itself
    is itself: defaults, group and endpoint can be layered in any grouping. *)
Theorem mergeThresholdValues_monoid (a b c : ThresholdValues) :
  layers a b (mergeThresholdValues a b) ∧
  mergeThresholdValues (mergeThresholdValues a b) c =
    mergeThresholdValues a (mergeThresholdValues b c) ∧
  mergeThresholdValues noThresholds a = a ∧
  mergeThresholdValues a noThresholds = a ∧
  mergeThresholdValues a a = a.
Proof.
  split; [apply layers_merge|].
  unfold mergeThresholdValues. cbn. split_and!.
  - by rewrite !override_assoc.
  - rewrite !override_None_l. by destruct a.
  - apply mergeThresholdValues_noThresholds_r.
  - rewrite !override_idemp. by destruct a.
Qed.

Lemma rangeOrder_Permutation {V} (m : gmap string V) visit1 visit2 :
  rangeOrder m visit1 → rangeOrder m visit2 → visit1 ≡ₚ visit2.
Proof.
  intros [Hnd1 Hm1] [Hnd2 Hm2]. apply list_to_map_inj; [done..|]. by rewrite Hm1, Hm2.
Qed.

(** X19.  Resolution of the thresholds of an endpoint, when at most one
    group pattern matches it.  The result does not depend on the order in
    which the map of groups is visited; it is the defaults, overlaid by the
    matching group if there is one, overlaid by the entry of the endpoint if
    there is one, field by field: a threshold set by the entry of the
    endpoint is returned, else the one set by the group, else the default. *)
Theorem GetThresholdForEndpoint_layers
    (regexp_MatchString : string → string → option bool) (tc : ThresholdConfig)
    (visit1 visit2 : list (string * ThresholdValues)) (endpoint : string) :
  rangeOrder (Groups tc) visit1 →
  rangeOrder (Groups tc) visit2 →
  (length (matching regexp_MatchString endpoint visit1) ≤ 1)%nat →
  let result := GetThresholdForEndpoint regexp_MatchString tc visit1 endpoint in
  let group := default noThresholds (snd <$> head (matching regexp_MatchString endpoint visit1)) in
  let entry := default noThresholds (Endpoints tc !! endpoint) in
  GetThresholdForEndpoint regexp_MatchString tc visit2 endpoint = result ∧
  ∃ grouped, layers (Defaults tc) group grouped ∧ layers grouped entry result.
Proof.
  intros Ho1 Ho2 Hlen result group entry.
  assert (result = mergeThresholdValues (mergeThresholdValues (Defaults tc) group) entry)
    as Hresult.
  { subst result group entry. unfold GetThresholdForEndpoint.
    rewrite firstMatch_matching.
    destruct (matching regexp_MatchString endpoint visit1) as [|[pattern g] rest]; cbn.
    - rewrite mergeThresholdValues_noThresholds_r.
      destruct (Endpoints tc !! endpoint) as [e|]; cbn; [done|].
      by rewrite mergeThresholdValues_noThresholds_r.
    - destruct (Endpoints tc !! endpoint) as [e|]; cbn; [done|].
      by rewrite mergeThresholdValues_noThresholds_r. }
  split.
  - symmetry. apply GetThresholdForEndpoint_single_match; [|done].
    by eapply rangeOrder_Permutation.
  - exists (mergeThresholdValues (Defaults tc) group). rewrite Hresult.
    split; apply layers_merge.
Qed.

Lemma layers_of_auth_login :
  let visit1 := defaultVisit in
  let visit2 := reverse defaultVisit in
  rangeOrder (Groups DefaultThresholdConfig) visit1 ∧
  rangeOrder (Groups DefaultThresholdConfig) visit2 ∧
  matching Wildcard.MatchString "auth/login" visit1 = [("auth/*", p95Only (350 * Millisecond))] ∧
  P95 (GetThresholdForEndpoint Wildcard.MatchString DefaultThresholdConfig visit1 "auth/login")
    = duration (350 * Millisecond) ∧
  GetThresholdForEndpoint Wildcard.MatchString DefaultThresholdConfig visit2 "auth/login" =
    GetThresholdForEndpoint Wildcard.MatchString DefaultThresholdConfig visit1 "auth/login".
Proof.
  intros visit1 visit2.
  assert (rangeOrder (Groups DefaultThresholdConfig) visit1) as H1
    by (split; [by apply (bool_decide_unpack _)|by vm_compute]).
  assert (rangeOrder (Groups DefaultThresholdConfig) visit2) as H2
    by (split; [by apply (bool_decide_unpack _)|by vm_compute]).
  assert (matching Wildcard.MatchString "auth/login" visit1 =
            [("auth/*", p95Only (350 * Millisecond))]) as Hm by (by vm_compute).
  split; [done|]. split; [done|]. split; [done|]. split; [by vm_compute|].
  apply (GetThresholdForEndpoint_layers Wildcard.MatchString DefaultThresholdConfig
           visit1 visit2 "auth/login" H1 H2).
  rewrite Hm. cbn. lia.
Defined.

(** *** What a breach says *)

Section Breaches.
Variable regexp_MatchString : string → string → option bool.
Variables (tc : ThresholdConfig) (visitGroups : string → list (string * ThresholdValues)).

Lemma severityOf_cases value threshold tolerance :
  severityOf value threshold tolerance = "warning" ∨
  severityOf value threshold tolerance = "error".
Proof. unfold severityOf. destruct (PrimFloat.leb _ _); auto. Qed.

Lemma checkDurationThresholds_breachOf endpoint metric thresholds sampleCount b :
  b ∈ checkDurationThresholds tc endpoint metric thresholds sampleCount →
  breachOf endpoint sampleCount b.
Proof.
  unfold checkDurationThresholds.
  intros ([[key th] unit] & Hc & Hb)%elem_of_flat_map.
  assert ((key, unit) ∈ breachKinds) as Hkind.
  { unfold durationChecks in Hc.
    unfold breachKinds. set_unfold. naive_solver. }
  unfold checkDuration in Hb.
  destruct th as [th|]; [|by apply elem_of_nil in Hb].
  destruct (Values metric !! key) as [[value| | |]|]; try by apply elem_of_nil in Hb.
  destruct (Float64.gt _ _); [|by apply elem_of_nil in Hb].
  apply list_elem_of_singleton in Hb as ->.
  repeat split; [done|]. apply severityOf_cases.
Qed.

Lemma checkRateThresholds_breachOf endpoint metric thresholds sampleCount b :
  b ∈ checkRateThresholds tc endpoint metric thresholds sampleCount →
  breachOf endpoint sampleCount b.
Proof.
  unfold checkRateThresholds. intros [Hb|Hb]%elem_of_app.
  - destruct (ErrorRate thresholds) as [er|]; [|by apply elem_of_nil in Hb].
    destruct (Float64.gt _ _); [|by apply elem_of_nil in Hb].
    apply list_elem_of_singleton in Hb as ->.
    repeat split; [unfold breachKinds; set_unfold; auto 10|apply severityOf_cases].
  - destruct (RPS thresholds) as [rps|]; [|by apply elem_of_nil in Hb].
    destruct (Values metric !! "rate") as [[rate| | |]|]; try by apply elem_of_nil in Hb.
    destruct (Float64.gt _ _); [|by apply elem_of_nil in Hb].
    apply list_elem_of_singleton in Hb as ->.
    repeat split; [unfold breachKinds; set_unfold; auto 10|apply severityOf_cases].
Qed.

Lemma validateMetric_breachOf metricName metric b :
  b ∈ validateMetric regexp_MatchString tc visitGroups (metricName, metric) →
  isEndpointMetric metricName = true ∧
  minSamplesOf tc ≤ sampleCountOf metric ∧
  breachOf metricName (sampleCountOf metric) b.
Proof.
  unfold validateMetric.
  destruct (isEndpointMetric metricName); [|by intros ?%elem_of_nil]. cbn [negb].
  destruct (sampleCountOf metric <? minSamplesOf tc) eqn:Hgate;
    [by intros ?%elem_of_nil|].
  apply Z.ltb_ge in Hgate.
  intros [Hb|Hb]%elem_of_app; (split; [done|split; [done|]]).
  - by eapply checkDurationThresholds_breachOf.
  - by eapply checkRateThresholds_breachOf.
Qed.

Lemma ValidateThresholds_severity metrics b :
  b ∈ ValidateThresholds regexp_MatchString tc visitGroups metrics →
  ThresholdBreach.Severity b = "warning" ∨ ThresholdBreach.Severity b = "error".
Proof.
  unfold ValidateThresholds. intros ([name metric] & _ & Hb)%elem_of_flat_map.
  by apply validateMetric_breachOf in Hb as (_ & _ & _ & _ & _ & ?).
Qed.

End Breaches.

(** X20.  Every breach that [ValidateThresholds] returns is about a metric
    of its input whose name begins with none of the nine prefixes of the
    system metrics and which has at least the minimum number of samples of
    the options (100 when the option is 0); it names that metric as its
    endpoint, carries its sample count (the entry "count" as an int64, 0 when
    it is neither an int64 nor a float64), one of the eight metric keys with
    the unit of that key, and the severity "warning" or "error".  No other
    breach is ever reported. *)
Theorem ValidateThresholds_sound
    (regexp_MatchString : string → string → option bool) (tc : ThresholdConfig)
    (visitGroups : string → list (string * ThresholdValues))
    (metrics : list (string * Metric)) (b : ThresholdBreach.t) :
  b ∈ ValidateThresholds regexp_MatchString tc visitGroups metrics →
  ∃ metric,
    (ThresholdBreach.Endpoint b, metric) ∈ metrics ∧
    (∀ sys, sys ∈ systemPrefixes → HasPrefix (ThresholdBreach.Endpoint b) sys = false) ∧
    ThresholdBreach.SampleCount b =
      match Values metric !! "count" with
      | Some (VInt64 count) => count
      | Some (VFloat64 count) => int64_of_float count
      | _ => 0
      end ∧
    (if ThresholdOptions.MinSamples (Options tc) =? 0 then 100
     else ThresholdOptions.MinSamples (Options tc)) ≤ ThresholdBreach.SampleCount b ∧
    (ThresholdBreach.Metric b, ThresholdBreach.Unit b) ∈ breachKinds ∧
    (ThresholdBreach.Severity b = "warning" ∨ ThresholdBreach.Severity b = "error").
Proof.
  unfold ValidateThresholds. intros ([name metric] & Hin & Hb)%elem_of_flat_map.
  apply validateMetric_breachOf in Hb as (He & Hmin & Hend & Hcount & Hkind & Hsev).
  exists metric. rewrite Hend, Hcount. split_and!; try done.
  intros sys Hsys. unfold isEndpointMetric in He.
  apply negb_true_iff in He.
  destruct (HasPrefix name sys) eqn:Hp; [|done].
  assert (existsb (λ sys, HasPrefix name sys) systemPrefixes = true) as Hex.
  { apply existsb_exists. exists sys. split; [|done]. by apply list_elem_of_In. }
  unfold systemPrefixes in Hex. congruence.
Qed.

Lemma ValidateThresholds_sound_default :
  let users : Metric :=
    {| Type_ := "trend";
       Values := {[ "p(95)" := VFloat64 400; "avg" := VFloat64 120; "count" := VInt64 150 ]} |} in
  let b :=
    {| ThresholdBreach.Endpoint := "GET /users"; ThresholdBreach.Metric := "p(95)";
       ThresholdBreach.Value := 400; ThresholdBreach.Threshold := 300;
       ThresholdBreach.Unit := "ms"; ThresholdBreach.Severity := "error";
       ThresholdBreach.SampleCount := 150 |} in
  ValidateThresholds Wildcard.MatchString DefaultThresholdConfig (λ _, defaultVisit)
    [("GET /users", users)] = [b] ∧
  ∃ metric,
    ("GET /users", metric) ∈ [("GET /users", users)] ∧
    (∀ sys, sys ∈ systemPrefixes → HasPrefix "GET /users" sys = false) ∧
    150 = match Values metric !! "count" with
          | Some (VInt64 count) => count
          | Some (VFloat64 count) => int64_of_float count
          | _ => 0
          end ∧
    (if ThresholdOptions.MinSamples (Options DefaultThresholdConfig) =? 0 then 100
     else ThresholdOptions.MinSamples (Options DefaultThresholdConfig)) ≤ 150 ∧
    ("p(95)", "ms") ∈ breachKinds ∧
    ("error" = "warning" ∨ "error" = "error").
Proof.
  intros users b.
  assert (ValidateThresholds Wildcard.MatchString DefaultThresholdConfig (λ _, defaultVisit)
            [("GET /users", users)] = [b]) as Hrun by (by vm_compute).
  split; [done|].
  apply (ValidateThresholds_sound Wildcard.MatchString DefaultThresholdConfig
           (λ _, defaultVisit) [("GET /users", users)] b).
  rewrite Hrun. apply list_elem_of_here.
Defined.

(** *** The summary *)

Lemma countSeverity_cons severity b breaches :
  countSeverity severity (b :: breaches) =
    (if decide (ThresholdBreach.Severity b = severity) then 1 else 0) +
    countSeverity severity breaches.
Proof.
  unfold countSeverity. destruct (decide _) as [Heq|Hne].
  - rewrite filter_cons_True by done. cbn [length]. lia.
  - rewrite filter_cons_False by done. lia.
Qed.

Lemma summary_fold breaches : ∀ (summary : gmap string Z) k,
  default 0
    (fold_left
       (λ summary v,
          <[ThresholdBreach.Severity v :=
              default 0 (summary !! ThresholdBreach.Severity v) + 1]> summary)
       breaches summary !! k) =
  default 0 (summary !! k) + countSeverity k breaches.
Proof.
  induction breaches as [|b breaches IH]; intros summary k.
  - unfold countSeverity. cbn. lia.
  - cbn [fold_left]. rewrite IH, countSeverity_cons.
    destruct (decide (ThresholdBreach.Severity b = k)) as [->|Hne].
    + rewrite lookup_insert_eq. cbn. lia.
    + rewrite lookup_insert_ne by done. lia.
Qed.

Lemma summary_dom breaches : ∀ (summary : gmap string Z),
  dom (fold_left
         (λ summary v,
            <[ThresholdBreach.Severity v :=
                default 0 (summary !! ThresholdBreach.Severity v) + 1]> summary)
         breaches summary) =
  dom summary ∪ list_to_set (ThresholdBreach.Severity <$> breaches).
Proof.
  induction breaches as [|b breaches IH]; intros summary.
  - cbn. set_solver.
  - cbn [fold_left]. rewrite IH, dom_insert_L, fmap_cons, list_to_set_cons. set_solver.
Qed.

Lemma summary_lookup tc breaches k :
  k ∈ ["total"; "error"; "warning"] →
  GetBreachSummary tc breaches !! k =
    Some ((if decide (k = "total") then Z.of_nat (length breaches) else 0) +
          countSeverity k breaches).
Proof.
  intros Hk.
  pose proof (summary_fold breaches
    {[ "total" := Z.of_nat (length breaches); "error" := 0; "warning" := 0 ]} k) as Hfold.
  assert (k ∈ dom (GetBreachSummary tc breaches)) as Hdom.
  { unfold GetBreachSummary. rewrite summary_dom. apply elem_of_union_l.
    rewrite !dom_insert_L. set_unfold. tauto. }
  apply elem_of_dom in Hdom as [n Hn].
  unfold GetBreachSummary in *. rewrite Hn in Hfold |- *. cbn in Hfold. rewrite Hfold.
  f_equal. f_equal.
  set_unfold. destruct Hk as [->|[->|[->|[]]]]; by vm_compute.
Qed.

Lemma length_by_severity (breaches : list ThresholdBreach.t) :
  Forall (λ b, ThresholdBreach.Severity b = "warning" ∨ ThresholdBreach.Severity b = "error")
    breaches →
  Z.of_nat (length breaches) =
    countSeverity "error" breaches + countSeverity "warning" breaches ∧
  countSeverity "total" breaches = 0.
Proof.
  induction 1 as [|b breaches Hb _ IH]; [done|].
  rewrite !countSeverity_cons. cbn [length].
  destruct IH as [IH1 IH2]. rewrite IH2, Nat2Z.inj_succ, IH1.
  destruct Hb as [-> | ->]; split; repeat case_decide; try done; lia.
Qed.

(** X21.  The summary of the breaches.  For any list of breaches the entries
    "error" and "warning" count the breaches of that severity, and "total"
    is the length of the list plus the number of breaches whose severity is
    the text "total".  For the breaches that [ValidateThresholds] returns the
    summary has these three entries only, "total" is the number of breaches
    and it is the sum of "error" and "warning". *)
Theorem GetBreachSummary_counts (tc : ThresholdConfig) (breaches : list ThresholdBreach.t) :
  let summary := GetBreachSummary tc breaches in
  summary !! "error" = Some (countSeverity "error" breaches) ∧
  summary !! "warning" = Some (countSeverity "warning" breaches) ∧
  summary !! "total" =
    Some (Z.of_nat (length breaches) + countSeverity "total" breaches) ∧
  ∀ regexp_MatchString tc' visitGroups metrics,
    breaches = ValidateThresholds regexp_MatchString tc' visitGroups metrics →
    dom summary = {[ "total"; "error"; "warning" ]} ∧
    summary !! "total" = Some (Z.of_nat (length breaches)) ∧
    Z.of_nat (length breaches) =
      countSeverity "error" breaches + countSeverity "warning" breaches.
Proof.
  intros summary. subst summary.
  rewrite !summary_lookup by (set_unfold; auto).
  repeat case_decide; try done.
  split; [done|]. split; [done|]. split; [done|].
  intros rx tc' visitGroups metrics Hv.
  assert (Forall (λ b, ThresholdBreach.Severity b = "warning" ∨
                       ThresholdBreach.Severity b = "error") breaches) as Hsev.
  { apply Forall_forall. intros b Hb. rewrite Hv in Hb.
    by eapply ValidateThresholds_severity. }
  destruct (length_by_severity breaches Hsev) as [Hlen Htotal].
  split; [|split; [by rewrite Htotal, Z.add_0_r|done]].
  unfold GetBreachSummary. rewrite summary_dom, !dom_insert_L, dom_singleton_L.
  apply set_eq. intros k. rewrite elem_of_union, elem_of_list_to_set, list_elem_of_fmap.
  split; [|by left].
  intros [Hk|(b & -> & Hb)]; [done|].
  rewrite Forall_forall in Hsev.
  destruct (Hsev b Hb) as [-> | ->]; rewrite !elem_of_union, !elem_of_singleton; auto.
Qed.

(** *** Duration thresholds *)

(** X22.  The duration check of one key.  For each of the six keys p(50),
    p(90), p(95), p(99), avg and max whose threshold is set and whose entry
    in the metric is a float64, the observed value is compared with
    [T * (1 + tol/100)], where [T] is the threshold in whole milliseconds
    (the nanoseconds divided by 1000000, the fraction dropped) and [tol] the
    tolerance of the threshold when it has one, the tolerance of the options
    otherwise.  Above that bound the breaches of the key are one breach with
    the unit "ms", "warning" up to [T * (1 + tol/100 * 1.5)] and "error"
    beyond; at or below it there is none. *)
Theorem checkDurationThresholds_whole_milliseconds
    (tc : ThresholdConfig) (endpoint : string) (metric : Metric)
    (thresholds : ThresholdValues) (sampleCount : Z)
    (key : string) (threshold : DurationThreshold.t) (observed : float) :
  (key, Some threshold) ∈
    [ ("p(50)", P50 thresholds); ("p(90)", P90 thresholds); ("p(95)", P95 thresholds);
      ("p(99)", P99 thresholds); ("avg", Avg thresholds); ("max", Max thresholds) ] →
  Values metric !! key = Some (VFloat64 observed) →
  let T := Float64.of_Z (Z.quot (DurationThreshold.Value threshold) 1000000) in
  let tol :=
    default (ThresholdOptions.TolerancePercent (Options tc))
      (DurationThreshold.Tolerance threshold) in
  filter (λ b, ThresholdBreach.Metric b = key)
    (checkDurationThresholds tc endpoint metric thresholds sampleCount) =
    if Float64.gt observed (T * (1 + tol / 100))%float then
      [ {| ThresholdBreach.Endpoint := endpoint;
           ThresholdBreach.Metric := key;
           ThresholdBreach.Value := observed;
           ThresholdBreach.Threshold := T;
           ThresholdBreach.Unit := "ms";
           ThresholdBreach.Severity :=
             if PrimFloat.leb observed (T * (1 + tol / 100 * 1.5))%float
             then "warning" else "error";
           ThresholdBreach.SampleCount := sampleCount |} ]
    else [].
Proof.
  intros Hin Hobs T tol.
  assert ((key, Some threshold, "ms") ∈ durationChecks thresholds) as Hcheck.
  { unfold durationChecks.
    repeat (apply elem_of_cons in Hin as [[= -> <-]|Hin]; [rewrite !elem_of_cons; auto 10|]).
    by apply elem_of_nil in Hin. }
  destruct (checkDurationThresholds_checks tc endpoint metric thresholds sampleCount
              key threshold observed Hcheck Hobs) as [Hkey _].
  rewrite Hkey.
  assert (effectiveTolerance tc (DurationThreshold.Tolerance threshold) = tol) as ->
    by (subst tol; by destruct (DurationThreshold.Tolerance threshold)).
  done.
Qed.

Lemma whole_milliseconds_of_p95 :
  let p95 value tolerance :=
    {| P50 := None; P90 := None;
       P95 := Some {| DurationThreshold.Value := value;
                      DurationThreshold.Tolerance := tolerance |};
       P99 := None; Avg := None; Max := None; ErrorRate := None; RPS := None;
       MinSamples := None |} in
  let observed value : Metric :=
    {| Type_ := "trend"; Values := {[ "p(95)" := VFloat64 value; "count" := VInt64 150 ]} |} in
  let breaches thresholds metric :=
    filter (λ b, ThresholdBreach.Metric b = "p(95)")
      (checkDurationThresholds DefaultThresholdConfig "GET_users" metric thresholds 150) in
  let breach value threshold severity :=
    {| ThresholdBreach.Endpoint := "GET_users"; ThresholdBreach.Metric := "p(95)";
       ThresholdBreach.Value := value; ThresholdBreach.Threshold := threshold;
       ThresholdBreach.Unit := "ms"; ThresholdBreach.Severity := severity;
       ThresholdBreach.SampleCount := 150 |} in
  ThresholdOptions.TolerancePercent (Options DefaultThresholdConfig) = 10%float ∧
  breaches (p95 300000000 None) (observed 330%float) = [] ∧
  breaches (p95 300000000 None) (observed 340%float) = [breach 340%float 300%float "warning"] ∧
  breaches (p95 300000000 None) (observed 400%float) = [breach 400%float 300%float "error"] ∧
  breaches (p95 300000000 (Some 50%float)) (observed 400%float) = [] ∧
  breaches (p95 300999999 None) (observed 340%float) = [breach 340%float 300%float "warning"].
Proof.
  intros p95 observed breaches breach. split; [done|]. subst breaches. cbv beta.
  split_and!.
  - rewrite (checkDurationThresholds_whole_milliseconds DefaultThresholdConfig "GET_users"
               (observed 330%float) (p95 300000000 None) 150 "p(95)"
               {| DurationThreshold.Value := 300000000; DurationThreshold.Tolerance := None |}
               330%float); [by vm_compute|set_unfold; auto|by vm_compute].
  - rewrite (checkDurationThresholds_whole_milliseconds DefaultThresholdConfig "GET_users"
               (observed 340%float) (p95 300000000 None) 150 "p(95)"
               {| DurationThreshold.Value := 300000000; DurationThreshold.Tolerance := None |}
               340%float); [by vm_compute|set_unfold; auto|by vm_compute].
  - rewrite (checkDurationThresholds_whole_milliseconds DefaultThresholdConfig "GET_users"
               (observed 400%float) (p95 300000000 None) 150 "p(95)"
               {| DurationThreshold.Value := 300000000; DurationThreshold.Tolerance := None |}
               400%float); [by vm_compute|set_unfold; auto|by vm_compute].
  - rewrite (checkDurationThresholds_whole_milliseconds DefaultThresholdConfig "GET_users"
               (observed 400%float) (p95 300000000 (Some 50%float)) 150 "p(95)"
               {| DurationThreshold.Value := 300000000;
                  DurationThreshold.Tolerance := Some 50%float |}
               400%float); [by vm_compute|set_unfold; auto|by vm_compute].
  - rewrite (checkDurationThresholds_whole_milliseconds DefaultThresholdConfig "GET_users"
               (observed 340%float) (p95 300999999 None) 150 "p(95)"
               {| DurationThreshold.Value := 300999999; DurationThreshold.Tolerance := None |}
               340%float); [by vm_compute|set_unfold; auto|by vm_compute].
Defined.

(** *** Rate thresholds *)

(** X23.  The error-rate check.  The rate compared with the threshold is
    [fails / count] when both entries of the metric are int64 values and the
    count is positive, and 0 in every other case, in particular when the
    counters are float64 values; a breach is reported when that rate is
    greater than [T * (1 + tol/100)], where [tol] is the tolerance of the
    threshold when it has one and the tolerance of the options otherwise,
    with the rate and the threshold as percentages. *)
Theorem checkRateThresholds_error_rate
    (tc : ThresholdConfig) (endpoint : string) (metric : Metric)
    (thresholds : ThresholdValues) (sampleCount : Z) (er : RateThreshold.t) :
  ErrorRate thresholds = Some er →
  let T := RateThreshold.Value er in
  let tol :=
    default (ThresholdOptions.TolerancePercent (Options tc)) (RateThreshold.Tolerance er) in
  let breachAt (errorRate : float) :=
    if Float64.gt errorRate (T * (1 + tol / 100))%float then
      [ {| ThresholdBreach.Endpoint := endpoint;
           ThresholdBreach.Metric := "error_rate";
           ThresholdBreach.Value := (errorRate * 100)%float;
           ThresholdBreach.Threshold := (T * 100)%float;
           ThresholdBreach.Unit := "%";
           ThresholdBreach.Severity :=
             if PrimFloat.leb errorRate (T * (1 + tol / 100 * 1.5))%float
             then "warning" else "error";
           ThresholdBreach.SampleCount := sampleCount |} ]
    else [] in
  let errorBreaches :=
    filter (λ b, ThresholdBreach.Metric b = "error_rate")
      (checkRateThresholds tc endpoint metric thresholds sampleCount) in
  (∀ fails total,
     Values metric !! "fails" = Some (VInt64 fails) →
     Values metric !! "count" = Some (VInt64 total) → 0 < total →
     errorBreaches = breachAt (Float64.of_Z fails / Float64.of_Z total)%float) ∧
  ((∀ fails, Values metric !! "fails" ≠ Some (VInt64 fails)) ∨
   (∀ total, Values metric !! "count" ≠ Some (VInt64 total)) ∨
   (∃ total, Values metric !! "count" = Some (VInt64 total) ∧ total ≤ 0) →
   errorBreaches = breachAt 0%float).
Proof.
  intros Her T tol breachAt errorBreaches.
  assert (effectiveTolerance tc (RateThreshold.Tolerance er) = tol) as Htol
    by (subst tol; by destruct (RateThreshold.Tolerance er)).
  assert (∀ errorRate,
    (match Values metric !! "fails", Values metric !! "count" with
     | Some (VInt64 fails), Some (VInt64 total) =>
         if 0 <? total then (Float64.of_Z fails / Float64.of_Z total)%float else 0%float
     | _, _ => 0%float
     end) = errorRate → errorBreaches = breachAt errorRate) as Hrate.
  { intros errorRate Hrate. subst errorBreaches breachAt.
    unfold checkRateThresholds. rewrite Her, Hrate, Htol. fold T.
    rewrite filter_app.
    match goal with |- _ ++ ?r = _ => assert (r = []) as -> end.
    { apply filter_none, Forall_forall. intros b Hb.
      destruct (RPS thresholds) as [rps|]; [|by apply elem_of_nil in Hb].
      destruct (Values metric !! "rate") as [[rate| | |]|]; try by apply elem_of_nil in Hb.
      destruct (Float64.gt _ _); [|by apply elem_of_nil in Hb].
      by apply list_elem_of_singleton in Hb as ->. }
    rewrite app_nil_r. unfold severityOf.
    destruct (Float64.gt errorRate _); [|done].
    by rewrite filter_cons_True, filter_nil. }
  split.
  - intros fails total Hf Hc Hpos. apply Hrate. rewrite Hf, Hc.
    by apply Z.ltb_lt in Hpos as ->.
  - intros Hno. apply Hrate.
    destruct (Values metric !! "fails") as [[f|f|f|f]|] eqn:Hf; try done.
    destruct (Values metric !! "count") as [[c|c|c|c]|] eqn:Hc; try done.
    destruct Hno as [Hno|[Hno|(total & [= <-] & Hle)]].
    + by destruct (Hno f).
    + by destruct (Hno c).
    + by apply Z.ltb_ge in Hle as ->.
Qed.

Lemma error_rate_of_counters :
  let counters fails count : Metric :=
    {| Type_ := "rate"; Values := {[ "fails" := fails; "count" := count ]} |} in
  let onePercent tolerance :=
    {| P50 := None; P90 := None; P95 := None; P99 := None; Avg := None; Max := None;
       ErrorRate := Some {| RateThreshold.Value := 0.01; RateThreshold.Tolerance := tolerance |};
       RPS := None; MinSamples := None |} in
  let errors thresholds metric :=
    filter (λ b, ThresholdBreach.Metric b = "error_rate")
      (checkRateThresholds DefaultThresholdConfig "GET_users" metric thresholds 100) in
  ThresholdOptions.TolerancePercent (Options DefaultThresholdConfig) = 10%float ∧
  errors (onePercent None) (counters (VFloat64 50) (VFloat64 100)) = [] ∧
  errors (onePercent (Some 500%float)) (counters (VInt64 5) (VInt64 100)) = [] ∧
  errors (onePercent None) (counters (VInt64 5) (VInt64 100)) =
    [ {| ThresholdBreach.Endpoint := "GET_users"; ThresholdBreach.Metric := "error_rate";
         ThresholdBreach.Value := 5; ThresholdBreach.Threshold := 1;
         ThresholdBreach.Unit := "%"; ThresholdBreach.Severity := "error";
         ThresholdBreach.SampleCount := 100 |} ].
Proof.
  intros counters onePercent errors. split; [done|]. subst errors. cbv beta. split_and!.
  - destruct (checkRateThresholds_error_rate DefaultThresholdConfig "GET_users"
                (counters (VFloat64 50) (VFloat64 100)) (onePercent None) 100
                {| RateThreshold.Value := 0.01; RateThreshold.Tolerance := None |} eq_refl)
      as [_ Hzero].
    rewrite Hzero; [by vm_compute|]. left. intros fails. by vm_compute.
  - destruct (checkRateThresholds_error_rate DefaultThresholdConfig "GET_users"
                (counters (VInt64 5) (VInt64 100)) (onePercent (Some 500%float)) 100
                {| RateThreshold.Value := 0.01; RateThreshold.Tolerance := Some 500%float |}
                eq_refl) as [Hrate _].
    rewrite (Hrate 5 100); [by vm_compute|by vm_compute|by vm_compute|lia].
  - destruct (checkRateThresholds_error_rate DefaultThresholdConfig "GET_users"
                (counters (VInt64 5) (VInt64 100)) (onePercent None) 100
                {| RateThreshold.Value := 0.01; RateThreshold.Tolerance := None |} eq_refl)
      as [Hrate _].
    rewrite (Hrate 5 100); [by vm_compute|by vm_compute|by vm_compute|lia].
Defined.

(** *** Patterns *)

Lemma MatchString_Void_any s : MatchString Void s = false.
Proof. by induction s. Qed.

Lemma MatchString_Eps s : MatchString Eps s = true ↔ s = "".
Proof. destruct s; [done|]. cbn. by rewrite MatchString_Void_any. Qed.

Lemma seq_Eps_l r : seq Eps r = r.
Proof. by destruct r. Qed.

Lemma alt_Void_r r : alt r Void = r.
Proof. by destruct r. Qed.

Lemma MatchString_chr_Seq c r s :
  MatchString (Seq (chr c) r) s = true ↔ ∃ rest, s = String c rest ∧ MatchString r rest = true.
Proof.
  destruct s as [|a s]; cbn.
  - split; [done|]. by intros (rest & [=] & _).
  - destruct (Ascii.eqb c a) eqn:Heq.
    + apply Ascii.eqb_eq in Heq as ->. rewrite seq_Eps_l, alt_Void_r.
      split; [by exists s|]. by intros (rest & [= <-] & ?).
    + cbn. rewrite MatchString_Void_any. split; [done|].
      intros (rest & [= -> _] & _). by rewrite Ascii.eqb_refl in Heq.
Qed.

Lemma MatchString_any_star s :
  MatchString (Star Wildcard.anyByte) s = DPNProps.avoids "010" s.
Proof.
  induction s as [|a s IH]; [done|]. cbn.
  destruct (Ascii.eqb a "010"); cbn; [apply MatchString_Void_any|done].
Qed.

Lemma MatchString_any_star_Eps s :
  MatchString (Seq (Star Wildcard.anyByte) Eps) s = DPNProps.avoids "010" s.
Proof.
  destruct s as [|a s]; [done|]. cbn.
  destruct (Ascii.eqb a "010"); cbn; [apply MatchString_Void_any|apply MatchString_any_star].
Qed.

Lemma literalByte_atom c :
  literalByte c = true →
  Wildcard.atom c = Some (chr c) ∧ Ascii.eqb c "*" = false ∧ Ascii.eqb c "$" = false.
Proof.
  destruct c as [[] [] [] [] [] [] [] []]; by vm_compute.
Qed.

(** The items of a literal text followed by [tail]. *)
Lemma compileItems_literal p : ∀ tail c0 r,
  all_bytes literalByte p = true →
  DPNProps.firstByte tail = Some c0 → Ascii.eqb c0 "*" = false →
  Wildcard.compileItems tail = Some r →
  ∃ r', Wildcard.compileItems (p +:+ tail) = Some r' ∧
        ∀ s, MatchString r' s = true ↔ ∃ rest, s = p +:+ rest ∧ MatchString r rest = true.
Proof.
  induction p as [|c p IH]; intros tail c0 r Hlit Hfirst Hstar Htail.
  - exists r. split; [done|]. intros s. split; [by exists s|]. by intros (rest & -> & ?).
  - cbn in Hlit. apply andb_prop in Hlit as [Hc Hlit].
    destruct (literalByte_atom c Hc) as (Hatom & Hcstar & Hcdollar).
    destruct (IH tail c0 r Hlit Hfirst Hstar Htail) as (r' & Hr' & Hmatch).
    exists (Seq (chr c) r'). split.
    + change (String c p +:+ tail) with (String c (p +:+ tail)).
      cbn [Wildcard.compileItems]. rewrite Hcdollar, Hatom.
      assert (∃ c' rest, p +:+ tail = String c' rest ∧ Ascii.eqb c' "*" = false)
        as (c' & rest & Heq & Hc').
      { destruct p as [|c' p'].
        - destruct tail as [|c' rest]; [done|]. injection Hfirst as ->. by exists c0, rest.
        - cbn in Hlit. apply andb_prop in Hlit as [Hc' _].
          exists c', (p' +:+ tail). split; [done|]. by apply literalByte_atom. }
      rewrite Heq, Hc', <- Heq, Hr'. done.
    + intros s. rewrite MatchString_chr_Seq. split.
      * intros (rest & -> & (rest' & -> & ?)%Hmatch). by exists rest'.
      * intros (rest & -> & ?). exists (p +:+ rest). split; [done|].
        apply Hmatch. by exists rest.
Qed.

Lemma append_assoc (s t u : string) : s +:+ (t +:+ u) = (s +:+ t) +:+ u.
Proof.
  induction s as [|a s IH]; [done|].
  change (String a s +:+ ?x) with (String a (s +:+ x)). by rewrite IH.
Qed.

Lemma ReplaceAllByte_app s t old new :
  ReplaceAllByte (s +:+ t) old new = ReplaceAllByte s old new +:+ ReplaceAllByte t old new.
Proof.
  induction s as [|a s IH]; [done|].
  change (String a s +:+ t) with (String a (s +:+ t)). cbn [ReplaceAllByte].
  destruct (Ascii.eqb a old); rewrite IH; [|done].
  apply append_assoc.
Qed.

Lemma literal_avoids_star p : all_bytes literalByte p = true → DPNProps.avoids "*" p = true.
Proof.
  unfold DPNProps.avoids. apply DPNFacts.all_bytes_impl. intros a Ha.
  destruct (literalByte_atom a Ha) as (_ & -> & _). done.
Qed.

(** X24.  Group patterns made of literal bytes.  A pattern without a star
    matches the endpoint equal to it and no other; the pattern followed by a
    star matches exactly the endpoints that begin with it and have no line
    feed after it. *)
Theorem matchesPattern_literal (endpoint p : string) :
  all_bytes literalByte p = true →
  matchesPattern Wildcard.MatchString endpoint p = String.eqb endpoint p ∧
  (matchesPattern Wildcard.MatchString endpoint (p +:+ "*") = true ↔
   ∃ rest, endpoint = p +:+ rest ∧ DPNProps.avoids "010" rest = true).
Proof.
  intros Hlit. pose proof (literal_avoids_star p Hlit) as Hstar. split.
  - unfold matchesPattern, Wildcard.MatchString.
    rewrite (DPNFacts.ReplaceAllByte_avoids p "*" ".*" Hstar).
    change ("^" +:+ p +:+ "$") with (String "^" (p +:+ "$")). cbn [Wildcard.compile Ascii.eqb].
    change (Ascii.eqb "^" "^") with true. cbv iota.
    destruct (compileItems_literal p "$" "$" Eps Hlit eq_refl eq_refl eq_refl)
      as (r' & -> & Hmatch). cbn.
    apply eq_true_iff_eq. rewrite Hmatch, String.eqb_eq. split.
    + intros (rest & -> & ->%MatchString_Eps). apply RegexFacts.app_empty_r.
    + intros ->. exists "". by rewrite RegexFacts.app_empty_r.
  - unfold matchesPattern, Wildcard.MatchString.
    rewrite ReplaceAllByte_app, (DPNFacts.ReplaceAllByte_avoids p "*" ".*" Hstar).
    change (ReplaceAllByte "*" "*" ".*") with ".*".
    assert ("^" +:+ (p +:+ ".*") +:+ "$" = String "^" (p +:+ ".*$")) as ->.
    { change ("^" +:+ ?x) with (String "^" x). f_equal.
      by rewrite <- append_assoc. }
    cbn [Wildcard.compile]. change (Ascii.eqb "^" "^") with true. cbv iota.
    destruct (compileItems_literal p ".*$" "." (Seq (Star Wildcard.anyByte) Eps)
                Hlit eq_refl eq_refl eq_refl) as (r' & -> & Hmatch). cbn.
    rewrite Hmatch. by setoid_rewrite MatchString_any_star_Eps.
Qed.

Lemma matchesPattern_auth :
  all_bytes literalByte "auth/" = true ∧
  matchesPattern Wildcard.MatchString "auth/login" "auth/*" = true ∧
  matchesPattern Wildcard.MatchString "auth/login" "auth/" = false.
Proof.
  assert (all_bytes literalByte "auth/" = true) as Hlit by (by vm_compute).
  split; [done|].
  destruct (matchesPattern_literal "auth/login" "auth/" Hlit) as [Heq Hprefix].
  split.
  - apply Hprefix. by exists "login".
  - by rewrite Heq.
Defined.

(** *** Loading a configuration *)

(** X25.  A configuration that [LoadThresholdConfig] returns is the one
    parsed from the file, except that a tolerance of 0 has become 10 and a
    minimum of samples of 0 has become 100.  Hence no loaded configuration
    has a global tolerance of 0 or a minimum of 0 samples, and the validator
    gates on the minimum as loaded. *)
Theorem LoadThresholdConfig_defaults
    (os_ReadFile : string → string + string)
    (yaml_Unmarshal : string → ThresholdConfig + string)
    (filename : string) (config : ThresholdConfig) :
  LoadThresholdConfig os_ReadFile yaml_Unmarshal filename = inl config →
  PrimFloat.eqb (ThresholdOptions.TolerancePercent (Options config)) 0 = false ∧
  ThresholdOptions.MinSamples (Options config) ≠ 0 ∧
  minSamplesOf config = ThresholdOptions.MinSamples (Options config) ∧
  ∃ data parsed,
    os_ReadFile filename = inl data ∧ yaml_Unmarshal data = inl parsed ∧
    Defaults config = Defaults parsed ∧ Groups config = Groups parsed ∧
    Endpoints config = Endpoints parsed ∧
    ThresholdOptions.SoftFail (Options config) = ThresholdOptions.SoftFail (Options parsed) ∧
    ThresholdOptions.TolerancePercent (Options config) =
      (if PrimFloat.eqb (ThresholdOptions.TolerancePercent (Options parsed)) 0 then 10%float
       else ThresholdOptions.TolerancePercent (Options parsed)) ∧
    ThresholdOptions.MinSamples (Options config) =
      (if ThresholdOptions.MinSamples (Options parsed) =? 0 then 100
       else ThresholdOptions.MinSamples (Options parsed)).
Proof.
  unfold LoadThresholdConfig.
  destruct (os_ReadFile filename) as [data|err] eqn:Hread; [|done].
  destruct (yaml_Unmarshal data) as [parsed|err] eqn:Hparse; [|done].
  intros [= <-]. cbn.
  assert ((ThresholdOptions.MinSamples (Options parsed) =? 0) = true ∨
          (ThresholdOptions.MinSamples (Options parsed) =? 0) = false) as [Hz|Hz]
    by (destruct (_ =? 0); auto).
  all: assert (PrimFloat.eqb (ThresholdOptions.TolerancePercent (Options parsed)) 0 = true ∨
          PrimFloat.eqb (ThresholdOptions.TolerancePercent (Options parsed)) 0 = false)
         as [Ht|Ht] by (destruct (PrimFloat.eqb _ 0); auto).
  all: unfold minSamplesOf; cbn; rewrite Hz, Ht; cbn.
  all: try rewrite Hz.
  all: (split; [done|]); (split; [by try apply Z.eqb_neq in Hz|]); (split; [done|]).
  all: exists data, parsed; by rewrite Hz, Ht.
Qed.

Lemma LoadThresholdConfig_bare :
  let os_ReadFile := λ _ : string, inl "defaults: {}" : string + string in
  let yaml_Unmarshal := λ _ : string, inl bare_config : ThresholdConfig + string in
  LoadThresholdConfig os_ReadFile yaml_Unmarshal "thresholds.yml" =
    inl {| Defaults := noThresholds; Groups := ∅; Endpoints := ∅;
           Options := {| ThresholdOptions.TolerancePercent := 10;
                         ThresholdOptions.MinSamples := 100;
                         ThresholdOptions.SoftFail := true |} |} ∧
  PrimFloat.eqb 10 0 = false ∧ 100 ≠ 0.
Proof.
  intros os_ReadFile yaml_Unmarshal.
  assert (LoadThresholdConfig os_ReadFile yaml_Unmarshal "thresholds.yml" =
    inl {| Defaults := noThresholds; Groups := ∅; Endpoints := ∅;
           Options := {| ThresholdOptions.TolerancePercent := 10;
                         ThresholdOptions.MinSamples := 100;
                         ThresholdOptions.SoftFail := true |} |}) as Hload
    by (by vm_compute).
  split; [done|].
  destruct (LoadThresholdConfig_defaults os_ReadFile yaml_Unmarshal "thresholds.yml" _ Hload)
    as (Htol & Hmin & _).
  done.
Defined.

End ThresholdFacts.
